(** * Sighting matching engine of the learning-log / cat-tracking backend

    Shallow embedding of [backend/main.py]: the matching core
    (tokenizer, Jaccard similarity, haversine distance, the match scorer,
    the two candidate searches [find_matches] and [find_nearby_sightings],
    the analysis cache [analyze_and_store] and [make_context_hash]), the
    baseline analyzers, the circuit breaker, [retry_with_backoff], the
    geocoding with fallback, the entry and cat endpoints, location
    normalization and the cat insights with their cache.

    Numbers: Python floats are modelled as real numbers ([R]); strings as
    Rocq strings over ASCII characters; Python sets of strings as
    [gset string]; database tables as lists of rows. *)

From Stdlib Require Import Reals Lra Lia.
From Stdlib Require Import Ascii String Sorted DecimalString.
From stdpp Require Import base list gmap sets strings.

Open Scope R_scope.

(* ------------------------------------------------------------------ *)
(** ** Text normalisation and tokenisation *)

Module Text.

(** Python's [str.split()] whitespace, restricted to ASCII code points:
    [\t \n \v \f \r] (9..13), the separators [\x1c..\x1f] and space. *)
Definition is_py_space (c : ascii) : bool :=
  let n := nat_of_ascii c in
  ((9 <=? n) && (n <=? 13)) || ((28 <=? n) && (n <=? 32)).

(** [str.lower()] on an ASCII character. *)
Definition lower_char (c : ascii) : ascii :=
  let n := nat_of_ascii c in
  if (65 <=? n) && (n <=? 90) then ascii_of_nat (n + 32) else c.

Fixpoint str_lower (s : string) : string :=
  match s with
  | EmptyString => EmptyString
  | String c r => String (lower_char c) (str_lower r)
  end.

(** [str.split()] with no argument: maximal runs of non-whitespace. *)
Fixpoint split_ws_aux (s : string) (cur : string) : list string :=
  match s with
  | EmptyString => if String.eqb cur "" then [] else [cur]
  | String c r =>
      if is_py_space c then
        (if String.eqb cur "" then split_ws_aux r ""
         else cur :: split_ws_aux r "")
      else split_ws_aux r (String.append cur (String c EmptyString))
  end.

Definition py_split (s : string) : list string := split_ws_aux s "".

(** [sep.join(parts)]. *)
Fixpoint py_join (sep : string) (parts : list string) : string :=
  match parts with
  | [] => ""
  | [x] => x
  | x :: rest => String.append x (String.append sep (py_join sep rest))
  end.

(** [normalize_text(s)]: [if not s: return ""], then
    [" ".join(s.strip().lower().split())]. *)
Definition normalize_text (s : option string) : string :=
  match s with
  | None => ""
  | Some s =>
      if String.eqb s "" then "" else py_join " " (py_split (str_lower s))
  end.

Definition is_ascii_alpha (c : ascii) : bool :=
  let n := nat_of_ascii c in
  ((65 <=? n) && (n <=? 90)) || ((97 <=? n) && (n <=? 122)).

(** The character class [[a-zA-Z0-9_-]]. *)
Definition is_word_char (c : ascii) : bool :=
  let n := nat_of_ascii c in
  is_ascii_alpha c || ((48 <=? n) && (n <=? 57)) || (n =? 95)%nat || (n =? 45)%nat.

(** Greedy [[a-zA-Z0-9_-]*]: the matched prefix and the rest. *)
Fixpoint span_word (s : string) : string * string :=
  match s with
  | EmptyString => (EmptyString, EmptyString)
  | String c r =>
      if is_word_char c then
        let '(w, rest) := span_word r in (String c w, rest)
      else (EmptyString, s)
  end.

(** [re.findall(r"[a-zA-Z][a-zA-Z0-9_-]{2,}", s)]: scan left to right;
    at each position try the pattern (a letter, then a greedy run of at
    least two word characters); on a match emit it and resume after it,
    otherwise advance by one character.  Every step consumes at least one
    character, so [length s] steps suffice. *)
Fixpoint findall_go (fuel : nat) (s : string) : list string :=
  match fuel with
  | O => []
  | S fuel' =>
      match s with
      | EmptyString => []
      | String c r =>
          if is_ascii_alpha c then
            let '(w, rest) := span_word r in
            if (2 <=? String.length w)%nat then String c w :: findall_go fuel' rest
            else findall_go fuel' r
          else findall_go fuel' r
      end
  end.

Definition findall_keywords (s : string) : list string :=
  findall_go (String.length s) s.

Definition STOPWORDS : list string :=
  ["the"; "a"; "an"; "and"; "or"; "but"; "if"; "then"; "so"; "to"; "of";
   "in"; "on"; "for"; "with"; "is"; "are"; "was"; "were"; "be"; "been";
   "it"; "this"; "that"; "i"; "you"; "we"; "they"; "my"; "at"; "as"; "by";
   "from"; "into"; "about"; "over"; "after"; "before"; "again"].

Definition is_stopword (t : string) : bool := existsb (String.eqb t) STOPWORDS.

(** [tokenize_keywords(text)]:
    [{t for t in re.findall(..., normalize_text(text)) if t not in STOPWORDS}]. *)
Definition tokenize_keywords (text : string) : gset string :=
  list_to_set (List.filter (fun t => negb (is_stopword t))
                      (findall_keywords (normalize_text (Some text)))).

End Text.

Example tokenize_example :
  Text.tokenize_keywords "Orange tabby cat near the  Park" =
  list_to_set ["orange"; "tabby"; "cat"; "near"; "park"].
Proof. vm_compute. reflexivity. Qed.

(* ------------------------------------------------------------------ *)
(** ** Similarity engine *)

Module Similarity.

(** [jaccard_similarity(a, b)]:
    [if not a and not b: return 0.0]; [union = a | b];
    [if not union: return 0.0]; [return len(a & b) / len(union)]. *)
Definition jaccard_similarity (a b : gset string) : R :=
  if bool_decide (a = ∅) && bool_decide (b = ∅) then 0
  else
    let union := a ∪ b in
    if bool_decide (union = ∅) then 0
    else INR (size (a ∩ b)) / INR (size union).

(** [location_similarity(loc_a, loc_b)]. *)
Definition location_similarity (loc_a loc_b : string) : R :=
  jaccard_similarity (Text.tokenize_keywords loc_a) (Text.tokenize_keywords loc_b).

(** [math.radians]. *)
Definition radians (d : R) : R := d * (PI / 180).

Definition EARTH_RADIUS : R := 6371000.

(** [haversine_distance(lat1, lon1, lat2, lon2)]; [math.asin] is the
    Standard Library's [asin] (equal to it on [[-1, 1]]). *)
Definition haversine_distance (lat1 lon1 lat2 lon2 : R) : R :=
  let lat1 := radians lat1 in
  let lon1 := radians lon1 in
  let lat2 := radians lat2 in
  let lon2 := radians lon2 in
  let dlat := lat2 - lat1 in
  let dlon := lon2 - lon1 in
  let a := (sin (dlat / 2)) ^ 2 + cos lat1 * cos lat2 * (sin (dlon / 2)) ^ 2 in
  let c := 2 * asin (sqrt a) in
  EARTH_RADIUS * c.

End Similarity.

(* ------------------------------------------------------------------ *)
(** ** Match scorer *)

Module Scorer.

Import Similarity.

(** The reason strings of [compute_match_score]; each constructor carries
    the values its f-string formats. *)
Inductive reason :=
  | TextSimilarity (text_sim : R)               (* "text similarity {:.2f}" *)
  | DistanceScore (distance loc_score : R)      (* "distance {:.0f}m (score {:.2f})" *)
  | DistanceTooFar (distance : R)               (* "distance {:.0f}m (too far)" *)
  | LocationTextSimilarity (loc_score : R)      (* "location text similarity {:.2f}" *)
  | LowSimilarity.                              (* "low similarity" *)

(** Python truthiness of a [str]. *)
Definition truthy (s : string) : bool := negb (String.eqb s "").

(** [compute_match_score(...)]: returns [(score, reasons)]. *)
Definition compute_match_score
    (base_text base_location cand_text cand_location : string)
    (base_lat base_lon cand_lat cand_lon : option R) : R * list reason :=
  let base_kw := Text.tokenize_keywords base_text in
  let cand_kw := Text.tokenize_keywords cand_text in
  let text_sim := jaccard_similarity base_kw cand_kw in
  let reasons := if Rlt_dec 0 text_sim then [TextSimilarity text_sim] else [] in
  let '(score, reasons) :=
    match base_lat, base_lon, cand_lat, cand_lon with
    | Some blat, Some blon, Some clat, Some clon =>
        (* has_coords *)
        let distance := haversine_distance blat blon clat clon in
        let '(loc_score, reasons) :=
          if Rlt_dec distance 1000 then
            let loc_score := Rmax 0 (1 - distance / 1000) in
            (loc_score, reasons ++ [DistanceScore distance loc_score])
          else (0, reasons ++ [DistanceTooFar distance]) in
        (0.5 * text_sim + 0.5 * loc_score, reasons)
    | _, _, _, _ =>
        let '(loc_score, reasons) :=
          if truthy base_location && truthy cand_location then
            let loc_score := location_similarity base_location cand_location in
            (loc_score,
             if Rlt_dec 0 loc_score then reasons ++ [LocationTextSimilarity loc_score]
             else reasons)
          else (0, reasons) in
        (0.7 * text_sim + 0.3 * loc_score, reasons)
    end in
  let reasons := match reasons with [] => [LowSimilarity] | _ => reasons end in
  (score, reasons).

End Scorer.

(* ------------------------------------------------------------------ *)
(** ** Python helpers: [round], stable [list.sort], slicing *)

Module Py.

(** Round half to even of a real number to an integer. *)
Definition round_half_even (y : R) : Z :=
  let f := Int_part y in
  let fr := y - IZR f in
  if Rlt_dec fr (1 / 2) then f
  else if Rlt_dec (1 / 2) fr then (f + 1)%Z
  else if Z.even f then f else (f + 1)%Z.

(** [round(x, n)]. *)
Definition py_round (x : R) (n : nat) : R :=
  IZR (round_half_even (x * 10 ^ n)) / 10 ^ n.

(** [l[:k]]: a negative bound counts from the end. *)
Definition slice_upto {A} (l : list A) (k : Z) : list A :=
  take (Z.to_nat (if (0 <=? k)%Z then k else (Z.of_nat (length l) + k)%Z)) l.

Section StableSort.
Context {A : Type} (key : A -> R).

(** [list.sort(key=key, reverse=True)] is a stable sort on descending keys:
    an element goes after every element whose key is not smaller. *)
Fixpoint insert_desc (x : A) (l : list A) : list A :=
  match l with
  | [] => [x]
  | y :: l' => if Rlt_dec (key y) (key x) then x :: l else y :: insert_desc x l'
  end.

Definition sort_desc (l : list A) : list A :=
  fold_left (fun acc x => insert_desc x acc) l [].

(** [list.sort(key=key)]: stable sort on ascending keys. *)
Fixpoint insert_asc (x : A) (l : list A) : list A :=
  match l with
  | [] => [x]
  | y :: l' => if Rlt_dec (key x) (key y) then x :: l else y :: insert_asc x l'
  end.

Definition sort_asc (l : list A) : list A :=
  fold_left (fun acc x => insert_asc x acc) l [].

End StableSort.

End Py.

(* ------------------------------------------------------------------ *)
(** ** The store: the [entries], [cats] and [analyses] tables *)

Module Store.

Record entry_row := mk_entry {
  e_id : Z;
  e_text : string;
  e_createdAt : string;
  e_nickname : option string;
  e_location : option string;
  e_location_normalized : option string;
  e_location_lat : option R;
  e_location_lon : option R;
  e_cat_id : option Z
}.

Record cat_row := mk_cat { c_id : Z; c_name : option string }.

(** [SELECT ... FROM entries WHERE id = ?] followed by [fetchone()]. *)
Definition select_entry (entries : list entry_row) (id : Z) : option entry_row :=
  List.find (fun r => Z.eqb (e_id r) id) entries.

(** [ORDER BY id DESC]. *)
Fixpoint insert_id_desc (r : entry_row) (l : list entry_row) : list entry_row :=
  match l with
  | [] => [r]
  | x :: l' => if Z.leb (e_id x) (e_id r) then r :: l else x :: insert_id_desc r l'
  end.

Definition order_by_id_desc (l : list entry_row) : list entry_row :=
  fold_right insert_id_desc [] l.

(** [LEFT JOIN cats c ON e.cat_id = c.id], the [c.name] column. *)
Definition cat_name_of (cats : list cat_row) (cat_id : option Z) : option string :=
  match cat_id with
  | None => None
  | Some cid =>
      match List.find (fun c => Z.eqb (c_id c) cid) cats with
      | Some c => c_name c
      | None => None
      end
  end.

(** [x or ""] on an optional string column. *)
Definition or_empty (s : option string) : string :=
  match s with Some s => s | None => "" end.

(** Failures of the endpoints: 404 and 400. *)
Inductive error := NotFound | InvalidState.

End Store.

(* ------------------------------------------------------------------ *)
(** ** Candidate search *)

Module Search.

Import Store Scorer Similarity.

Record match_candidate := mk_match {
  mc_entry_id : Z;
  mc_candidate_id : Z;
  mc_score : R;
  mc_reasons : list reason;
  mc_candidate_nickname : option string;
  mc_candidate_location : option string;
  mc_candidate_text : string;
  mc_candidate_createdAt : string
}.

(** The score of a candidate row against the base row, as [find_matches]
    and [find_nearby_sightings] call [compute_match_score]. *)
Definition score_rows (base r : entry_row) : R * list reason :=
  compute_match_score (e_text base) (or_empty (e_location base))
    (e_text r) (or_empty (e_location r))
    (e_location_lat base) (e_location_lon base)
    (e_location_lat r) (e_location_lon r).

(** Step 3 of [find_matches] for one row: keep it when [score >= min_score]. *)
Definition match_row (entry_id : Z) (min_score : R) (base r : entry_row)
    : list match_candidate :=
  let '(score, reasons) := score_rows base r in
  if Rle_dec min_score score then
    [mk_match entry_id (e_id r) (Py.py_round score 3) reasons
       (e_nickname r) (e_location r) (e_text r) (e_createdAt r)]
  else [].

(** The rows of [SELECT ... FROM entries WHERE id != ? ORDER BY id DESC]. *)
Definition match_scan (entries : list entry_row) (entry_id : Z) : list entry_row :=
  order_by_id_desc (List.filter (fun r => negb (Z.eqb (e_id r) entry_id)) entries).

(** [find_matches(entry_id, top_k, min_score)]. *)
Definition find_matches (entries : list entry_row) (entry_id top_k : Z)
    (min_score : R) : error + list match_candidate :=
  match select_entry entries entry_id with
  | None => inl NotFound
  | Some base =>
      let rows := match_scan entries entry_id in
      let candidates := flat_map (match_row entry_id min_score base) rows in
      let sorted := Py.sort_desc mc_score candidates in
      inr (Py.slice_upto sorted (Z.max 1 (Z.min top_k 20)))
  end.

Record nearby_sighting := mk_nearby {
  ns_entry_id : Z;
  ns_distance_meters : R;
  ns_location : option string;
  ns_location_normalized : option string;
  ns_text_preview : string;
  ns_cat_id : option Z;
  ns_cat_name : option string;
  ns_created_at : string;
  ns_match_score : R;
  ns_reasons : list reason
}.

(** [r["text"][:100] + "..." if len(r["text"]) > 100 else r["text"]]. *)
Definition text_preview (t : string) : string :=
  if (100 <? String.length t)%nat then String.append (substring 0 100 t) "..." else t.

Definition has_coords (r : entry_row) : bool :=
  match e_location_lat r, e_location_lon r with
  | Some _, Some _ => true
  | _, _ => false
  end.

(** The rows of the two candidate queries of [find_nearby_sightings]:
    [WHERE e.id != ? AND e.location_lat IS NOT NULL AND e.location_lon IS
    NOT NULL] (and [AND e.cat_id IS NULL] unless [include_assigned]),
    [ORDER BY e.id DESC]. *)
Definition nearby_scan (entries : list entry_row) (entry_id : Z)
    (include_assigned : bool) : list entry_row :=
  order_by_id_desc
    (List.filter (fun r => negb (Z.eqb (e_id r) entry_id) && has_coords r
                      && (include_assigned || bool_decide (e_cat_id r = None)))
       entries).

(** Step 3 of [find_nearby_sightings] for one row. *)
Definition nearby_row (cats : list cat_row) (radius_meters : Z)
    (base : entry_row) (base_lat base_lon : R) (r : entry_row)
    : list nearby_sighting :=
  match e_location_lat r, e_location_lon r with
  | Some cand_lat, Some cand_lon =>
      let distance := haversine_distance base_lat base_lon cand_lat cand_lon in
      if Rlt_dec (IZR radius_meters) distance then []
      else
        let '(score, reasons) := score_rows base r in
        [mk_nearby (e_id r) (Py.py_round distance 1) (e_location r)
           (e_location_normalized r) (text_preview (e_text r)) (e_cat_id r)
           (cat_name_of cats (e_cat_id r)) (e_createdAt r)
           (Py.py_round score 3) reasons]
  | _, _ => []
  end.

(** [find_nearby_sightings(entry_id, radius_meters, top_k, include_assigned)]. *)
Definition find_nearby_sightings (entries : list entry_row) (cats : list cat_row)
    (entry_id radius_meters top_k : Z) (include_assigned : bool)
    : error + list nearby_sighting :=
  match select_entry entries entry_id with
  | None => inl NotFound
  | Some base =>
      match e_location_lat base, e_location_lon base with
      | Some base_lat, Some base_lon =>
          let rows := nearby_scan entries entry_id include_assigned in
          let nearby := flat_map (nearby_row cats radius_meters base base_lat base_lon) rows in
          let sorted := Py.sort_asc ns_distance_meters nearby in
          inr (Py.slice_upto sorted top_k)
      | _, _ => inl InvalidState
      end
  end.

End Search.

(* ------------------------------------------------------------------ *)
(** ** Content-hash cache: [analyze_and_store] and [make_context_hash] *)

Module Cache.

Import Store.

Record analysis_row := mk_analysis {
  a_entry_id : Z;
  a_text_hash : string;
  a_summary : string;
  a_tags_json : string;
  a_sentiment : string;
  a_createdAt : string;
  a_updatedAt : string
}.

(** The [EntryAnalysis] response. *)
Record entry_analysis := mk_entry_analysis {
  ea_entry_id : Z;
  ea_summary : string;
  ea_tags : list string;
  ea_sentiment : string;
  ea_updatedAt : string
}.

Section Analyze.

(** [hashlib.sha256(s.encode("utf-8")).hexdigest()]: any function. *)
Variable sha256_hex : string -> string.
(** The baseline analyzer ([baseline_summary], [baseline_tags],
    [baseline_sentiment]) and the JSON codec of the tag list
    ([tags_to_json], [tags_from_json]); the cache logic is independent
    of their internals. *)
Variable baseline_summary : string -> string.
Variable baseline_tags : string -> list string.
Variable baseline_sentiment : string -> string.
Variable tags_to_json : list string -> string.
Variable tags_from_json : string -> list string.

(** [text_to_hash(text)]: sha256 of [" ".join(text.strip().split())]. *)
Definition text_to_hash (text : string) : string :=
  sha256_hex (Text.py_join " " (Text.py_split text)).

(** [SELECT ... FROM analyses WHERE entry_id = ?] and [fetchone()]. *)
Definition select_analysis (analyses : list analysis_row) (entry_id : Z)
    : option analysis_row :=
  List.find (fun a => Z.eqb (a_entry_id a) entry_id) analyses.

(** [INSERT INTO analyses (...) VALUES (...) ON CONFLICT(entry_id) DO UPDATE
    SET text_hash, summary, tags_json, sentiment, updatedAt]: the row
    keyed by [entry_id] keeps its [createdAt]. *)
Fixpoint upsert_analysis (new : analysis_row) (analyses : list analysis_row)
    : list analysis_row :=
  match analyses with
  | [] => [new]
  | a :: rest =>
      if Z.eqb (a_entry_id a) (a_entry_id new) then
        mk_analysis (a_entry_id a) (a_text_hash new) (a_summary new)
          (a_tags_json new) (a_sentiment new) (a_createdAt a) (a_updatedAt new)
        :: rest
      else a :: upsert_analysis new rest
  end.

(** [analyze_and_store(entry_id)], with [now] the timestamp
    [datetime.utcnow().isoformat() + "Z"]; returns the response and the
    [analyses] table afterwards. *)
Definition analyze_and_store (entries : list entry_row)
    (analyses : list analysis_row) (entry_id : Z) (now : string)
    : (error + entry_analysis) * list analysis_row :=
  match select_entry entries entry_id with
  | None => (inl NotFound, analyses)
  | Some entry =>
      let text := e_text entry in
      let current_hash := text_to_hash text in
      let cached :=
        match select_analysis analyses entry_id with
        | Some existing =>
            if String.eqb (a_text_hash existing) current_hash then Some existing
            else None
        | None => None
        end in
      match cached with
      | Some existing =>
          (inr (mk_entry_analysis (a_entry_id existing) (a_summary existing)
                  (tags_from_json (a_tags_json existing)) (a_sentiment existing)
                  (a_updatedAt existing)),
           analyses)
      | None =>
          let summary := baseline_summary text in
          let tags := baseline_tags text in
          let sentiment := baseline_sentiment text in
          let analyses' :=
            upsert_analysis
              (mk_analysis entry_id current_hash summary (tags_to_json tags)
                 sentiment now now) analyses in
          (inr (mk_entry_analysis entry_id summary tags sentiment now), analyses')
      end
  end.

(** The separator of [make_context_hash]: ["\n---\n"]. *)
Definition CONTEXT_SEP : string :=
  String (ascii_of_nat 10) (String.append "---" (String (ascii_of_nat 10) EmptyString)).

(** The string [make_context_hash] feeds to the hash:
    ["\n---\n".join(parts)]. *)
Definition context_hash_input (parts : list string) : string :=
  Text.py_join CONTEXT_SEP parts.

(** [make_context_hash(parts)]. *)
Definition make_context_hash (parts : list string) : string :=
  sha256_hex (context_hash_input parts).

End Analyze.

End Cache.

(* ------------------------------------------------------------------ *)
(** ** The baseline analyzers: [baseline_summary], [baseline_tags],
    [baseline_sentiment], [excerpt] *)

Module Analyzers.

Import Text.

(** [str.lstrip()], [str.rstrip()] and [str.strip()] (Python whitespace). *)
Fixpoint lstrip (s : string) : string :=
  match s with
  | EmptyString => EmptyString
  | String c r => if is_py_space c then lstrip r else s
  end.

Fixpoint rstrip (s : string) : string :=
  match s with
  | EmptyString => EmptyString
  | String c r =>
      let r' := rstrip r in
      if is_py_space c && String.eqb r' "" then EmptyString else String c r'
  end.

Definition strip (s : string) : string := rstrip (lstrip s).

(** A Python [str] that may hold non-ASCII characters, as its list of
    code points; [ustr] embeds an ASCII string. *)
Definition ustring := list Z.

Definition ustr (s : string) : ustring :=
  map (fun c => Z.of_nat (nat_of_ascii c)) (list_ascii_of_string s).

(** ["…"] (U+2026). *)
Definition ELLIPSIS : Z := 8230.

(** [cleaned[: max_len - 1]] on an ASCII string. *)
Definition str_slice_upto (s : string) (k : Z) : string :=
  string_of_list_ascii (Py.slice_upto (list_ascii_of_string s) k).

(** [baseline_summary(text, max_len)]:
    [cleaned = " ".join(text.strip().split())]; [cleaned] when it fits,
    else [cleaned[: max_len - 1].rstrip() + "…"]. *)
Definition baseline_summary (text : string) (max_len : Z) : ustring :=
  let cleaned := py_join " " (py_split (strip text)) in
  if (Z.of_nat (String.length cleaned) <=? max_len)%Z then ustr cleaned
  else ustr (rstrip (str_slice_upto cleaned (max_len - 1))) ++ [ELLIPSIS].

(** [excerpt(text, max_len)]: the same body as [baseline_summary]. *)
Definition excerpt (text : string) (max_len : Z) : ustring :=
  let cleaned := py_join " " (py_split (strip text)) in
  if (Z.of_nat (String.length cleaned) <=? max_len)%Z then ustr cleaned
  else ustr (rstrip (str_slice_upto cleaned (max_len - 1))) ++ [ELLIPSIS].

(** [Counter(tokens)]: counts in first-occurrence order (dict order). *)
Fixpoint counter_add (w : string) (c : list (string * nat)) : list (string * nat) :=
  match c with
  | [] => [(w, 1%nat)]
  | (x, n) :: rest =>
      if String.eqb x w then (x, S n) :: rest else (x, n) :: counter_add w rest
  end.

Definition counter (tokens : list string) : list (string * nat) :=
  fold_left (fun c t => counter_add t c) tokens [].

(** [sorted(items, key=itemgetter(1), reverse=True)]: a stable sort by
    descending count; an item goes after every item whose count is not
    smaller. *)
Fixpoint insert_count_desc (x : string * nat) (l : list (string * nat))
    : list (string * nat) :=
  match l with
  | [] => [x]
  | y :: l' => if (snd y <? snd x)%nat then x :: l else y :: insert_count_desc x l'
  end.

Definition sort_count_desc (l : list (string * nat)) : list (string * nat) :=
  fold_left (fun acc x => insert_count_desc x acc) l [].

(** [Counter.most_common(n)], that is [heapq.nlargest(n, items,
    key=itemgetter(1))]: the first [n] items of the stable sort by
    descending count ([[]] when [n <= 0]). *)
Definition most_common (c : list (string * nat)) (n : Z) : list (string * nat) :=
  take (Z.to_nat n) (sort_count_desc c).

(** The tokens [baseline_tags] counts:
    [re.findall(r"[a-zA-Z][a-zA-Z0-9_-]{2,}", text.lower())] without
    the stopwords. *)
Definition tag_tokens (text : string) : list string :=
  List.filter (fun t => negb (is_stopword t)) (findall_keywords (str_lower text)).

(** [baseline_tags(text, k)]: [[w for w, _ in Counter(tokens).most_common(k)]]. *)
Definition baseline_tags (text : string) (k : Z) : list string :=
  map fst (most_common (counter (tag_tokens text)) k).

Definition POS_WORDS : list string :=
  ["good"; "great"; "nice"; "love"; "fun"; "happy"; "win"; "success"; "worked";
   "improved"].

Definition NEG_WORDS : list string :=
  ["bad"; "hard"; "confusing"; "stuck"; "fail"; "error"; "issue"; "frustrating";
   "broken"].

(** The character class [[a-zA-Z']]. *)
Definition is_sentiment_char (c : ascii) : bool :=
  is_ascii_alpha c || (nat_of_ascii c =? 39)%nat.

(** [re.findall(r"[a-zA-Z']+", s)]: the maximal runs of the class. *)
Fixpoint sentiment_runs (s : string) (cur : string) : list string :=
  match s with
  | EmptyString => if String.eqb cur "" then [] else [cur]
  | String c r =>
      if is_sentiment_char c then sentiment_runs r (String.append cur (String c EmptyString))
      else if String.eqb cur "" then sentiment_runs r ""
      else cur :: sentiment_runs r ""
  end.

(** [baseline_sentiment(text)]. *)
Definition baseline_sentiment (text : string) : string :=
  let tokens : gset string := list_to_set (sentiment_runs (str_lower text) "") in
  let pos := size (tokens ∩ list_to_set POS_WORDS) in
  let neg := size (tokens ∩ list_to_set NEG_WORDS) in
  if (neg <? pos)%nat then "positive"
  else if (pos <? neg)%nat then "negative"
  else "neutral".

End Analyzers.

(* ------------------------------------------------------------------ *)
(** ** Resilience of the geocoder: [CircuitBreaker], [retry_with_backoff],
    [geocode_location], [geocode_with_fallback] *)

Module Circuit.

Inductive CircuitState := CLOSED | OPEN | HALF_OPEN.

(** [CircuitState.value]. *)
Definition state_value (s : CircuitState) : string :=
  match s with CLOSED => "closed" | OPEN => "open" | HALF_OPEN => "half_open" end.

(** The dataclass [CircuitBreaker]; [datetime] instants are seconds ([R]),
    and [datetime.now()] is an argument of the methods that read it. *)
Record CircuitBreaker := mk_breaker {
  failure_threshold : Z;
  recovery_timeout : R;
  half_open_max_calls : Z;
  failure_count : Z;              (* _failure_count *)
  last_failure_time : option R;   (* _last_failure_time *)
  state : CircuitState;           (* _state *)
  half_open_calls : Z             (* _half_open_calls *)
}.

(** [CircuitBreaker(failure_threshold, recovery_timeout, half_open_max_calls)]. *)
Definition new_breaker (failure_threshold : Z) (recovery_timeout : R)
    (half_open_max_calls : Z) : CircuitBreaker :=
  mk_breaker failure_threshold recovery_timeout half_open_max_calls 0 None CLOSED 0.

(** [nominatim_circuit = CircuitBreaker()]. *)
Definition nominatim_circuit : CircuitBreaker := new_breaker 5 60 3.

(** [can_execute()]: the answer and the breaker afterwards. *)
Definition can_execute (cb : CircuitBreaker) (now : R) : bool * CircuitBreaker :=
  match state cb with
  | CLOSED => (true, cb)
  | OPEN =>
      match last_failure_time cb with
      | Some t =>
          if Rlt_dec (recovery_timeout cb) (now - t) then
            (true, mk_breaker (failure_threshold cb) (recovery_timeout cb)
                     (half_open_max_calls cb) (failure_count cb)
                     (last_failure_time cb) HALF_OPEN 0)
          else (false, cb)
      | None => (false, cb)
      end
  | HALF_OPEN => ((half_open_calls cb <? half_open_max_calls cb)%Z, cb)
  end.

(** [record_success()]. *)
Definition record_success (cb : CircuitBreaker) : CircuitBreaker :=
  match state cb with
  | HALF_OPEN =>
      let calls := (half_open_calls cb + 1)%Z in
      if (half_open_max_calls cb <=? calls)%Z then
        mk_breaker (failure_threshold cb) (recovery_timeout cb)
          (half_open_max_calls cb) 0 (last_failure_time cb) CLOSED calls
      else
        mk_breaker (failure_threshold cb) (recovery_timeout cb)
          (half_open_max_calls cb) (failure_count cb) (last_failure_time cb)
          HALF_OPEN calls
  | _ =>
      mk_breaker (failure_threshold cb) (recovery_timeout cb)
        (half_open_max_calls cb) 0 (last_failure_time cb) (state cb)
        (half_open_calls cb)
  end.

(** [record_failure()]. *)
Definition record_failure (cb : CircuitBreaker) (now : R) : CircuitBreaker :=
  let count := (failure_count cb + 1)%Z in
  let st := if (failure_threshold cb <=? count)%Z then OPEN else state cb in
  mk_breaker (failure_threshold cb) (recovery_timeout cb) (half_open_max_calls cb)
    count (Some now) st (half_open_calls cb).

(** [get_state()]. *)
Definition get_state (cb : CircuitBreaker) : string := state_value (state cb).

(** The breakers a program can reach from [new_breaker ...] by calling the
    three methods, at any instants. *)
Inductive reachable (cb0 : CircuitBreaker) : CircuitBreaker -> Prop :=
  | reach_init : reachable cb0 cb0
  | reach_can_execute cb now :
      reachable cb0 cb -> reachable cb0 (snd (can_execute cb now))
  | reach_success cb : reachable cb0 cb -> reachable cb0 (record_success cb)
  | reach_failure cb now : reachable cb0 cb -> reachable cb0 (record_failure cb now).

End Circuit.

Module Retry.

(** What [retry_with_backoff] ends with: the value [func] returned, or
    [raise last_exception] ([None] when no attempt ran: [raise None],
    a [TypeError]). *)
Inductive retry_outcome (E A : Type) :=
  | Returned (a : A)
  | Raised (last_exception : option E).

Arguments Returned {E A} a.
Arguments Raised {E A} last_exception.

Section Retry.

Context {E A : Type}.
(** The outcome of the [attempt]-th call of [func]: the exception it
    raised or the value it returned. *)
Variable func : nat -> E + A.
(** The successive values of [random.random()]. *)
Variable random : nat -> R.
Variables (max_retries : Z) (base_delay max_delay exponential_base : R) (jitter : bool).

(** [delay = min(base_delay * (exponential_base ** attempt), max_delay)],
    times [0.75 + random.random() * 0.5] under [jitter]. *)
Definition backoff_delay (attempt : nat) : R :=
  let delay := Rmin (base_delay * exponential_base ^ attempt) max_delay in
  if jitter then delay * (0.75 + random attempt * 0.5) else delay.

(** The loop [for attempt in range(max_retries + 1)], from [attempt] with
    [remaining] iterations left; returns the outcome and the delays passed
    to [asyncio.sleep], in order. *)
Fixpoint retry_loop (remaining attempt : nat) (last_exception : option E)
    : retry_outcome E A * list R :=
  match remaining with
  | O => (Raised last_exception, [])
  | S remaining' =>
      match func attempt with
      | inr a => (Returned a, [])
      | inl e =>
          if Z.eqb (Z.of_nat attempt) max_retries then (Raised (Some e), [])
          else
            let '(res, sleeps) := retry_loop remaining' (S attempt) (Some e) in
            (res, backoff_delay attempt :: sleeps)
      end
  end.

(** [retry_with_backoff(func, max_retries, base_delay, max_delay,
    exponential_base, jitter)]. *)
Definition retry_with_backoff : retry_outcome E A * list R :=
  retry_loop (Z.to_nat (max_retries + 1)) 0 None.

End Retry.

End Retry.

Module Geocode.

Import Circuit Retry.

(** A Python value as [response.json()] decodes it: [None], a boolean,
    an integer, a float, a string, a list, or a dict (its items, with
    distinct keys, in order). *)
Inductive pyval :=
  | PNone
  | PBool (b : bool)
  | PInt (z : Z)
  | PFloat (r : R)
  | PStr (s : string)
  | PList (l : list pyval)
  | PDict (items : list (string * pyval)).

(** [bool(v)]. *)
Definition py_truthy (v : pyval) : bool :=
  match v with
  | PNone => false
  | PBool b => b
  | PInt z => negb (Z.eqb z 0)
  | PFloat r => if Req_EM_T r 0 then false else true
  | PStr s => negb (String.eqb s "")
  | PList l => match l with [] => false | _ => true end
  | PDict items => match items with [] => false | _ => true end
  end.

(** [v[0]]; [None] when it raises ([IndexError] on an empty list or
    string, [KeyError] on a dict, [TypeError] on the other values). *)
Definition py_index0 (v : pyval) : option pyval :=
  match v with
  | PList (x :: _) => Some x
  | PStr (String c _) => Some (PStr (String c EmptyString))
  | _ => None
  end.

(** [v.get(key, default)]; [None] when it raises ([AttributeError]: only
    a dict has [get]). *)
Definition py_get (v : pyval) (key : string) (default : pyval) : option pyval :=
  match v with
  | PDict items =>
      Some (match List.find (fun kv => String.eqb (fst kv) key) items with
            | Some kv => snd kv
            | None => default
            end)
  | _ => None
  end.

Definition is_dict (v : pyval) : bool :=
  match v with PDict _ => true | _ => false end.

(** The dict [geocode_with_fallback] returns: [display_name], [lat],
    [lon], [osm_id], [fallback]. *)
Record geo_dict := mk_geo {
  g_display_name : pyval;
  g_lat : pyval;
  g_lon : pyval;
  g_osm_id : pyval;
  g_fallback : pyval
}.

(** [_fallback_to_text(location, status)]. *)
Definition fallback_to_text (location : string) (status : string) : geo_dict :=
  mk_geo (PStr location) PNone PNone PNone (PStr status).

(** One HTTP exchange with Nominatim: [client.get] raised, or a response
    with its status code and [response.json()] ([None] when decoding
    raises; it is only read on a 200). *)
Inductive http_exchange :=
  | RequestRaised
  | Response (status_code : Z) (body : option pyval).

(** [geocode_location(location)] given [HTTPX_AVAILABLE], the global
    [_last_nominatim_call], the two readings of [time.time()] (before the
    rate-limit check, after the response) and the exchange; returns the
    result, the delays slept and [_last_nominatim_call] afterwards. Every
    exception of the [try] block is caught, so it never raises. *)
Definition geocode_location (httpx_available : bool) (last_call now_start now_resp : R)
    (ex : http_exchange) : pyval * list R * R :=
  if negb httpx_available then (PNone, [], last_call)
  else
    let elapsed := now_start - last_call in
    let sleeps := if Rlt_dec elapsed 1 then [1 - elapsed] else [] in
    match ex with
    | RequestRaised => (PNone, sleeps, last_call)
    | Response status_code body =>
        let last_call' := now_resp in
        if Z.eqb status_code 200 then
          match body with
          | None => (PNone, sleeps, last_call')
          | Some results =>
              if py_truthy results then
                match py_index0 results with
                | Some r => (r, sleeps, last_call')
                | None => (PNone, sleeps, last_call')
                end
              else (PNone, sleeps, last_call')
          end
        else (PNone, sleeps, last_call')
    end.

Section Geocode.

(** [str(v)] on a float, and on a list or a dict. *)
Variable float_repr : R -> string.
Variable container_str : pyval -> string.
(** The type of the exceptions [retry_with_backoff] catches. *)
Variable exn : Type.

(** [str(v)]. *)
Definition py_str (v : pyval) : string :=
  match v with
  | PNone => "None"
  | PBool b => if b then "True" else "False"
  | PInt z => DecimalString.NilZero.string_of_int (Z.to_int z)
  | PFloat r => float_repr r
  | PStr s => s
  | PList _ | PDict _ => container_str v
  end.

(** [geocode_with_fallback(location)] on the global state
    [(nominatim_circuit, _last_nominatim_call)], with the clock read by
    [can_execute] ([now]) and by [record_failure] ([now_fail]), and for
    each attempt of the retry the clock readings of [geocode_location],
    its HTTP exchange and the draw of [random.random()]; returns the dict,
    the delays slept and the global state afterwards. [geocode_location]
    never raises, so only attempt [0] runs. *)
Definition geocode_with_fallback (st : CircuitBreaker * R) (now now_fail : R)
    (location : string) (httpx_available : bool) (clock : nat -> R * R)
    (exchanges : nat -> http_exchange) (random : nat -> R)
    : geo_dict * list R * (CircuitBreaker * R) :=
  let '(cb, last_call) := st in
  let '(ok, cb) := can_execute cb now in
  if negb ok then (fallback_to_text location "fallback", [], (cb, last_call))
  else
    let '(res, retry_sleeps) :=
      retry_with_backoff
        (fun attempt =>
           inr (geocode_location httpx_available last_call (fst (clock attempt))
                  (snd (clock attempt)) (exchanges attempt))
           : exn + (pyval * list R * R))
        random 2 1 30 2 true in
    match res with
    | Returned (result, rate_sleeps, last_call') =>
        let sleeps := rate_sleeps ++ retry_sleeps in
        if py_truthy result then
          (* [record_success()] runs before the dict is built *)
          let cb1 := record_success cb in
          match py_get result "display_name" PNone, py_get result "lat" PNone,
                py_get result "lon" PNone, py_get result "osm_id" (PStr "") with
          | Some display_name, Some lat, Some lon, Some osm_id =>
              (mk_geo display_name lat lon (PStr (py_str osm_id)) PNone,
               sleeps, (cb1, last_call'))
          | _, _, _, _ =>
              (* [result.get] raised: the [except] branch *)
              (fallback_to_text location "error", sleeps,
               (record_failure cb1 now_fail, last_call'))
          end
        else (fallback_to_text location "not_found", sleeps, (record_success cb, last_call'))
    | Raised _ =>
        (fallback_to_text location "error", retry_sleeps,
         (record_failure cb now_fail, last_call))
    end.

(** One call of [geocode_with_fallback] as the process sees it. *)
Record geocode_call := mk_call {
  call_now : R;
  call_now_fail : R;
  call_location : string;
  call_httpx_available : bool;
  call_clock : nat -> R * R;
  call_exchanges : nat -> http_exchange;
  call_random : nat -> R
}.

(** The global [(nominatim_circuit, _last_nominatim_call)] after a
    sequence of calls. *)
Definition geocode_after (st : CircuitBreaker * R) (calls : list geocode_call)
    : CircuitBreaker * R :=
  fold_left (fun st c =>
      snd (geocode_with_fallback st (call_now c) (call_now_fail c)
             (call_location c) (call_httpx_available c) (call_clock c)
             (call_exchanges c) (call_random c))) calls st.

End Geocode.

End Geocode.

(* ------------------------------------------------------------------ *)
(** ** The entry and cat endpoints *)

Module Endpoints.

Import Store Analyzers.

(** A row of the [entries] table: the columns the matching code reads
    ([entry_row]) and the others. *)
Record db_entry := mk_db {
  d_row : entry_row;
  d_isFavorite : Z;
  d_photo_url : option string;
  d_location_osm_id : option string
}.

Definition d_id (d : db_entry) : Z := e_id (d_row d).

(** A row of the [cats] table, also the [Cat] response. *)
Record cat_db := mk_cat_db { cd_id : Z; cd_name : option string; cd_createdAt : string }.

(** The [Entry] response. *)
Record entry_out := mk_out {
  o_id : Z;
  o_text : string;
  o_createdAt : string;
  o_isFavorite : bool;
  o_nickname : option string;
  o_location : option string;
  o_cat_id : option Z;
  o_photo_url : option string;
  o_location_normalized : option string;
  o_location_lat : option R;
  o_location_lon : option R;
  o_location_osm_id : option string
}.

(** [Entry(...)] built from every column of a row; [isFavorite] is
    [bool(row_get(r, "isFavorite"))]. *)
Definition entry_of (d : db_entry) : entry_out :=
  let r := d_row d in
  mk_out (e_id r) (e_text r) (e_createdAt r) (negb (Z.eqb (d_isFavorite d) 0))
    (e_nickname r) (e_location r) (e_cat_id r) (d_photo_url d)
    (e_location_normalized r) (e_location_lat r) (e_location_lon r)
    (d_location_osm_id d).

(** [ORDER BY id DESC] on a table with an integer key. *)
Section OrderBy.
Context {A : Type} (id : A -> Z).

Fixpoint insert_by_id_desc (r : A) (l : list A) : list A :=
  match l with
  | [] => [r]
  | x :: l' => if Z.leb (id x) (id r) then r :: l else x :: insert_by_id_desc r l'
  end.

Definition order_by_desc (l : list A) : list A := fold_right insert_by_id_desc [] l.

End OrderBy.

(** [SELECT ... FROM entries WHERE id = ?] and [fetchone()]. *)
Definition select_db (entries : list db_entry) (id : Z) : option db_entry :=
  List.find (fun d => Z.eqb (d_id d) id) entries.

(** [SELECT ... FROM cats WHERE id = ?] and [fetchone()]. *)
Definition find_cat (cats : list cat_db) (id : Z) : option cat_db :=
  List.find (fun c => Z.eqb (cd_id c) id) cats.

(** [UPDATE entries SET ... WHERE id = ?]. *)
Definition update_entries (id : Z) (f : db_entry -> db_entry) (entries : list db_entry)
    : list db_entry :=
  map (fun d => if Z.eqb (d_id d) id then f d else d) entries.

Definition with_cat_id (r : entry_row) (cat_id : option Z) : entry_row :=
  mk_entry (e_id r) (e_text r) (e_createdAt r) (e_nickname r) (e_location r)
    (e_location_normalized r) (e_location_lat r) (e_location_lon r) cat_id.

(** [SET cat_id = ?]. *)
Definition set_cat (cat_id : Z) (d : db_entry) : db_entry :=
  mk_db (with_cat_id (d_row d) (Some cat_id)) (d_isFavorite d) (d_photo_url d)
    (d_location_osm_id d).

(** [SET isFavorite = ?]. *)
Definition set_favorite (fav : Z) (d : db_entry) : db_entry :=
  mk_db (d_row d) fav (d_photo_url d) (d_location_osm_id d).

(** [s.strip() if s and s.strip() else None]. *)
Definition opt_strip (s : option string) : option string :=
  match s with
  | Some s => if String.eqb (strip s) "" then None else Some (strip s)
  | None => None
  end.

(** [get_entries()]. *)
Definition get_entries (entries : list db_entry) : list entry_out :=
  map entry_of (order_by_desc d_id entries).

(** [list_cats()]. *)
Definition list_cats (cats : list cat_db) : list cat_db := order_by_desc cd_id cats.

(** [create_cat(payload)], with [now] the timestamp and [new_id] the id the
    database assigns ([lastrowid] / [RETURNING id]). *)
Definition create_cat (cats : list cat_db) (name : option string) (now : string)
    (new_id : Z) : cat_db * list cat_db :=
  let c := mk_cat_db new_id (opt_strip name) now in
  (c, cats ++ [c]).

(** [create_entry(payload)]. *)
Definition create_entry (entries : list db_entry) (text : string)
    (nickname location photo_url : option string) (now : string) (new_id : Z)
    : (error + entry_out) * list db_entry :=
  let text := strip text in
  if String.eqb text "" then (inl InvalidState, entries)
  else
    let nickname := opt_strip nickname in
    let location := opt_strip location in
    let photo_url := opt_strip photo_url in
    let row := mk_db (mk_entry new_id text now nickname location None None None None)
                 0 photo_url None in
    (inr (mk_out new_id text now false nickname location None photo_url None None None None),
     entries ++ [row]).

(** [toggle_favorite(entry_id)]; the response carries only the columns the
    endpoint selects, the others are [None]. *)
Definition toggle_favorite (entries : list db_entry) (entry_id : Z)
    : (error + entry_out) * list db_entry :=
  match select_db entries entry_id with
  | None => (inl NotFound, entries)
  | Some row =>
      let new_fav := if negb (Z.eqb (d_isFavorite row) 0) then 0%Z else 1%Z in
      let entries' := update_entries entry_id (set_favorite new_fav) entries in
      let r := d_row row in
      (inr (mk_out (e_id r) (e_text r) (e_createdAt r) (negb (Z.eqb new_fav 0))
              (e_nickname r) (e_location r) None None None None None None),
       entries')
  end.

(** [assign_entry_to_cat(entry_id, cat_id)]; the final [SELECT] always
    finds the row just updated (its [None] case is unreachable). *)
Definition assign_entry_to_cat (cats : list cat_db) (entries : list db_entry)
    (entry_id cat_id : Z) : (error + entry_out) * list db_entry :=
  match find_cat cats cat_id with
  | None => (inl NotFound, entries)
  | Some _ =>
      match select_db entries entry_id with
      | None => (inl NotFound, entries)
      | Some _ =>
          let entries' := update_entries entry_id (set_cat cat_id) entries in
          match select_db entries' entry_id with
          | Some updated => (inr (entry_of updated), entries')
          | None => (inl NotFound, entries')
          end
      end
  end.

(** [LinkSightingsResponse]. *)
Record link_response := mk_link {
  l_cat_id : Z;
  l_linked_count : Z;
  l_already_linked : list Z;
  l_newly_linked : list Z;
  l_failed : list Z
}.

(** [entry["cat_id"] == cat_id]. *)
Definition linked_to (cat_id : Z) (d : db_entry) : bool :=
  match e_cat_id (d_row d) with Some c => Z.eqb c cat_id | None => false end.

(** The loop of [link_sightings_to_cat] over [payload.entry_ids]: the
    table and the three lists [already_linked], [newly_linked], [failed]. *)
Fixpoint link_loop (cat_id : Z) (ids : list Z) (entries : list db_entry)
    (already newly failed : list Z) : list db_entry * list Z * list Z * list Z :=
  match ids with
  | [] => (entries, already, newly, failed)
  | entry_id :: rest =>
      match select_db entries entry_id with
      | None => link_loop cat_id rest entries already newly (failed ++ [entry_id])
      | Some entry =>
          if linked_to cat_id entry then
            link_loop cat_id rest entries (already ++ [entry_id]) newly failed
          else
            link_loop cat_id rest (update_entries entry_id (set_cat cat_id) entries)
              already (newly ++ [entry_id]) failed
      end
  end.

(** [link_sightings_to_cat(cat_id, payload)]. *)
Definition link_sightings_to_cat (cats : list cat_db) (entries : list db_entry)
    (cat_id : Z) (entry_ids : list Z) : (error + link_response) * list db_entry :=
  match find_cat cats cat_id with
  | None => (inl NotFound, entries)
  | Some _ =>
      let '(entries', already, newly, failed) := link_loop cat_id entry_ids entries [] [] [] in
      (inr (mk_link cat_id (Z.of_nat (length newly + length already)) already newly failed),
       entries')
  end.

(** [create_cat_from_sightings(payload)]: the new cat, the [cats] table and
    the [entries] table afterwards. *)
Definition create_cat_from_sightings (cats : list cat_db) (entries : list db_entry)
    (entry_ids : list Z) (name : option string) (now : string) (new_cat_id : Z)
    : cat_db * list cat_db * list db_entry :=
  let c := mk_cat_db new_cat_id (opt_strip name) now in
  let entries' :=
    fold_left (fun es entry_id =>
        match select_db es entry_id with
        | Some _ => update_entries entry_id (set_cat new_cat_id) es
        | None => es
        end) entry_ids entries in
  (c, cats ++ [c], entries').

Section EntryAnalysis.

Variable tags_from_json : string -> list string.

(** [get_entry_analysis(entry_id)]. *)
Definition get_entry_analysis (analyses : list Cache.analysis_row) (entry_id : Z)
    : error + Cache.entry_analysis :=
  match Cache.select_analysis analyses entry_id with
  | None => inl NotFound
  | Some row =>
      inr (Cache.mk_entry_analysis (Cache.a_entry_id row) (Cache.a_summary row)
             (tags_from_json (Cache.a_tags_json row)) (Cache.a_sentiment row)
             (Cache.a_updatedAt row))
  end.

End EntryAnalysis.

(** [str(n)] of a Python [int]. *)
Definition str_of_int (z : Z) : string := DecimalString.NilZero.string_of_int (Z.to_int z).

(** ["\n"]. *)
Definition NEWLINE : string := String (ascii_of_nat 10) EmptyString.

(** [SELECT id, text, location FROM entries WHERE cat_id = ? ORDER BY id DESC]. *)
Definition cat_sightings (entries : list db_entry) (cat_id : Z) : list entry_row :=
  order_by_id_desc
    (List.filter (fun r => match e_cat_id r with Some c => Z.eqb c cat_id | None => false end)
       (map d_row entries)).

(** [list(dict.fromkeys(xs))]: the distinct elements in first-occurrence order. *)
Definition dict_fromkeys (xs : list string) : list string :=
  fold_left (fun acc x => if existsb (String.eqb x) acc then acc else acc ++ [x]) xs [].

(** The temperament wording of a sentiment. *)
Definition temperament_of (sentiment : string) : string :=
  if String.eqb sentiment "positive" then "friendly"
  else if String.eqb sentiment "negative" then "defensive / cautious"
  else "unknown / neutral".

(** ["\n".join([s["text"] for s in sightings if s["text"]])]. *)
Definition notes_of (sightings : list entry_row) : string :=
  Text.py_join NEWLINE (List.filter (fun t => negb (String.eqb t "")) (map e_text sightings)).

(** [CatProfile]. *)
Record cat_profile_out := mk_profile {
  p_cat_id : Z;
  p_name : option string;
  p_sightings_count : Z;
  p_locations : list string;
  p_top_tags : list string;
  p_temperament_guess : string;
  p_profile_text : ustring
}.

(** [cat_profile(cat_id)]. *)
Definition cat_profile (cats : list cat_db) (entries : list db_entry) (cat_id : Z)
    : error + cat_profile_out :=
  match find_cat cats cat_id with
  | None => inl NotFound
  | Some cat =>
      let sightings := cat_sightings entries cat_id in
      let sightings_count := Z.of_nat (length sightings) in
      if Z.eqb sightings_count 0 then
        inr (mk_profile cat_id (cd_name cat) 0 [] [] "unknown"
               (ustr "No sightings assigned yet. Assign sightings to build a profile."))
      else
        let all_text := notes_of sightings in
        let tags := baseline_tags all_text 8 in
        let locs := flat_map (fun s => match e_location s with
                                       | Some l => if String.eqb l "" then [] else [l]
                                       | None => []
                                       end) sightings in
        let unique_locations := Py.slice_upto (dict_fromkeys locs) 5 in
        let temperament_guess := temperament_of (baseline_sentiment all_text) in
        let summary := baseline_summary all_text 220 in
        let name := match cd_name cat with
                    | Some n => if String.eqb n "" then ("Cat #" ++ str_of_int cat_id)%string else n
                    | None => ("Cat #" ++ str_of_int cat_id)%string
                    end in
        let location_hint := match unique_locations with l :: _ => l | [] => "unknown area" end in
        let tags_text := match tags with [] => "none yet" | _ => Text.py_join ", " tags end in
        let profile_text :=
          ustr (name ++ " is a community-tracked street cat most often seen around "
                ++ location_hint ++ ". "
                ++ "Based on " ++ str_of_int sightings_count
                ++ " sighting(s), the current temperament guess is '"
                ++ temperament_guess ++ "'. "
                ++ "Common tags from notes: " ++ tags_text ++ ". "
                ++ "Summary of recent notes: ")%string ++ summary in
        inr (mk_profile cat_id (cd_name cat) sightings_count unique_locations tags
               temperament_guess profile_text)
  end.

End Endpoints.

(* ------------------------------------------------------------------ *)
(** ** [normalize_entry_location] *)

Module Normalize.

Import Store Endpoints Circuit Geocode.

(** [LocationNormalizationResult]. *)
Record norm_result := mk_norm {
  n_entry_id : Z;
  n_original_location : string;
  n_normalized_location : option string;
  n_latitude : option R;
  n_longitude : option R;
  n_osm_id : option string;
  n_status : string;
  n_message : option string
}.

(** The 404, and the exceptions the endpoint does not catch: a [float()]
    that raises, an [UPDATE] parameter SQLite cannot bind, a response
    model that fails validation. *)
Inductive norm_error := NormNotFound | NormServerError.

(** Truthiness of an optional [str] / [float] column. *)
Definition truthy_str (s : option string) : bool :=
  match s with Some s => negb (String.eqb s "") | None => false end.

Definition truthy_float (x : option R) : bool :=
  match x with Some x => if Req_EM_T x 0 then false else true | None => false end.

(** [SET location_normalized = ?, location_lat = ?, location_lon = ?,
    location_osm_id = ?]. *)
Definition set_normalized (normalized : option string) (lat lon : R)
    (osm_id : option string) (d : db_entry) : db_entry :=
  let r := d_row d in
  mk_db (mk_entry (e_id r) (e_text r) (e_createdAt r) (e_nickname r) (e_location r)
           normalized (Some lat) (Some lon) (e_cat_id r))
    (d_isFavorite d) (d_photo_url d) osm_id.

Section Normalize.

Variable float_repr : R -> string.
Variable container_str : pyval -> string.
Variable exn : Type.
(** [float(s)] on a [str]: [None] when it raises [ValueError]. *)
Variable parse_float : string -> option R.
(** The text SQLite stores for a REAL bound to a [TEXT] column. *)
Variable sqlite_real_text : R -> string.
(** Pydantic's validation of a [str] field on a value that is neither a
    [str] nor [None] ([None] when it rejects it). *)
Variable coerce_str : pyval -> option string.

(** [float(v)]; [None] when it raises. *)
Definition py_float (v : pyval) : option R :=
  match v with
  | PBool b => Some (if b then 1 else 0)
  | PInt z => Some (IZR z)
  | PFloat r => Some r
  | PStr s => parse_float s
  | PNone | PList _ | PDict _ => None
  end.

(** The value of a [TEXT] column after binding [v] as a parameter:
    [None] when binding raises (a list, a dict, an integer out of 64-bit
    range). *)
Definition sql_text (v : pyval) : option (option string) :=
  match v with
  | PNone => Some None
  | PBool b => Some (Some (if b then "1" else "0"))
  | PInt z =>
      if ((- 2 ^ 63 <=? z) && (z <? 2 ^ 63))%Z
      then Some (Some (DecimalString.NilZero.string_of_int (Z.to_int z))) else None
  | PFloat r => Some (Some (sqlite_real_text r))
  | PStr s => Some (Some s)
  | PList _ | PDict _ => None
  end.

(** Validation of an [Optional[str]] and of a [str] field. *)
Definition validate_opt_str (v : pyval) : option (option string) :=
  match v with
  | PNone => Some None
  | PStr s => Some (Some s)
  | _ => option_map Some (coerce_str v)
  end.

Definition validate_str (v : pyval) : option string :=
  match v with
  | PNone => None
  | PStr s => Some s
  | _ => coerce_str v
  end.

(** [normalize_entry_location(entry_id, force)], on the [entries] table and
    the global state of the geocoder, with the environment of the geocoding
    call; returns the response, the table and the geocoder state
    afterwards. *)
Definition normalize_entry_location (entries : list db_entry) (entry_id : Z)
    (force : bool) (st : CircuitBreaker * R) (now now_fail : R) (httpx_available : bool)
    (clock : nat -> R * R) (exchanges : nat -> http_exchange) (random : nat -> R)
    : (norm_error + norm_result) * list db_entry * (CircuitBreaker * R) :=
  match select_db entries entry_id with
  | None => (inl NormNotFound, entries, st)
  | Some row =>
      let r := d_row row in
      let no_location :=
        (inr (mk_norm entry_id "" None None None None "no_location"
                (Some "Entry has no location to normalize")), entries, st) in
      match e_location r with
      | None => no_location
      | Some original_location =>
          if String.eqb original_location "" then no_location
          else if negb force && truthy_str (e_location_normalized r)
                  && truthy_float (e_location_lat r) then
            (inr (mk_norm entry_id original_location (e_location_normalized r)
                    (e_location_lat r) (e_location_lon r) (d_location_osm_id row)
                    "already_normalized"
                    (Some "Location already normalized. Use force=true to re-normalize.")),
             entries, st)
          else
            let '(geo, _, st') :=
              geocode_with_fallback float_repr container_str exn st now now_fail
                original_location httpx_available clock exchanges random in
            if py_truthy (g_lat geo) && py_truthy (g_lon geo) then
              match py_float (g_lat geo), py_float (g_lon geo) with
              | Some lat, Some lon =>
                  match sql_text (g_display_name geo), sql_text (g_osm_id geo) with
                  | Some name_col, Some osm_col =>
                      (* committed before the response is validated *)
                      let entries' :=
                        update_entries entry_id (set_normalized name_col lat lon osm_col)
                          entries in
                      match validate_opt_str (g_display_name geo),
                            validate_opt_str (g_osm_id geo) with
                      | Some normalized, Some osm_id =>
                          (inr (mk_norm entry_id original_location normalized
                                  (Some lat) (Some lon) osm_id "success"
                                  (Some "Location normalized successfully")),
                           entries', st')
                      | _, _ => (inl NormServerError, entries', st')
                      end
                  | _, _ => (inl NormServerError, entries, st')
                  end
              | _, _ => (inl NormServerError, entries, st')
              end
            else
              (* [geo_result.get("fallback", "error")]: the key is always there *)
              let fallback_status := g_fallback geo in
              match validate_opt_str (g_display_name geo), validate_str fallback_status with
              | Some normalized, Some status =>
                  (inr (mk_norm entry_id original_location normalized None None None status
                          (Some ("Could not geocode location: "
                                 ++ py_str float_repr container_str fallback_status)%string)),
                   entries, st')
              | _, _ => (inl NormServerError, entries, st')
              end
      end
  end.

End Normalize.

End Normalize.

(* ------------------------------------------------------------------ *)
(** ** Cat insights: [retrieve_cat_sightings], [generate_cat_insight_stub],
    [cat_insights] *)

Module Insights.

Import Store Analyzers Endpoints.

Definition PROMPT_VERSION : string := "v1".

(** [retrieve_cat_sightings(cur, cat_id, limit)]: [WHERE cat_id = ?
    ORDER BY id DESC LIMIT ?] (SQLite: a negative limit is no limit). *)
Definition retrieve_cat_sightings (entries : list db_entry) (cat_id limit : Z)
    : list entry_row :=
  let rows := cat_sightings entries cat_id in
  if (limit <? 0)%Z then rows else take (Z.to_nat limit) rows.

(** [Citation]. *)
Record citation := mk_citation {
  ci_entry_id : Z;
  ci_quote : ustring;
  ci_location : option string;
  ci_createdAt : string
}.

(** [CatInsightResponse]. *)
Record insight := mk_insight {
  in_cat_id : Z;
  in_mode : string;
  in_prompt_version : string;
  in_confidence : R;
  in_headline : ustring;
  in_summary : ustring;
  in_flags : list string;
  in_suggested_actions : list string;
  in_citations : list citation;
  in_generatedAt : string
}.

(** [kw in s] on strings: [kw] occurs in [s]. *)
Fixpoint contains (kw s : string) : bool :=
  String.prefix kw s || match s with EmptyString => false | String _ r => contains kw r end.

Definition FLAG_KEYWORDS : list (string * string) :=
  [("limp", "possible injury (limping mentioned)");
   ("blood", "possible injury (blood mentioned)");
   ("wound", "possible injury (wound mentioned)");
   ("thin", "possible malnutrition (thin mentioned)");
   ("cough", "possible respiratory issue (cough mentioned)");
   ("sneeze", "possible respiratory issue (sneezing mentioned)");
   ("aggressive", "behavior risk (aggressive mentioned)");
   ("hiss", "behavior risk (hissing mentioned)")].

(** The suggested actions of each mode ([profile] is the default). *)
Definition actions_for (mode : string) : list string :=
  if String.eqb mode "care" then
    ["Approach slowly and keep distance; let the cat initiate contact.";
     "Avoid cornering; use calm voice and minimal movement.";
     "If you suspect injury/illness, document symptoms and contact a local rescue/TNR group.";
     "Leave food/water only if safe and allowed in the area."]
  else if String.eqb mode "risk" then
    ["Treat this as a suggestion, not a diagnosis.";
     "If repeated sightings show injury/illness, escalate to experienced volunteers.";
     "Capture clear notes and (if possible) a photo for better assessment."]
  else if String.eqb mode "update" then
    ["Post a short update with location guidance (without encouraging unsafe interactions).";
     "Ask the community for additional sightings at similar times/places."]
  else
    ["Collect consistent notes about coat pattern, tail, ear marks, and behavior.";
     "Try to observe at similar times to learn routine."].

(** [str.isspace()] on a code point. *)
Definition is_space_cp (c : Z) : bool :=
  ((9 <=? c) && (c <=? 13))%Z || ((28 <=? c) && (c <=? 32))%Z
  || (c =? 133)%Z || (c =? 160)%Z || (c =? 5760)%Z
  || ((8192 <=? c) && (c <=? 8202))%Z || (c =? 8232)%Z || (c =? 8233)%Z
  || (c =? 8239)%Z || (c =? 8287)%Z || (c =? 12288)%Z.

(** [str.strip()] on a string of code points. *)
Fixpoint ulstrip (s : ustring) : ustring :=
  match s with
  | [] => []
  | c :: r => if is_space_cp c then ulstrip r else s
  end.

Definition ustrip (s : ustring) : ustring := rev (ulstrip (rev (ulstrip s))).

(** The confidence before rounding:
    [min(0.85, 0.35 + 0.08 * len(sightings))], [0.4] below two sightings. *)
Definition insight_confidence (n : nat) : R :=
  let confidence := Rmin 0.85 (0.35 + 0.08 * INR n) in
  if (n <? 2)%nat then 0.4 else confidence.

(** [generate_cat_insight_stub(cat_id, mode, sightings, question)], with
    [now] the timestamp it reads. *)
Definition generate_cat_insight_stub (cat_id : Z) (mode : string)
    (sightings : list entry_row) (question : option string) (now : string) : insight :=
  let notes_blob := notes_of sightings in
  let tags := baseline_tags notes_blob 8 in
  let temperament := temperament_of (baseline_sentiment notes_blob) in
  let lower := Text.str_lower notes_blob in
  let flags := flat_map (fun '(kw, flag) => if contains kw lower then [flag] else [])
                 FLAG_KEYWORDS in
  let actions := actions_for mode in
  (* f"Cat #{cat_id} — {temperament}" *)
  let headline := ustr ("Cat #" ++ str_of_int cat_id)%string ++ [32; 8212; 32]%Z
                  ++ ustr temperament in
  let tags_text := match tags with [] => "none yet" | _ => Text.py_join ", " tags end in
  let summary :=
    ustr ("Based on " ++ str_of_int (Z.of_nat (length sightings))
          ++ " sighting(s), this cat is currently described as '" ++ temperament ++ "'. "
          ++ "Common tags from notes: " ++ tags_text ++ ". ")%string in
  (* f"Question noted: “{question}”. " *)
  let summary :=
    match question with
    | Some q =>
        if String.eqb q "" then summary
        else summary ++ ustr "Question noted: " ++ [8220%Z] ++ ustr q ++ [8221%Z] ++ ustr ". "
    | None => summary
    end in
  let confidence := insight_confidence (length sightings) in
  let citations :=
    map (fun s => mk_citation (e_id s) (excerpt (e_text s) 120) (e_location s) (e_createdAt s))
      (take 5 sightings) in
  mk_insight cat_id mode PROMPT_VERSION (Py.py_round confidence 2) headline
    (ustrip summary) (take 8 flags) (take 8 actions) citations now.

(** A row of the [cat_insights] table. *)
Record insight_row := mk_insight_row {
  ir_cat_id : Z;
  ir_mode : string;
  ir_prompt_version : string;
  ir_context_hash : string;
  ir_insight_json : string;
  ir_createdAt : string;
  ir_updatedAt : string
}.

Definition VALID_MODES : list string := ["profile"; "care"; "update"; "risk"].

(** [f"id={s['id']} createdAt={...} location={s['location'] or ''}\ntext={s['text']}"]. *)
Definition context_part (s : entry_row) : string :=
  ("id=" ++ str_of_int (e_id s) ++ " createdAt=" ++ e_createdAt s ++ " location="
   ++ or_empty (e_location s) ++ NEWLINE ++ "text=" ++ e_text s)%string.

Section CatInsights.

Variable sha256_hex : string -> string.
(** [insight.model_dump_json()], and the [CatInsightResponse] built from
    [json.loads(s)]. *)
Variable insight_to_json : insight -> string.
Variable insight_from_json : string -> insight.

(** [SELECT insight_json FROM cat_insights WHERE cat_id = ? AND mode = ?
    AND prompt_version = ? AND context_hash = ?]. *)
Definition select_insight (table : list insight_row) (cat_id : Z) (mode hash : string)
    : option insight_row :=
  List.find (fun r => Z.eqb (ir_cat_id r) cat_id && String.eqb (ir_mode r) mode
                      && String.eqb (ir_prompt_version r) PROMPT_VERSION
                      && String.eqb (ir_context_hash r) hash) table.

(** [cat_insights(cat_id, payload)], with the timestamps read by the
    generator ([gen_now]) and by the endpoint ([now]); returns the
    response and the [cat_insights] table afterwards. *)
Definition cat_insights (cats : list cat_db) (entries : list db_entry)
    (table : list insight_row) (cat_id : Z) (payload_mode : string)
    (question : option string) (gen_now now : string)
    : (error + insight) * list insight_row :=
  let mode := Text.str_lower (strip payload_mode) in
  if negb (existsb (String.eqb mode) VALID_MODES) then (inl InvalidState, table)
  else
    match find_cat cats cat_id with
    | None => (inl NotFound, table)
    | Some _ =>
        let sightings := retrieve_cat_sightings entries cat_id 10 in
        match sightings with
        | [] => (inl InvalidState, table)
        | _ =>
            let context_hash :=
              Cache.make_context_hash sha256_hex (map context_part sightings) in
            match select_insight table cat_id mode context_hash with
            | Some row => (inr (insight_from_json (ir_insight_json row)), table)
            | None =>
                let ins := generate_cat_insight_stub cat_id mode sightings question gen_now in
                (inr ins,
                 table ++ [mk_insight_row cat_id mode PROMPT_VERSION context_hash
                             (insight_to_json ins) now now])
            end
        end
    end.

End CatInsights.

End Insights.

(* ================================================================== *)
(** * Properties *)

Module SimilarityFacts.

Import Similarity.

Lemma size_ne_0 (a : gset string) : a ≠ ∅ -> INR (size a) <> 0.
Proof.
  intros Ha. apply not_0_INR. intros Hs.
  apply Ha. apply (leibniz_equiv (A:=gset string)). by apply size_empty_inv.
Qed.

Lemma jaccard_nonempty_union (a b : gset string) :
  a ∪ b ≠ ∅ -> jaccard_similarity a b = INR (size (a ∩ b)) / INR (size (a ∪ b)).
Proof.
  intros Hu. unfold jaccard_similarity.
  destruct (bool_decide (a = ∅)) eqn:Ea, (bool_decide (b = ∅)) eqn:Eb; simpl;
    try (rewrite bool_decide_eq_false_2 by exact Hu; reflexivity).
  apply bool_decide_eq_true in Ea, Eb. subst. exfalso. apply Hu. set_solver.
Qed.

Lemma jaccard_empty_empty : jaccard_similarity ∅ ∅ = 0.
Proof. unfold jaccard_similarity. rewrite bool_decide_eq_true_2 by done. reflexivity. Qed.

Lemma jaccard_comm (a b : gset string) :
  jaccard_similarity a b = jaccard_similarity b a.
Proof.
  unfold jaccard_similarity.
  rewrite andb_comm, (union_comm_L a b), (intersection_comm_L a b). reflexivity.
Qed.

Lemma jaccard_self (a : gset string) : a ≠ ∅ -> jaccard_similarity a a = 1.
Proof.
  intros Ha. rewrite jaccard_nonempty_union.
  2:{ rewrite (union_idemp_L (C:=gset string)). exact Ha. }
  rewrite (union_idemp_L (C:=gset string)), (intersection_idemp_L (C:=gset string)).
  unfold Rdiv. apply Rinv_r. by apply size_ne_0.
Qed.

(** Claim C8: [jaccard_similarity] is [|A ∩ B| / |A ∪ B|] when the union
    is non-empty, exactly [0] on two empty sets, symmetric, and [1] on
    [A, A] for a non-empty [A]. *)
Theorem jaccard_similarity_spec :
  (forall a b : gset string,
      a ∪ b ≠ ∅ -> jaccard_similarity a b = INR (size (a ∩ b)) / INR (size (a ∪ b))) /\
  jaccard_similarity ∅ ∅ = 0 /\
  (forall a b : gset string, jaccard_similarity a b = jaccard_similarity b a) /\
  (forall a : gset string, a ≠ ∅ -> jaccard_similarity a a = 1).
Proof.
  split; [exact jaccard_nonempty_union|].
  split; [exact jaccard_empty_empty|].
  split; [exact jaccard_comm | exact jaccard_self].
Qed.

End SimilarityFacts.

Module ScorerFacts.

Import Similarity Scorer SimilarityFacts.

Lemma div_nonneg (x y : R) : 0 <= x -> 0 < y -> 0 <= x / y.
Proof.
  intros Hx Hy. unfold Rdiv. apply Rmult_le_pos; [exact Hx|].
  apply Rlt_le, Rinv_0_lt_compat, Hy.
Qed.

Lemma jaccard_bounds (a b : gset string) :
  0 <= jaccard_similarity a b <= 1.
Proof.
  destruct (decide (a ∪ b = ∅)) as [Hu|Hu].
  - unfold jaccard_similarity. rewrite (bool_decide_eq_true_2 (a ∪ b = ∅)) by exact Hu.
    destruct (_ && _); lra.
  - rewrite jaccard_nonempty_union by exact Hu.
    pose proof (size_ne_0 _ Hu) as Hnz.
    pose proof (pos_INR (size (a ∩ b))) as Hi.
    assert (Hle : INR (size (a ∩ b)) <= INR (size (a ∪ b))).
    { apply le_INR. apply subseteq_size. set_solver. }
    assert (Hpos : 0 < INR (size (a ∪ b))) by (pose proof (pos_INR (size (a ∪ b))); lra).
    split.
    + apply div_nonneg; lra.
    + apply (Rmult_le_reg_r (INR (size (a ∪ b)))); [exact Hpos|].
      unfold Rdiv. rewrite Rmult_assoc, Rinv_l by lra. lra.
Qed.

Lemma asin_sqrt_nonneg (x : R) : 0 <= asin (sqrt x).
Proof.
  pose proof (sqrt_pos x) as Hs. pose proof PI_RGT_0 as Hpi.
  unfold asin.
  destruct (Rle_dec (sqrt x) (-1)); [lra|].
  destruct (Rle_dec 1 (sqrt x)); [lra|].
  set (y := sqrt (1 - (sqrt x)²)).
  assert (Hq : 0 <= sqrt x / y).
  { destruct (Req_dec y 0) as [Hy|Hy].
    - rewrite Hy. unfold Rdiv. rewrite Rinv_0. lra.
    - apply div_nonneg; [lra|]. pose proof (sqrt_pos (1 - (sqrt x)²)). unfold y in *. lra. }
  destruct (Req_dec (sqrt x / y) 0) as [Hz|Hz].
  - rewrite Hz, atan_0. lra.
  - pose proof (atan_increasing 0 (sqrt x / y)) as Hinc. rewrite atan_0 in Hinc. lra.
Qed.

(** [haversine_distance] is never negative. *)
Lemma haversine_nonneg (lat1 lon1 lat2 lon2 : R) :
  0 <= haversine_distance lat1 lon1 lat2 lon2.
Proof.
  unfold haversine_distance, EARTH_RADIUS.
  pose proof (asin_sqrt_nonneg
    ((sin ((radians lat2 - radians lat1) / 2)) ^ 2 +
     cos (radians lat1) * cos (radians lat2) *
     (sin ((radians lon2 - radians lon1) / 2)) ^ 2)). lra.
Qed.

(** Claim C1: with all four coordinates the score is the 50/50 mix of
    text similarity and the linear distance score ([max(0, 1 - d/1000)]
    below 1000 m, else 0); with any coordinate missing it is the 70/30 mix
    of text similarity and the Jaccard similarity of the tokenized
    location strings (0 unless both are non-empty). *)
Theorem compute_match_score_weighting
    (base_text base_location cand_text cand_location : string)
    (base_lat base_lon cand_lat cand_lon : option R) :
  let text_sim := jaccard_similarity (Text.tokenize_keywords base_text)
                                     (Text.tokenize_keywords cand_text) in
  let score := fst (compute_match_score base_text base_location cand_text
                      cand_location base_lat base_lon cand_lat cand_lon) in
  (forall blat blon clat clon : R,
     base_lat = Some blat -> base_lon = Some blon ->
     cand_lat = Some clat -> cand_lon = Some clon ->
     let distance := haversine_distance blat blon clat clon in
     let loc_score := if Rlt_dec distance 1000 then Rmax 0 (1 - distance / 1000) else 0 in
     score = 0.5 * text_sim + 0.5 * loc_score) /\
  ((base_lat = None \/ base_lon = None \/ cand_lat = None \/ cand_lon = None) ->
     let loc_score :=
       if negb (String.eqb base_location "") && negb (String.eqb cand_location "")
       then jaccard_similarity (Text.tokenize_keywords base_location)
                               (Text.tokenize_keywords cand_location)
       else 0 in
     score = 0.7 * text_sim + 0.3 * loc_score).
Proof.
  intros text_sim score. subst text_sim score. split.
  - intros blat blon clat clon -> -> -> ->. cbv zeta.
    unfold compute_match_score. cbv zeta.
    destruct (Rlt_dec 0 _), (Rlt_dec (haversine_distance blat blon clat clon) 1000);
      reflexivity.
  - intros Hnone. cbv zeta. unfold compute_match_score. cbv zeta.
    assert (Hgen : forall (T : Type) (k1 : R -> R -> R -> R -> T) (k2 : T),
              match base_lat, base_lon, cand_lat, cand_lon with
              | Some a, Some b, Some c, Some d => k1 a b c d
              | _, _, _, _ => k2 end = k2).
    { intros T k1 k2.
      destruct base_lat, base_lon, cand_lat, cand_lon; try reflexivity.
      destruct Hnone as [H|[H|[H|H]]]; discriminate H. }
    rewrite Hgen. unfold truthy, location_similarity.
    destruct (Rlt_dec 0 _), (_ && _); try destruct (Rlt_dec 0 _); reflexivity.
Qed.

(** Claim C9: the reasons list of [compute_match_score] is never empty,
    and ["low similarity"] occurs in it only as the single fallback
    reason when no other reason was appended. *)
Theorem compute_match_score_reasons_nonempty
    (base_text base_location cand_text cand_location : string)
    (base_lat base_lon cand_lat cand_lon : option R) :
  let reasons := snd (compute_match_score base_text base_location cand_text
                        cand_location base_lat base_lon cand_lat cand_lon) in
  (1 <= length reasons)%nat /\
  (In LowSimilarity reasons -> reasons = [LowSimilarity]).
Proof.
  intros reasons. subst reasons. unfold compute_match_score. cbv zeta.
  destruct (Rlt_dec 0 _);
  destruct base_lat, base_lon, cand_lat, cand_lon;
  repeat match goal with
         | |- context [Rlt_dec ?a ?b] => destruct (Rlt_dec a b)
         | |- context [if ?c then _ else _] =>
             lazymatch type of c with bool => destruct c end
         end;
  simpl; split; try lia;
  intros Hin; repeat (destruct Hin as [Hin|Hin]; try discriminate Hin); try contradiction;
  reflexivity.
Qed.

Lemma rmax_decay_bounds (d : R) : 0 <= d -> 0 <= Rmax 0 (1 - d / 1000) <= 1.
Proof.
  intros Hd. unfold Rmax. destruct (Rle_dec 0 (1 - d / 1000)); lra.
Qed.

(** Claim C10: the score of [compute_match_score] always lies in [[0, 1]]. *)
Theorem compute_match_score_in_unit_interval
    (base_text base_location cand_text cand_location : string)
    (base_lat base_lon cand_lat cand_lon : option R) :
  0 <= fst (compute_match_score base_text base_location cand_text
              cand_location base_lat base_lon cand_lat cand_lon) <= 1.
Proof.
  unfold compute_match_score. cbv zeta.
  pose proof (jaccard_bounds (Text.tokenize_keywords base_text)
                             (Text.tokenize_keywords cand_text)) as Ht.
  pose proof (jaccard_bounds (Text.tokenize_keywords base_location)
                             (Text.tokenize_keywords cand_location)) as Hl.
  unfold location_similarity.
  destruct (Rlt_dec 0 _);
  destruct base_lat as [blat|], base_lon as [blon|], cand_lat as [clat|], cand_lon as [clon|];
  try (pose proof (haversine_nonneg blat blon clat clon) as Hd;
       pose proof (rmax_decay_bounds _ Hd));
  repeat match goal with
         | |- context [Rlt_dec ?a ?b] => destruct (Rlt_dec a b)
         | |- context [if ?c then _ else _] =>
             lazymatch type of c with bool => destruct c end
         end;
  simpl; lra.
Qed.

End ScorerFacts.

Module StoreFacts.

Import Store.

Lemma select_entry_none (entries : list entry_row) (id : Z) :
  (forall r, In r entries -> e_id r <> id) -> select_entry entries id = None.
Proof.
  intros H. unfold select_entry.
  destruct (List.find _ entries) as [r|] eqn:E; [|reflexivity].
  apply find_some in E as [Hin Heq]. apply Z.eqb_eq in Heq.
  exfalso. exact (H r Hin Heq).
Qed.

Lemma select_entry_some (entries : list entry_row) (base : entry_row) :
  NoDup (map e_id entries) -> In base entries ->
  select_entry entries (e_id base) = Some base.
Proof.
  induction entries as [|r rest IH]; simpl; intros Hnd Hin; [contradiction|].
  inversion Hnd as [|? ? Hnotin Hnd']; subst.
  destruct Hin as [->|Hin].
  - rewrite Z.eqb_refl. reflexivity.
  - destruct (Z.eqb_spec (e_id r) (e_id base)) as [Heq|Hne].
    + exfalso. apply Hnotin. rewrite Heq. apply list_elem_of_In, in_map, Hin.
    + apply IH; assumption.
Qed.

Lemma select_entry_id (entries : list entry_row) (id : Z) (r : entry_row) :
  select_entry entries id = Some r -> In r entries /\ e_id r = id.
Proof.
  unfold select_entry. intros E. apply find_some in E as [Hin Heq].
  split; [exact Hin|]. by apply Z.eqb_eq.
Qed.

End StoreFacts.

Module NearbyErrors.

Import Store Search StoreFacts.

(** Claim C3: [find_nearby_sightings] fails with [NotFound] when no entry
    has the given id, and with [InvalidState] when the base entry exists
    but lacks [location_lat] or [location_lon]; no result list is
    produced in either case. *)
Theorem find_nearby_sightings_errors
    (entries : list entry_row) (cats : list cat_row)
    (entry_id radius_meters top_k : Z) (include_assigned : bool) :
  ((forall r, In r entries -> e_id r <> entry_id) ->
     find_nearby_sightings entries cats entry_id radius_meters top_k include_assigned
       = inl NotFound) /\
  (forall base : entry_row,
     NoDup (map e_id entries) -> In base entries -> e_id base = entry_id ->
     (e_location_lat base = None \/ e_location_lon base = None) ->
     find_nearby_sightings entries cats entry_id radius_meters top_k include_assigned
       = inl InvalidState).
Proof.
  split.
  - intros H. unfold find_nearby_sightings. rewrite select_entry_none by exact H.
    reflexivity.
  - intros base Hnd Hin <- Hno. unfold find_nearby_sightings.
    rewrite select_entry_some by assumption.
    destruct Hno as [-> | ->]; [reflexivity|].
    destruct (e_location_lat base); reflexivity.
Qed.

End NearbyErrors.

Module CacheFacts.

Import Store Cache.

Lemma select_upsert_same (new : analysis_row) (analyses : list analysis_row) :
  exists created,
    select_analysis (upsert_analysis new analyses) (a_entry_id new) =
    Some (mk_analysis (a_entry_id new) (a_text_hash new) (a_summary new)
            (a_tags_json new) (a_sentiment new) created (a_updatedAt new)).
Proof.
  induction analyses as [|a rest IH]; simpl.
  - exists (a_createdAt new). unfold select_analysis. simpl.
    rewrite Z.eqb_refl. destruct new; reflexivity.
  - destruct (Z.eqb_spec (a_entry_id a) (a_entry_id new)) as [Heq|Hne].
    + exists (a_createdAt a). unfold select_analysis. simpl.
      rewrite Heq, Z.eqb_refl. reflexivity.
    + destruct IH as [created IH]. exists created.
      unfold select_analysis in *. simpl.
      destruct (Z.eqb_spec (a_entry_id a) (a_entry_id new)); [contradiction|].
      exact IH.
Qed.

Lemma select_upsert_other (new : analysis_row) (analyses : list analysis_row) (id : Z) :
  id <> a_entry_id new ->
  select_analysis (upsert_analysis new analyses) id = select_analysis analyses id.
Proof.
  intros Hne. unfold select_analysis.
  induction analyses as [|a rest IH]; simpl.
  - destruct (Z.eqb_spec (a_entry_id new) id); [congruence|reflexivity].
  - destruct (Z.eqb_spec (a_entry_id a) (a_entry_id new)) as [Heq|Hne'].
    + simpl. rewrite Heq.
      destruct (Z.eqb_spec (a_entry_id new) id); [congruence|].
      destruct (Z.eqb_spec (a_entry_id a) id); [congruence|reflexivity].
    + simpl. destruct (a_entry_id a =? id)%Z; [reflexivity|exact IH].
Qed.

Section AnalyzeFacts.

Variable sha256_hex : string -> string.
Variable baseline_summary : string -> string.
Variable baseline_tags : string -> list string.
Variable baseline_sentiment : string -> string.
Variable tags_to_json : list string -> string.
Variable tags_from_json : string -> list string.

(** Claim C5: for an existing entry, when the stored analysis has the
    hash of the current text, [analyze_and_store] returns its summary,
    tags, sentiment and [updatedAt] and leaves the [analyses] table as it
    was; otherwise it returns a fresh analysis stamped [now] and upserts
    it under [entry_id] (hash, summary, tags, sentiment, [updatedAt = now]),
    leaving the rows of every other entry as they were. *)
Theorem analyze_and_store_cache
    (entries : list entry_row) (analyses : list analysis_row)
    (entry_id : Z) (now : string) (entry : entry_row) :
  select_entry entries entry_id = Some entry ->
  let text := e_text entry in
  let current_hash := text_to_hash sha256_hex text in
  let run := analyze_and_store sha256_hex baseline_summary baseline_tags
               baseline_sentiment tags_to_json tags_from_json
               entries analyses entry_id now in
  (forall existing : analysis_row,
     select_analysis analyses entry_id = Some existing ->
     a_text_hash existing = current_hash ->
     run = (inr (mk_entry_analysis entry_id (a_summary existing)
                   (tags_from_json (a_tags_json existing))
                   (a_sentiment existing) (a_updatedAt existing)),
            analyses)) /\
  ((forall existing : analysis_row,
      select_analysis analyses entry_id = Some existing ->
      a_text_hash existing <> current_hash) ->
   fst run = inr (mk_entry_analysis entry_id (baseline_summary text)
                    (baseline_tags text) (baseline_sentiment text) now) /\
   (exists created,
      select_analysis (snd run) entry_id =
      Some (mk_analysis entry_id current_hash (baseline_summary text)
              (tags_to_json (baseline_tags text)) (baseline_sentiment text)
              created now)) /\
   (forall other : Z, other <> entry_id ->
      select_analysis (snd run) other = select_analysis analyses other)).
Proof.
  intros Hsel text current_hash run. subst text current_hash run.
  unfold analyze_and_store. rewrite Hsel. split.
  - intros existing Hex Hhash. rewrite Hex, Hhash, String.eqb_refl.
    unfold select_analysis in Hex. apply find_some in Hex as [_ Hid].
    apply Z.eqb_eq in Hid. rewrite Hid. reflexivity.
  - intros Hstale.
    assert (Hmiss : match select_analysis analyses entry_id with
                    | Some existing =>
                        if String.eqb (a_text_hash existing)
                             (text_to_hash sha256_hex (e_text entry))
                        then Some existing else None
                    | None => None end = None).
    { destruct (select_analysis analyses entry_id) as [ex|] eqn:E; [|reflexivity].
      specialize (Hstale ex eq_refl).
      destruct (String.eqb_spec (a_text_hash ex) (text_to_hash sha256_hex (e_text entry)));
        [contradiction|reflexivity]. }
    rewrite Hmiss. simpl. split; [reflexivity|]. split.
    + exact (select_upsert_same
               (mk_analysis entry_id (text_to_hash sha256_hex (e_text entry))
                  (baseline_summary (e_text entry))
                  (tags_to_json (baseline_tags (e_text entry)))
                  (baseline_sentiment (e_text entry)) now now) analyses).
    + intros other Hne. apply select_upsert_other. exact Hne.
Qed.

End AnalyzeFacts.

Definition sample_entry : entry_row :=
  mk_entry 1 "hello  world" "2024-01-01T00:00:00Z" None None None None None None.

Definition sample_analysis : analysis_row :=
  mk_analysis 1 "hello world" "hello world" "[]" "neutral"
    "2024-01-01T00:00:00Z" "2024-01-02T00:00:00Z".

Lemma analyze_and_store_cache_witness :
  select_entry [sample_entry] 1 = Some sample_entry /\
  analyze_and_store (fun s => s) (fun s => s) (fun _ => []) (fun _ => "neutral")
    (fun _ => "[]") (fun _ => []) [sample_entry] [sample_analysis] 1
    "2024-03-01T00:00:00Z" =
  (inr (mk_entry_analysis 1 "hello world" [] "neutral" "2024-01-02T00:00:00Z"),
   [sample_analysis]).
Proof.
  split; [reflexivity|].
  pose proof (analyze_and_store_cache (fun s => s) (fun s => s) (fun _ => [])
    (fun _ => "neutral") (fun _ => "[]") (fun _ => []) [sample_entry]
    [sample_analysis] 1 "2024-03-01T00:00:00Z" sample_entry eq_refl) as H.
  cbv zeta in H. destruct H as [Hcached _].
  apply (Hcached sample_analysis); reflexivity.
Defined.

End CacheFacts.

Module ContextHashFacts.

Import Cache.

Definition newline : ascii := "010"%char.

(** Whether a string contains a newline character. *)
Fixpoint has_newline (s : string) : bool :=
  match s with
  | EmptyString => false
  | String c r => Ascii.eqb c newline || has_newline r
  end.

Lemma has_newline_append_nl (s t : string) :
  has_newline (String.append s (String newline t)) = true.
Proof.
  induction s as [|c s IH]; simpl.
  - reflexivity.
  - rewrite IH. apply orb_true_r.
Qed.

Lemma append_nl_inj (s1 s2 t1 t2 : string) :
  has_newline s1 = false -> has_newline s2 = false ->
  String.append s1 (String newline t1) = String.append s2 (String newline t2) ->
  s1 = s2 /\ t1 = t2.
Proof.
  revert s2. induction s1 as [|c1 s1 IH]; intros s2 H1 H2 Heq; destruct s2 as [|c2 s2];
    simpl in *.
  - inversion Heq. auto.
  - inversion Heq; subst. discriminate H2.
  - inversion Heq; subst. discriminate H1.
  - apply orb_false_iff in H1 as [_ H1]. apply orb_false_iff in H2 as [_ H2].
    inversion Heq as [[Hc Hrest]]. subst c2.
    destruct (IH s2 H1 H2 Hrest) as [-> ->]. auto.
Qed.

Lemma context_hash_input_cons (x y : string) (rest : list string) :
  context_hash_input (x :: y :: rest) =
  String.append x (String newline
    (String.append "---" (String newline (context_hash_input (y :: rest))))).
Proof. reflexivity. Qed.

Lemma context_hash_input_injective (p1 p2 : list string) :
  p1 <> [] -> p2 <> [] ->
  Forall (fun s => has_newline s = false) p1 ->
  Forall (fun s => has_newline s = false) p2 ->
  context_hash_input p1 = context_hash_input p2 -> p1 = p2.
Proof.
  revert p2. induction p1 as [|x [|x' r1] IH]; intros p2 Hn1 Hn2 F1 F2 Heq;
    [congruence| |].
  - destruct p2 as [|y [|y' r2]]; [congruence| |].
    + unfold context_hash_input in Heq. simpl in Heq. subst. reflexivity.
    + exfalso. inversion F1 as [|? ? Hx _]; subst.
      rewrite context_hash_input_cons in Heq.
      change (context_hash_input [x]) with x in Heq.
      rewrite Heq, has_newline_append_nl in Hx. discriminate Hx.
  - destruct p2 as [|y [|y' r2]]; [congruence| |].
    + exfalso. inversion F2 as [|? ? Hy _]; subst.
      rewrite context_hash_input_cons in Heq.
      change (context_hash_input [y]) with y in Heq.
      rewrite <- Heq, has_newline_append_nl in Hy. discriminate Hy.
    + inversion F1 as [|? ? Hx F1']; subst. inversion F2 as [|? ? Hy F2']; subst.
      rewrite !context_hash_input_cons in Heq.
      destruct (append_nl_inj _ _ _ _ Hx Hy Heq) as [-> Ht].
      inversion Ht as [Ht'].
      f_equal. apply IH; [congruence|congruence|exact F1'|exact F2'|exact Ht'].
Qed.

(** Claim C6 (counterexample): distinct part lists can feed the same
    string to the hash, so their digests coincide: a part that contains
    the separator, and the empty list against the list of one empty part. *)
Lemma make_context_hash_collision :
  [String.append "A" (String.append CONTEXT_SEP "B")] <> ["A"; "B"] /\
  context_hash_input [String.append "A" (String.append CONTEXT_SEP "B")] =
  context_hash_input ["A"; "B"] /\
  [] <> [""] /\
  context_hash_input [] = context_hash_input [""] /\
  (forall h : string -> string,
     make_context_hash h [String.append "A" (String.append CONTEXT_SEP "B")] =
     make_context_hash h ["A"; "B"]).
Proof.
  split; [discriminate|]. split; [reflexivity|].
  split; [discriminate|]. split; [reflexivity|].
  intros h. reflexivity.
Qed.

(** Claim C6 (as amended): [make_context_hash] is the hash of
    ["\n---\n".join(parts)], a function of the parts alone; the joins of
    [["A"; "B"]] and [["AB"]] differ; and two distinct non-empty lists of
    parts that contain no newline are joined to different strings, hence
    hashed to different digests by any collision-free hash. *)
Theorem make_context_hash_separates :
  (forall (h : string -> string) (parts : list string),
     make_context_hash h parts = h (context_hash_input parts)) /\
  context_hash_input ["A"; "B"] <> context_hash_input ["AB"] /\
  (forall p1 p2 : list string,
     p1 <> [] -> p2 <> [] ->
     Forall (fun s => has_newline s = false) p1 ->
     Forall (fun s => has_newline s = false) p2 ->
     p1 <> p2 -> context_hash_input p1 <> context_hash_input p2) /\
  (forall (h : string -> string) (p1 p2 : list string),
     (forall s t, h s = h t -> s = t) ->
     p1 <> [] -> p2 <> [] ->
     Forall (fun s => has_newline s = false) p1 ->
     Forall (fun s => has_newline s = false) p2 ->
     p1 <> p2 -> make_context_hash h p1 <> make_context_hash h p2).
Proof.
  split; [reflexivity|]. split; [discriminate|]. split.
  - intros p1 p2 H1 H2 F1 F2 Hne Heq. apply Hne.
    exact (context_hash_input_injective p1 p2 H1 H2 F1 F2 Heq).
  - intros h p1 p2 Hh H1 H2 F1 F2 Hne Heq. apply Hne.
    apply (context_hash_input_injective p1 p2 H1 H2 F1 F2).
    apply Hh. exact Heq.
Qed.

End ContextHashFacts.

Module NumFacts.

Import Similarity.

Lemma Int_part_eq (y : R) (z : Z) : IZR z <= y < IZR z + 1 -> Int_part y = z.
Proof.
  intros [H1 H2]. unfold Int_part.
  assert (Hup : (z + 1)%Z = up y).
  { apply tech_up; rewrite plus_IZR; lra. }
  lia.
Qed.

Lemma round_half_even_down (y : R) (z : Z) :
  IZR z <= y < IZR z + 1 / 2 -> Py.round_half_even y = z.
Proof.
  intros H. unfold Py.round_half_even.
  rewrite (Int_part_eq y z) by lra.
  destruct (Rlt_dec (y - IZR z) (1 / 2)); [reflexivity|lra].
Qed.

Lemma round_half_even_up (y : R) (z : Z) :
  IZR z + 1 / 2 < y < IZR z + 1 -> Py.round_half_even y = (z + 1)%Z.
Proof.
  intros H. unfold Py.round_half_even.
  rewrite (Int_part_eq y z) by lra.
  destruct (Rlt_dec (y - IZR z) (1 / 2)); [lra|].
  destruct (Rlt_dec (1 / 2) (y - IZR z)); [reflexivity|lra].
Qed.

(** On a meridian, starting from the equator, [haversine_distance] is the
    arc length [EARTH_RADIUS * radians lat]. *)
Lemma haversine_meridian (lat : R) :
  0 <= lat <= 1 -> haversine_distance 0 0 lat 0 = EARTH_RADIUS * radians lat.
Proof.
  intros Hlat. pose proof PI_RGT_0 as Hpi.
  unfold haversine_distance. cbv zeta.
  assert (Hr0 : radians 0 = 0) by (unfold radians; ring).
  rewrite Hr0.
  replace ((radians lat - 0) / 2) with (radians lat / 2) by field.
  replace ((0 - 0) / 2) with 0 by field.
  rewrite sin_0, cos_0.
  replace ((sin (radians lat / 2)) ^ 2 + 1 * cos (radians lat) * 0 ^ 2)
    with ((sin (radians lat / 2)) ^ 2) by ring.
  assert (Hhb : 0 <= radians lat / 2 <= PI / 2).
  { unfold radians. split.
    - assert (0 <= lat * (PI / 180)) by (apply Rmult_le_pos; lra). lra.
    - nra. }
  rewrite sqrt_pow2 by (apply sin_ge_0; lra).
  rewrite asin_sin by lra.
  field.
Qed.

End NumFacts.

Module SortFacts.

Section Sorts.

Context {A : Type} (key : A -> R).

Lemma in_insert_desc (x z : A) (l : list A) :
  In z (Py.insert_desc key x l) <-> x = z \/ In z l.
Proof.
  induction l as [|y l IH]; simpl; [tauto|].
  destruct (Rlt_dec (key y) (key x)); simpl; [tauto|]. rewrite IH. tauto.
Qed.

Lemma in_insert_asc (x z : A) (l : list A) :
  In z (Py.insert_asc key x l) <-> x = z \/ In z l.
Proof.
  induction l as [|y l IH]; simpl; [tauto|].
  destruct (Rlt_dec (key x) (key y)); simpl; [tauto|]. rewrite IH. tauto.
Qed.

Lemma in_fold_insert (ins : A -> list A -> list A) (l acc : list A) (z : A) :
  (forall x l' z', In z' (ins x l') <-> x = z' \/ In z' l') ->
  In z (fold_left (fun acc x => ins x acc) l acc) <-> In z l \/ In z acc.
Proof.
  intros Hins. revert acc. induction l as [|x l IH]; intros acc; simpl; [tauto|].
  rewrite IH, Hins. tauto.
Qed.

Lemma in_sort_desc (l : list A) (z : A) : In z (Py.sort_desc key l) <-> In z l.
Proof.
  unfold Py.sort_desc. rewrite in_fold_insert by (intros; apply in_insert_desc).
  simpl. tauto.
Qed.

Lemma in_sort_asc (l : list A) (z : A) : In z (Py.sort_asc key l) <-> In z l.
Proof.
  unfold Py.sort_asc. rewrite in_fold_insert by (intros; apply in_insert_asc).
  simpl. tauto.
Qed.

Lemma insert_asc_sorted (x : A) (l : list A) :
  StronglySorted (fun a b => key a <= key b) l ->
  StronglySorted (fun a b => key a <= key b) (Py.insert_asc key x l).
Proof.
  induction l as [|y l IH]; intros Hs; simpl.
  - repeat constructor.
  - apply StronglySorted_inv in Hs as [Hs Hy].
    destruct (Rlt_dec (key x) (key y)) as [Hlt|Hge].
    + constructor; [constructor; assumption|].
      constructor; [lra|]. eapply Forall_impl; [exact Hy|]. simpl. intros a Ha. lra.
    + constructor; [apply IH, Hs|].
      apply List.Forall_forall. intros z Hz. apply in_insert_asc in Hz as [<-|Hz]; [lra|].
      rewrite List.Forall_forall in Hy. apply Hy, Hz.
Qed.

Lemma sort_asc_sorted (l : list A) :
  StronglySorted (fun a b => key a <= key b) (Py.sort_asc key l).
Proof.
  unfold Py.sort_asc.
  assert (Hgen : forall acc, StronglySorted (fun a b => key a <= key b) acc ->
            StronglySorted (fun a b => key a <= key b)
              (fold_left (fun acc x => Py.insert_asc key x acc) l acc)).
  { induction l as [|x l IH]; intros acc Hacc; simpl; [exact Hacc|].
    apply IH, insert_asc_sorted, Hacc. }
  apply Hgen. constructor.
Qed.

Context (id : A -> Z).

(** Descending key, ties by descending [id]. *)
Definition lex_desc (a b : A) : Prop :=
  key b < key a \/ (key b = key a /\ (id b < id a)%Z).

Lemma insert_desc_lex (x : A) (l : list A) :
  (forall y, In y l -> (id x < id y)%Z) ->
  StronglySorted lex_desc l -> StronglySorted lex_desc (Py.insert_desc key x l).
Proof.
  induction l as [|y l IH]; intros Hid Hs; simpl.
  - repeat constructor.
  - apply StronglySorted_inv in Hs as [Hs Hy].
    destruct (Rlt_dec (key y) (key x)) as [Hlt|Hge].
    + constructor; [constructor; assumption|].
      constructor; [left; exact Hlt|].
      eapply Forall_impl; [exact Hy|]. unfold lex_desc. intros a Ha. lra.
    + constructor.
      * apply IH; [intros z Hz; apply Hid; right; exact Hz|exact Hs].
      * apply List.Forall_forall. intros z Hz. apply in_insert_desc in Hz as [<-|Hz].
        -- unfold lex_desc. destruct (Rlt_dec (key x) (key y)); [left; exact r|].
           right. split; [lra|]. apply Hid. left. reflexivity.
        -- rewrite List.Forall_forall in Hy. apply Hy, Hz.
Qed.

(** A stable descending sort of a list in strictly descending [id] order
    orders by descending key, ties by descending [id]. *)
Lemma sort_desc_lex (l : list A) :
  StronglySorted (fun a b => (id b < id a)%Z) l ->
  StronglySorted lex_desc (Py.sort_desc key l).
Proof.
  unfold Py.sort_desc.
  assert (Hgen : forall acc,
            StronglySorted (fun a b => (id b < id a)%Z) l ->
            StronglySorted lex_desc acc ->
            (forall a b, In a acc -> In b l -> (id b < id a)%Z) ->
            StronglySorted lex_desc
              (fold_left (fun acc x => Py.insert_desc key x acc) l acc)).
  { induction l as [|x l IH]; intros acc Hl Hacc Hab; simpl; [exact Hacc|].
    apply StronglySorted_inv in Hl as [Hl Hx]. rewrite List.Forall_forall in Hx.
    apply IH; [exact Hl| |].
    - apply insert_desc_lex; [|exact Hacc].
      intros y Hy. apply Hab; [exact Hy|left; reflexivity].
    - intros a b Ha Hb. apply in_insert_desc in Ha as [<-|Ha].
      + apply Hx, Hb.
      + apply Hab; [exact Ha|right; exact Hb]. }
  intros Hl. apply Hgen; [exact Hl|constructor|intros a b []].
Qed.

(** Ascending key, ties by descending [id]. *)
Definition lex_asc (a b : A) : Prop :=
  key a < key b \/ (key a = key b /\ (id b < id a)%Z).

Lemma insert_asc_lex (x : A) (l : list A) :
  (forall y, In y l -> (id x < id y)%Z) ->
  StronglySorted lex_asc l -> StronglySorted lex_asc (Py.insert_asc key x l).
Proof.
  induction l as [|y l IH]; intros Hid Hs; simpl.
  - repeat constructor.
  - apply StronglySorted_inv in Hs as [Hs Hy].
    destruct (Rlt_dec (key x) (key y)) as [Hlt|Hge].
    + constructor; [constructor; assumption|].
      constructor; [left; exact Hlt|].
      eapply Forall_impl; [exact Hy|]. unfold lex_asc. intros a Ha. lra.
    + constructor.
      * apply IH; [intros z Hz; apply Hid; right; exact Hz|exact Hs].
      * apply List.Forall_forall. intros z Hz. apply in_insert_asc in Hz as [<-|Hz].
        -- unfold lex_asc. destruct (Rlt_dec (key y) (key x)); [left; exact r|].
           right. split; [lra|]. apply Hid. left. reflexivity.
        -- rewrite List.Forall_forall in Hy. apply Hy, Hz.
Qed.

(** A stable ascending sort of a list in strictly descending [id] order
    orders by ascending key, ties by descending [id]. *)
Lemma sort_asc_lex (l : list A) :
  StronglySorted (fun a b => (id b < id a)%Z) l ->
  StronglySorted lex_asc (Py.sort_asc key l).
Proof.
  unfold Py.sort_asc.
  assert (Hgen : forall acc,
            StronglySorted (fun a b => (id b < id a)%Z) l ->
            StronglySorted lex_asc acc ->
            (forall a b, In a acc -> In b l -> (id b < id a)%Z) ->
            StronglySorted lex_asc
              (fold_left (fun acc x => Py.insert_asc key x acc) l acc)).
  { induction l as [|x l IH]; intros acc Hl Hacc Hab; simpl; [exact Hacc|].
    apply StronglySorted_inv in Hl as [Hl Hx]. rewrite List.Forall_forall in Hx.
    apply IH; [exact Hl| |].
    - apply insert_asc_lex; [|exact Hacc].
      intros y Hy. apply Hab; [exact Hy|left; reflexivity].
    - intros a b Ha Hb. apply in_insert_asc in Ha as [<-|Ha].
      + apply Hx, Hb.
      + apply Hab; [exact Ha|right; exact Hb]. }
  intros Hl. apply Hgen; [exact Hl|constructor|intros a b []].
Qed.

End Sorts.

Lemma in_take_in {B} (n : nat) (l : list B) (z : B) : In z (take n l) -> In z l.
Proof.
  revert l. induction n as [|n IH]; intros [|y l]; simpl; try tauto.
  intros [->|Hz]; [left; reflexivity|right; apply IH, Hz].
Qed.

Lemma take_sorted {B} (Rel : B -> B -> Prop) (n : nat) (l : list B) :
  StronglySorted Rel l -> StronglySorted Rel (take n l).
Proof.
  revert l. induction n as [|n IH]; intros [|y l] Hs; simpl; try (constructor; fail).
  apply StronglySorted_inv in Hs as [Hs Hy]. constructor; [apply IH, Hs|].
  rewrite List.Forall_forall in *. intros z Hz. apply Hy, (in_take_in n), Hz.
Qed.

Lemma slice_upto_in {B} (l : list B) (k : Z) (z : B) :
  In z (Py.slice_upto l k) -> In z l.
Proof. unfold Py.slice_upto. apply in_take_in. Qed.

Lemma slice_upto_sorted {B} (Rel : B -> B -> Prop) (l : list B) (k : Z) :
  StronglySorted Rel l -> StronglySorted Rel (Py.slice_upto l k).
Proof. unfold Py.slice_upto. apply take_sorted. Qed.

Lemma slice_upto_length {B} (l : list B) (k : Z) :
  (0 <= k)%Z -> (length (Py.slice_upto l k) <= Z.to_nat k)%nat.
Proof.
  intros Hk. unfold Py.slice_upto.
  destruct (Z.leb_spec 0 k); [|lia].
  rewrite length_take. lia.
Qed.

End SortFacts.

Module ScanFacts.

Import Store.

Lemma in_insert_id_desc (r z : entry_row) (l : list entry_row) :
  In z (insert_id_desc r l) <-> r = z \/ In z l.
Proof.
  induction l as [|x l IH]; simpl; [tauto|].
  destruct (e_id x <=? e_id r)%Z; simpl; [tauto|]. rewrite IH. tauto.
Qed.

Lemma in_order_by_id_desc (l : list entry_row) (z : entry_row) :
  In z (order_by_id_desc l) <-> In z l.
Proof.
  unfold order_by_id_desc. induction l as [|x l IH]; simpl; [tauto|].
  rewrite in_insert_id_desc, IH. tauto.
Qed.

Definition id_desc (a b : entry_row) : Prop := (e_id b < e_id a)%Z.

Lemma insert_id_desc_strict (r : entry_row) (l : list entry_row) :
  (forall y, In y l -> e_id y <> e_id r) ->
  StronglySorted id_desc l -> StronglySorted id_desc (insert_id_desc r l).
Proof.
  unfold id_desc. induction l as [|x l IH]; intros Hne Hs; simpl.
  - repeat constructor.
  - apply StronglySorted_inv in Hs as [Hs Hx].
    destruct (Z.leb_spec (e_id x) (e_id r)) as [Hle|Hgt].
    + constructor; [constructor; assumption|].
      constructor.
      * assert (e_id x <> e_id r) by (apply Hne; left; reflexivity). lia.
      * eapply Forall_impl; [exact Hx|]. simpl. intros a Ha. lia.
    + constructor.
      * apply IH; [intros y Hy; apply Hne; right; exact Hy|exact Hs].
      * apply List.Forall_forall. intros z Hz. apply in_insert_id_desc in Hz as [<-|Hz].
        -- exact Hgt.
        -- rewrite List.Forall_forall in Hx. apply Hx, Hz.
Qed.

(** With unique ids, [ORDER BY id DESC] is strictly descending. *)
Lemma order_by_id_desc_strict (l : list entry_row) :
  NoDup (map e_id l) -> StronglySorted id_desc (order_by_id_desc l).
Proof.
  unfold order_by_id_desc. induction l as [|x l IH]; intros Hnd; simpl.
  - constructor.
  - inversion Hnd as [|? ? Hnotin Hnd']; subst.
    apply insert_id_desc_strict; [|apply IH, Hnd'].
    intros y Hy Heq. apply Hnotin. rewrite <- Heq. apply list_elem_of_In, in_map.
    apply in_order_by_id_desc, Hy.
Qed.

Lemma NoDup_map_filter (l : list entry_row) (f : entry_row -> bool) :
  NoDup (map e_id l) -> NoDup (map e_id (List.filter f l)).
Proof.
  induction l as [|x l IH]; intros Hnd; simpl; [constructor|].
  inversion Hnd as [|? ? Hnotin Hnd']; subst.
  destruct (f x); simpl; [|apply IH, Hnd'].
  constructor; [|apply IH, Hnd'].
  intros Hin. apply Hnotin. apply list_elem_of_In in Hin. apply list_elem_of_In.
  apply in_map_iff in Hin as [y [Hy Hin]]. rewrite <- Hy. apply in_map.
  apply filter_In in Hin as [Hin _]. exact Hin.
Qed.

End ScanFacts.

Module MatchesFacts.

Import Store Scorer Search StoreFacts ScanFacts SortFacts.

Lemma in_match_row (entry_id : Z) (min_score : R) (base r : entry_row)
    (c : match_candidate) :
  In c (match_row entry_id min_score base r) ->
  mc_entry_id c = entry_id /\ mc_candidate_id c = e_id r /\
  min_score <= fst (score_rows base r) /\
  mc_score c = Py.py_round (fst (score_rows base r)) 3.
Proof.
  unfold match_row. destruct (score_rows base r) as [score reasons].
  destruct (Rle_dec min_score score) as [Hle|]; simpl; [|tauto].
  intros [<-|[]]. simpl. auto.
Qed.

Lemma match_row_length (entry_id : Z) (min_score : R) (base r : entry_row) :
  match_row entry_id min_score base r = [] \/
  exists c, match_row entry_id min_score base r = [c].
Proof.
  unfold match_row. destruct (score_rows base r).
  destruct (Rle_dec _ _); [right; eexists; reflexivity|left; reflexivity].
Qed.

Lemma match_candidates_id_desc (entry_id : Z) (min_score : R) (base : entry_row)
    (rows : list entry_row) :
  StronglySorted id_desc rows ->
  StronglySorted (fun c d => (mc_candidate_id d < mc_candidate_id c)%Z)
    (flat_map (match_row entry_id min_score base) rows).
Proof.
  induction rows as [|r rows IH]; intros Hs; simpl; [constructor|].
  apply StronglySorted_inv in Hs as [Hs Hr]. rewrite List.Forall_forall in Hr.
  destruct (match_row_length entry_id min_score base r) as [->|[c Hc]];
    simpl; [apply IH, Hs|].
  rewrite Hc. simpl. constructor; [apply IH, Hs|].
  apply List.Forall_forall. intros d Hd.
  apply in_flat_map in Hd as [r' [Hr' Hd]].
  apply in_match_row in Hd as [_ [Hd _]].
  assert (Hcin : In c (match_row entry_id min_score base r)) by (rewrite Hc; left; reflexivity).
  apply in_match_row in Hcin as [_ [Hcid _]].
  rewrite Hd, Hcid. apply Hr, Hr'.
Qed.

(** Claim C2 (as amended): when [find_matches] succeeds, the base entry
    exists and the result has at most [max(1, min(top_k, 20))] candidates;
    each is a stored entry other than the queried one whose raw
    [compute_match_score] is at least [min_score], reported with that score
    rounded to 3 decimals. *)
Theorem find_matches_candidates (entries : list entry_row) (entry_id top_k : Z)
    (min_score : R) :
  match find_matches entries entry_id top_k min_score with
  | inl err => err = NotFound /\ select_entry entries entry_id = None
  | inr result =>
      exists base,
        select_entry entries entry_id = Some base /\
        (length result <= Z.to_nat (Z.max 1 (Z.min top_k 20)))%nat /\
        Forall (fun c =>
          mc_entry_id c = entry_id /\ mc_candidate_id c <> entry_id /\
          exists r, In r entries /\ e_id r = mc_candidate_id c /\
            min_score <= fst (score_rows base r) /\
            mc_score c = Py.py_round (fst (score_rows base r)) 3) result
  end.
Proof.
  unfold find_matches.
  destruct (select_entry entries entry_id) as [base|] eqn:Hsel; [|auto].
  exists base. split; [reflexivity|]. split.
  - apply slice_upto_length. lia.
  - apply List.Forall_forall. intros c Hc.
    apply slice_upto_in, in_sort_desc, in_flat_map in Hc as [r [Hr Hc]].
    unfold match_scan in Hr. apply in_order_by_id_desc, filter_In in Hr as [Hin Hne].
    apply in_match_row in Hc as [He [Hid [Hmin Hscore]]].
    split; [exact He|]. split.
    + rewrite Hid. intros Heq. rewrite Heq, Z.eqb_refl in Hne. discriminate Hne.
    + exists r. auto.
Qed.

(** Claim C7 (as amended): with unique entry ids, the result of
    [find_matches] is ordered by the reported (rounded) score descending,
    and candidates with equal reported scores by id descending, the scan
    order. *)
Theorem find_matches_order (entries : list entry_row) (entry_id top_k : Z)
    (min_score : R) (result : list match_candidate) :
  NoDup (map e_id entries) ->
  find_matches entries entry_id top_k min_score = inr result ->
  StronglySorted (lex_desc mc_score mc_candidate_id) result.
Proof.
  intros Hnd. unfold find_matches.
  destruct (select_entry entries entry_id) as [base|]; [|discriminate].
  intros Hres. injection Hres as <-.
  apply slice_upto_sorted, sort_desc_lex, match_candidates_id_desc.
  unfold match_scan. apply order_by_id_desc_strict, NoDup_map_filter, Hnd.
Qed.

End MatchesFacts.

Module NearbyFacts.

Import Store Scorer Similarity Search StoreFacts ScanFacts SortFacts.

Lemma in_nearby_row (cats : list cat_row) (radius_meters : Z) (base : entry_row)
    (base_lat base_lon : R) (r : entry_row) (n : nearby_sighting) :
  In n (nearby_row cats radius_meters base base_lat base_lon r) ->
  exists cand_lat cand_lon,
    e_location_lat r = Some cand_lat /\ e_location_lon r = Some cand_lon /\
    haversine_distance base_lat base_lon cand_lat cand_lon <= IZR radius_meters /\
    ns_entry_id n = e_id r /\
    ns_distance_meters n =
      Py.py_round (haversine_distance base_lat base_lon cand_lat cand_lon) 1.
Proof.
  unfold nearby_row.
  destruct (e_location_lat r) as [cand_lat|], (e_location_lon r) as [cand_lon|];
    simpl; try tauto.
  destruct (Rlt_dec (IZR radius_meters)
              (haversine_distance base_lat base_lon cand_lat cand_lon)) as [|Hle];
    simpl; [tauto|].
  destruct (score_rows base r). intros [<-|[]].
  exists cand_lat, cand_lon. simpl. repeat split; try reflexivity. lra.
Qed.

Lemma in_nearby_scan (entries : list entry_row) (entry_id : Z)
    (include_assigned : bool) (r : entry_row) :
  In r (nearby_scan entries entry_id include_assigned) ->
  In r entries /\ e_id r <> entry_id /\
  (include_assigned = false -> e_cat_id r = None).
Proof.
  unfold nearby_scan. intros Hr.
  apply in_order_by_id_desc, filter_In in Hr as [Hin Hf].
  apply andb_prop in Hf as [Hf Hassigned]. apply andb_prop in Hf as [Hne _].
  split; [exact Hin|]. split.
  - intros Heq. rewrite Heq, Z.eqb_refl in Hne. discriminate Hne.
  - intros ->. simpl in Hassigned. by apply bool_decide_eq_true in Hassigned.
Qed.

Lemma nearby_row_length (cats : list cat_row) (radius_meters : Z) (base : entry_row)
    (base_lat base_lon : R) (r : entry_row) :
  nearby_row cats radius_meters base base_lat base_lon r = [] \/
  exists n, nearby_row cats radius_meters base base_lat base_lon r = [n].
Proof.
  unfold nearby_row.
  destruct (e_location_lat r), (e_location_lon r); auto.
  destruct (Rlt_dec _ _); auto. destruct (score_rows base r). eauto.
Qed.

Lemma nearby_rows_id_desc (cats : list cat_row) (radius_meters : Z) (base : entry_row)
    (base_lat base_lon : R) (rows : list entry_row) :
  StronglySorted id_desc rows ->
  StronglySorted (fun a b => (ns_entry_id b < ns_entry_id a)%Z)
    (flat_map (nearby_row cats radius_meters base base_lat base_lon) rows).
Proof.
  induction rows as [|r rows IH]; intros Hs; simpl; [constructor|].
  apply StronglySorted_inv in Hs as [Hs Hr]. rewrite List.Forall_forall in Hr.
  destruct (nearby_row_length cats radius_meters base base_lat base_lon r) as [->|[n Hn]];
    simpl; [apply IH, Hs|].
  rewrite Hn. simpl. constructor; [apply IH, Hs|].
  apply List.Forall_forall. intros d Hd.
  apply in_flat_map in Hd as [r' [Hr' Hd]].
  apply in_nearby_row in Hd as [? [? [_ [_ [_ [Hd _]]]]]].
  assert (Hnin : In n (nearby_row cats radius_meters base base_lat base_lon r))
    by (rewrite Hn; left; reflexivity).
  apply in_nearby_row in Hnin as [? [? [_ [_ [_ [Hnid _]]]]]].
  rewrite Hd, Hnid. apply Hr, Hr'.
Qed.

(** Claim C4 (as amended): when [find_nearby_sightings] succeeds, the base
    entry has coordinates, and every returned sighting is another stored
    entry with coordinates whose haversine distance to the base is at most
    [radius_meters] (and which has no cat when [include_assigned] is
    false), reported with that distance rounded to 0.1 m; the result is
    sorted by the reported distance ascending, with equal reported
    distances in the id-descending scan order when ids are unique (the
    primary key), and has at most [top_k] elements when [top_k >= 0]. *)
Theorem find_nearby_sightings_results (entries : list entry_row)
    (cats : list cat_row) (entry_id radius_meters top_k : Z)
    (include_assigned : bool) :
  match find_nearby_sightings entries cats entry_id radius_meters top_k
          include_assigned with
  | inl _ => True
  | inr result =>
      exists base base_lat base_lon,
        select_entry entries entry_id = Some base /\
        e_location_lat base = Some base_lat /\ e_location_lon base = Some base_lon /\
        Forall (fun n =>
          exists r cand_lat cand_lon,
            In r entries /\ e_id r = ns_entry_id n /\ e_id r <> entry_id /\
            e_location_lat r = Some cand_lat /\ e_location_lon r = Some cand_lon /\
            haversine_distance base_lat base_lon cand_lat cand_lon
              <= IZR radius_meters /\
            ns_distance_meters n =
              Py.py_round (haversine_distance base_lat base_lon cand_lat cand_lon) 1 /\
            (include_assigned = false -> e_cat_id r = None)) result /\
        StronglySorted (fun a b => ns_distance_meters a <= ns_distance_meters b) result /\
        (NoDup (map e_id entries) ->
         StronglySorted (lex_asc ns_distance_meters ns_entry_id) result) /\
        ((0 <= top_k)%Z -> (length result <= Z.to_nat top_k)%nat)
  end.
Proof.
  unfold find_nearby_sightings.
  destruct (select_entry entries entry_id) as [base|] eqn:Hsel; [|exact I].
  destruct (e_location_lat base) as [base_lat|] eqn:Hlat,
           (e_location_lon base) as [base_lon|] eqn:Hlon; try exact I.
  exists base, base_lat, base_lon.
  split; [reflexivity|]. split; [exact Hlat|]. split; [exact Hlon|].
  split; [|split].
  - apply List.Forall_forall. intros n Hn.
    apply slice_upto_in, in_sort_asc, in_flat_map in Hn as [r [Hr Hn]].
    apply in_nearby_scan in Hr as [Hin [Hne Hcat]].
    apply in_nearby_row in Hn as [cand_lat [cand_lon [Hclat [Hclon [Hd [Hid Hdist]]]]]].
    exists r, cand_lat, cand_lon. repeat split; auto.
  - apply slice_upto_sorted, sort_asc_sorted.
  - split; [|apply slice_upto_length].
    intros Hnd. apply slice_upto_sorted, sort_asc_lex, nearby_rows_id_desc.
    unfold nearby_scan. apply order_by_id_desc_strict, NoDup_map_filter, Hnd.
Qed.

End NearbyFacts.

Module GeoExample.

Import Store Scorer Similarity Search SimilarityFacts NumFacts.

(** Entries with no keywords ("x"), on the meridian [lon = 0], a few
    centimetres apart: ids 2 and 3 are 1e-7 and 2e-7 degrees north of id 1. *)
Definition geo_row (id : Z) (lat : R) : entry_row :=
  mk_entry id "x" "2024-01-01T00:00:00Z" None None None (Some lat) (Some 0) None.

Definition geo_entries : list entry_row :=
  [geo_row 1 0; geo_row 2 (1 / 10000000); geo_row 3 (2 / 10000000)].

Lemma tokenize_x : Text.tokenize_keywords "x" = ∅.
Proof. vm_compute. reflexivity. Qed.

Lemma geo_distance_bounds (lat : R) :
  0 < lat <= 2 / 10000000 ->
  0 < haversine_distance 0 0 lat 0 < 3 / 100.
Proof.
  intros Hlat. rewrite haversine_meridian by lra.
  unfold EARTH_RADIUS, radians. pose proof PI_RGT_0. pose proof PI_4.
  split; nra.
Qed.

Lemma py_round_1 (x : R) : Py.py_round x 1 = IZR (Py.round_half_even (x * 10)) / 10.
Proof. unfold Py.py_round. replace (10 ^ 1) with 10 by ring. reflexivity. Qed.

Lemma py_round_3 (x : R) : Py.py_round x 3 = IZR (Py.round_half_even (x * 1000)) / 1000.
Proof. unfold Py.py_round. replace (10 ^ 3) with 1000 by ring. reflexivity. Qed.

Lemma geo_score (k : Z) (lat : R) :
  0 < lat <= 2 / 10000000 ->
  let d := haversine_distance 0 0 lat 0 in
  score_rows (geo_row 1 0) (geo_row k lat) =
  (0.5 * 0 + 0.5 * Rmax 0 (1 - d / 1000), [DistanceScore d (Rmax 0 (1 - d / 1000))]).
Proof.
  intros Hlat d. pose proof (geo_distance_bounds lat Hlat) as Hd. fold d in Hd.
  unfold score_rows, compute_match_score. simpl.
  rewrite tokenize_x, jaccard_empty_empty.
  destruct (Rlt_dec 0 0); [lra|].
  fold d. destruct (Rlt_dec d 1000); [reflexivity|lra].
Qed.

Lemma geo_score_value (lat : R) :
  0 < lat <= 2 / 10000000 ->
  0.5 * 0 + 0.5 * Rmax 0 (1 - haversine_distance 0 0 lat 0 / 1000) =
  1 / 2 - haversine_distance 0 0 lat 0 / 2000.
Proof.
  intros Hlat. pose proof (geo_distance_bounds lat Hlat) as Hd.
  unfold Rmax. destruct (Rle_dec 0 _); lra.
Qed.

Lemma geo_score_rounded (lat : R) :
  0 < lat <= 2 / 10000000 ->
  Py.py_round (1 / 2 - haversine_distance 0 0 lat 0 / 2000) 3 = 1 / 2.
Proof.
  intros Hlat. pose proof (geo_distance_bounds lat Hlat) as Hd.
  rewrite py_round_3, (round_half_even_up _ 499) by lra. rewrite plus_IZR. lra.
Qed.

Lemma geo_distance_rounded (lat : R) :
  0 < lat <= 2 / 10000000 ->
  Py.py_round (haversine_distance 0 0 lat 0) 1 = 0.
Proof.
  intros Hlat. pose proof (geo_distance_bounds lat Hlat) as Hd.
  rewrite py_round_1, (round_half_even_down _ 0) by lra. lra.
Qed.

Lemma geo_distance_mono : haversine_distance 0 0 (1 / 10000000) 0 < haversine_distance 0 0 (2 / 10000000) 0.
Proof.
  rewrite !haversine_meridian by lra. unfold EARTH_RADIUS, radians.
  pose proof PI_RGT_0. nra.
Qed.

Lemma geo_match_row (k : Z) (lat : R) :
  0 < lat <= 2 / 10000000 ->
  exists c, match_row 1 0 (geo_row 1 0) (geo_row k lat) = [c] /\
    mc_candidate_id c = k /\ mc_score c = 1 / 2.
Proof.
  intros Hlat. unfold match_row. rewrite geo_score by exact Hlat.
  rewrite geo_score_value by exact Hlat.
  pose proof (geo_distance_bounds lat Hlat).
  destruct (Rle_dec 0 _); [|lra].
  eexists. split; [reflexivity|]. split; [reflexivity|].
  simpl. apply geo_score_rounded, Hlat.
Qed.

(** Claim C7 (counterexample): on [geo_entries], [find_matches 1] lists
    entry 3 before entry 2 although entry 2 has the higher raw
    [compute_match_score]: both round to 0.5, and the sort key is the
    rounded score. *)
Lemma find_matches_raw_score_order :
  exists a b,
    find_matches geo_entries 1%Z 5%Z 0 = inr [a; b] /\
    mc_candidate_id a = 3%Z /\ mc_candidate_id b = 2%Z /\
    mc_score a = mc_score b /\
    fst (score_rows (geo_row 1 0) (geo_row 3 (2 / 10000000))) <
    fst (score_rows (geo_row 1 0) (geo_row 2 (1 / 10000000))).
Proof.
  destruct (geo_match_row 3 (2 / 10000000)) as [a [Ha [Hida Hsa]]]; [lra|].
  destruct (geo_match_row 2 (1 / 10000000)) as [b [Hb [Hidb Hsb]]]; [lra|].
  exists a, b. split; [|split; [exact Hida|split; [exact Hidb|split; [congruence|]]]].
  - unfold find_matches.
    change (select_entry geo_entries 1) with (Some (geo_row 1 0)). cbv iota beta.
    change (match_scan geo_entries 1)
      with [geo_row 3 (2 / 10000000); geo_row 2 (1 / 10000000)].
    cbn [flat_map]. rewrite Ha, Hb. cbn [app].
    unfold Py.sort_desc. cbn [fold_left Py.insert_desc].
    destruct (Rlt_dec (mc_score a) (mc_score b)); [lra|].
    reflexivity.
  - rewrite !geo_score by lra. simpl fst.
    rewrite !geo_score_value by lra. pose proof geo_distance_mono. lra.
Qed.

Lemma geo_nearby_row (k : Z) (lat : R) :
  0 < lat <= 2 / 10000000 ->
  exists n, nearby_row [] 500 (geo_row 1 0) 0 0 (geo_row k lat) = [n] /\
    ns_entry_id n = k /\ ns_distance_meters n = 0.
Proof.
  intros Hlat. pose proof (geo_distance_bounds lat Hlat).
  unfold nearby_row. simpl.
  destruct (Rlt_dec 500 (haversine_distance 0 0 lat 0)); [lra|].
  destruct (score_rows (geo_row 1 0) (geo_row k lat)).
  eexists. split; [reflexivity|]. split; [reflexivity|].
  simpl. apply geo_distance_rounded, Hlat.
Qed.

(** Claim C4 (counterexample): on [geo_entries], [find_nearby_sightings 1]
    lists entry 3 before entry 2 although entry 3 is farther from entry 1:
    both distances round to 0.0 m, and the sort key is the rounded
    distance. *)
Lemma find_nearby_raw_distance_order :
  exists a b,
    find_nearby_sightings geo_entries [] 1%Z 500%Z 10%Z true = inr [a; b] /\
    ns_entry_id a = 3%Z /\ ns_entry_id b = 2%Z /\
    ns_distance_meters a = ns_distance_meters b /\
    haversine_distance 0 0 (1 / 10000000) 0 < haversine_distance 0 0 (2 / 10000000) 0.
Proof.
  destruct (geo_nearby_row 3 (2 / 10000000)) as [a [Ha [Hida Hda]]]; [lra|].
  destruct (geo_nearby_row 2 (1 / 10000000)) as [b [Hb [Hidb Hdb]]]; [lra|].
  exists a, b. split; [|split; [exact Hida|split; [exact Hidb|split; [congruence|]]]].
  - unfold find_nearby_sightings.
    change (select_entry geo_entries 1) with (Some (geo_row 1 0)). cbv iota beta.
    change (e_location_lat (geo_row 1 0)) with (Some 0).
    change (e_location_lon (geo_row 1 0)) with (Some 0). cbv iota beta.
    change (nearby_scan geo_entries 1 true)
      with [geo_row 3 (2 / 10000000); geo_row 2 (1 / 10000000)].
    cbn [flat_map]. rewrite Ha, Hb. cbn [app].
    unfold Py.sort_asc. cbn [fold_left Py.insert_asc].
    destruct (Rlt_dec (ns_distance_meters b) (ns_distance_meters a)); [lra|].
    reflexivity.
  - exact geo_distance_mono.
Qed.

End GeoExample.

Module TextExample.

Import Store Scorer Similarity Search SimilarityFacts NumFacts GeoExample.

(** Entries without location or coordinates. *)
Definition text_row (id : Z) (text : string) : entry_row :=
  mk_entry id text "2024-01-01T00:00:00Z" None None None None None None.

Definition text_entries : list entry_row :=
  [text_row 1 "apple"; text_row 2 "apple berry cherry"].

Lemma text_sim_third :
  jaccard_similarity (Text.tokenize_keywords "apple")
    (Text.tokenize_keywords "apple berry cherry") = 1 / 3.
Proof.
  assert (Ha : Text.tokenize_keywords "apple" = {["apple"]}) by (vm_compute; reflexivity).
  assert (Hb : Text.tokenize_keywords "apple berry cherry" = {["apple"; "berry"; "cherry"]})
    by (vm_compute; reflexivity).
  rewrite Ha, Hb, jaccard_nonempty_union.
  - assert (Hi : size ({["apple"]} ∩ {["apple"; "berry"; "cherry"]} : gset string) = 1%nat)
      by (vm_compute; reflexivity).
    assert (Hu : size ({["apple"]} ∪ {["apple"; "berry"; "cherry"]} : gset string) = 3%nat)
      by (vm_compute; reflexivity).
    rewrite Hi, Hu. simpl. field.
  - intros H. assert (Hin : "apple" ∈ ({["apple"]} ∪ {["apple"; "berry"; "cherry"]} : gset string))
      by set_solver.
    rewrite H in Hin. set_solver.
Qed.

Lemma text_score :
  fst (score_rows (text_row 1 "apple") (text_row 2 "apple berry cherry")) = 7 / 30.
Proof.
  unfold score_rows, compute_match_score. simpl.
  rewrite text_sim_third.
  destruct (Rlt_dec 0 (1 / 3)); simpl; lra.
Qed.

(** Claim C2 (counterexample): on [text_entries], [find_matches 1] with
    [min_score = 0.2333] returns entry 2, whose raw score [7/30 = 0.2333...]
    passes the threshold but is reported as [0.233 < min_score]. *)
Lemma find_matches_reported_score_below_min :
  exists c,
    find_matches text_entries 1%Z 5%Z (2333 / 10000) = inr [c] /\
    mc_candidate_id c = 2%Z /\ mc_score c = 233 / 1000 /\ mc_score c < 2333 / 10000.
Proof.
  assert (Hr : Py.py_round (7 / 30) 3 = 233 / 1000).
  { rewrite py_round_3, (round_half_even_down _ 233) by lra. lra. }
  unfold find_matches.
  change (select_entry text_entries 1) with (Some (text_row 1 "apple")). cbv iota beta.
  change (match_scan text_entries 1) with [text_row 2 "apple berry cherry"].
  cbn [flat_map]. unfold match_row.
  pose proof text_score as Hs.
  destruct (score_rows (text_row 1 "apple") (text_row 2 "apple berry cherry"))
    as [score reasons]. simpl in Hs. subst score.
  destruct (Rle_dec (2333 / 10000) (7 / 30)); [|lra].
  eexists. split; [reflexivity|]. simpl. rewrite Hr. split; [reflexivity|]. split; [reflexivity|lra].
Qed.

Lemma text_find_matches_zero :
  exists c, find_matches text_entries 1%Z 5%Z 0 = inr [c].
Proof.
  unfold find_matches.
  change (select_entry text_entries 1) with (Some (text_row 1 "apple")). cbv iota beta.
  change (match_scan text_entries 1) with [text_row 2 "apple berry cherry"].
  cbn [flat_map]. unfold match_row.
  pose proof text_score as Hs.
  destruct (score_rows (text_row 1 "apple") (text_row 2 "apple berry cherry"))
    as [score reasons]. simpl in Hs. subst score.
  destruct (Rle_dec 0 (7 / 30)); [|lra].
  eexists. reflexivity.
Qed.

(** Witness of [MatchesFacts.find_matches_order]: its hypotheses hold on
    [text_entries] (distinct ids, and a search that succeeds). *)
Lemma find_matches_order_witness :
  exists result,
    NoDup (map e_id text_entries) /\
    find_matches text_entries 1%Z 5%Z 0 = inr result /\
    StronglySorted (SortFacts.lex_desc mc_score mc_candidate_id) result.
Proof.
  destruct text_find_matches_zero as [c Hc].
  exists [c].
  assert (Hnd : NoDup (map e_id text_entries)) by (simpl; repeat constructor; set_solver).
  split; [exact Hnd|]. split; [exact Hc|].
  exact (MatchesFacts.find_matches_order text_entries 1%Z 5%Z 0 [c] Hnd Hc).
Defined.

End TextExample.

(* ================================================================== *)
(** * Properties of the rest of the backend *)

Module AnalyzerFacts.

Import Text Analyzers.

Lemma length_list_ascii_of_string (s : string) :
  length (list_ascii_of_string s) = String.length s.
Proof. induction s as [|c s IH]; simpl; [reflexivity|by rewrite IH]. Qed.

Lemma length_string_of_list_ascii (l : list ascii) :
  String.length (string_of_list_ascii l) = length l.
Proof. induction l as [|c l IH]; simpl; [reflexivity|by rewrite IH]. Qed.

Lemma ustr_length (s : string) : length (ustr s) = String.length s.
Proof. unfold ustr. by rewrite length_map, length_list_ascii_of_string. Qed.

Lemma rstrip_length (s : string) : (String.length (rstrip s) <= String.length s)%nat.
Proof.
  induction s as [|c s IH]; simpl; [lia|].
  destruct (is_py_space c && String.eqb (rstrip s) ""); simpl; lia.
Qed.

Lemma str_slice_upto_length (s : string) (k : Z) :
  (0 <= k)%Z -> (String.length (str_slice_upto s k) <= Z.to_nat k)%nat.
Proof.
  intros Hk. unfold str_slice_upto. rewrite length_string_of_list_ascii.
  apply SortFacts.slice_upto_length, Hk.
Qed.

(** ** Counting *)

(** The number of occurrences of [x] in [l]. *)
Definition occurrences (x : string) (l : list string) : nat :=
  length (List.filter (String.eqb x) l).

(** The count a [Counter] holds for [x] ([0] when absent). *)
Definition counter_get (x : string) (c : list (string * nat)) : nat :=
  match List.find (fun p => String.eqb (fst p) x) c with Some p => snd p | None => 0%nat end.

Lemma counter_add_keys (w : string) (c : list (string * nat)) (x : string) :
  In x (map fst (counter_add w c)) <-> x = w \/ In x (map fst c).
Proof.
  induction c as [|[y n] c IH]; simpl; [intuition congruence|].
  destruct (String.eqb_spec y w) as [->|Hne]; simpl; [intuition congruence|].
  rewrite IH. tauto.
Qed.

Lemma counter_add_nodup (w : string) (c : list (string * nat)) :
  NoDup (map fst c) -> NoDup (map fst (counter_add w c)).
Proof.
  induction c as [|[y n] c IH]; simpl; intros Hnd.
  - repeat constructor. set_solver.
  - inversion Hnd as [|? ? Hnotin Hnd']; subst.
    destruct (String.eqb_spec y w) as [->|Hne]; simpl.
    + constructor; assumption.
    + constructor; [|apply IH, Hnd'].
      rewrite list_elem_of_In, counter_add_keys. rewrite list_elem_of_In in Hnotin.
      intros [->|H]; [congruence|exact (Hnotin H)].
Qed.

Lemma counter_add_get (w : string) (c : list (string * nat)) (x : string) :
  counter_get x (counter_add w c) =
  (counter_get x c + if String.eqb x w then 1 else 0)%nat.
Proof.
  unfold counter_get. induction c as [|[y n] c IH]; simpl.
  - rewrite String.eqb_sym. destruct (String.eqb x w); reflexivity.
  - destruct (String.eqb_spec y w) as [->|Hne]; simpl.
    + destruct (String.eqb_spec w x) as [->|Hwx]; simpl.
      * rewrite String.eqb_refl. lia.
      * destruct (String.eqb_spec x w); [congruence|lia].
    + destruct (String.eqb_spec y x) as [->|Hyx]; simpl.
      * destruct (String.eqb_spec x w); [congruence|lia].
      * exact IH.
Qed.

Lemma counter_get_in (c : list (string * nat)) (x : string) (n : nat) :
  NoDup (map fst c) -> In (x, n) c -> counter_get x c = n.
Proof.
  unfold counter_get. induction c as [|[y m] c IH]; simpl; intros Hnd Hin; [contradiction|].
  inversion Hnd as [|? ? Hnotin Hnd']; subst.
  destruct Hin as [Heq|Hin].
  - injection Heq as -> ->. simpl. by rewrite String.eqb_refl.
  - simpl. destruct (String.eqb_spec y x) as [->|Hne]; [|apply IH; assumption].
    exfalso. apply Hnotin. apply list_elem_of_In. change x with (fst (x, n)). by apply in_map.
Qed.

Lemma occurrences_snoc (x w : string) (pre : list string) :
  occurrences x (pre ++ [w]) = (occurrences x pre + if String.eqb x w then 1 else 0)%nat.
Proof.
  unfold occurrences. rewrite List.filter_app, length_app. simpl.
  destruct (String.eqb x w); reflexivity.
Qed.

(** What a [Counter] built from [pre] holds. *)
Definition counts_of (c : list (string * nat)) (pre : list string) : Prop :=
  NoDup (map fst c) /\
  (forall x, counter_get x c = occurrences x pre) /\
  (forall x, In x (map fst c) <-> In x pre).

Lemma counter_fold (ts pre : list string) (c : list (string * nat)) :
  counts_of c pre ->
  counts_of (fold_left (fun c t => counter_add t c) ts c) (pre ++ ts).
Proof.
  revert pre c. induction ts as [|w ts IH]; intros pre c Hc; simpl.
  - by rewrite app_nil_r.
  - replace (pre ++ w :: ts) with ((pre ++ [w]) ++ ts) by (by rewrite <- app_assoc).
    apply IH. destruct Hc as [Hnd [Hget Hkeys]]. split; [|split].
    + apply counter_add_nodup, Hnd.
    + intros x. by rewrite counter_add_get, occurrences_snoc, Hget.
    + intros x. rewrite counter_add_keys, Hkeys, in_app_iff. simpl. intuition.
Qed.

Lemma counter_counts (ts : list string) : counts_of (counter ts) ts.
Proof.
  unfold counter. change ts with ([] ++ ts) at 2. apply counter_fold.
  split; [constructor|]. split; [reflexivity|]. simpl. tauto.
Qed.

(** ** The stable sort by count *)

Lemma insert_count_perm (x : string * nat) (l : list (string * nat)) :
  Permutation (insert_count_desc x l) (x :: l).
Proof.
  induction l as [|y l IH]; simpl; [reflexivity|].
  destruct (snd y <? snd x)%nat; [reflexivity|].
  rewrite IH. apply perm_swap.
Qed.

Lemma sort_count_perm (l : list (string * nat)) : Permutation (sort_count_desc l) l.
Proof.
  unfold sort_count_desc.
  assert (Hgen : forall acc, Permutation
            (fold_left (fun acc x => insert_count_desc x acc) l acc) (l ++ acc)).
  { induction l as [|x l IH]; intros acc; simpl; [reflexivity|].
    rewrite IH, insert_count_perm. symmetry. apply Permutation_middle. }
  rewrite Hgen. by rewrite app_nil_r.
Qed.

Definition count_desc (a b : string * nat) : Prop := (snd b <= snd a)%nat.

Lemma insert_count_sorted (x : string * nat) (l : list (string * nat)) :
  StronglySorted count_desc l -> StronglySorted count_desc (insert_count_desc x l).
Proof.
  unfold count_desc. induction l as [|y l IH]; intros Hs; simpl.
  - repeat constructor.
  - apply StronglySorted_inv in Hs as [Hs Hy].
    destruct (Nat.ltb_spec (snd y) (snd x)) as [Hlt|Hge].
    + constructor; [constructor; assumption|].
      constructor; [lia|]. eapply Forall_impl; [exact Hy|]. simpl. intros a Ha. lia.
    + constructor; [apply IH, Hs|].
      apply List.Forall_forall. intros z Hz.
      apply (Permutation_in _ (insert_count_perm x l)) in Hz as [<-|Hz]; [lia|].
      rewrite List.Forall_forall in Hy. apply Hy, Hz.
Qed.

Lemma sort_count_sorted (l : list (string * nat)) :
  StronglySorted count_desc (sort_count_desc l).
Proof.
  unfold sort_count_desc.
  assert (Hgen : forall acc, StronglySorted count_desc acc ->
            StronglySorted count_desc
              (fold_left (fun acc x => insert_count_desc x acc) l acc)).
  { induction l as [|x l IH]; intros acc Hacc; simpl; [exact Hacc|].
    apply IH, insert_count_sorted, Hacc. }
  apply Hgen. constructor.
Qed.

(** ** List helpers *)

Lemma take_map {A B} (f : A -> B) (n : nat) (l : list A) :
  take n (map f l) = map f (take n l).
Proof.
  revert l. induction n as [|n IH]; intros [|x l]; simpl; try reflexivity.
  by rewrite IH.
Qed.

Lemma NoDup_take_in {A} (n : nat) (l : list A) : NoDup l -> NoDup (take n l).
Proof.
  revert l. induction n as [|n IH]; intros [|x l] Hnd; simpl; [constructor|constructor|constructor|].
  inversion Hnd as [|? ? Hnotin Hnd']; subst. constructor; [|apply IH, Hnd'].
  intros Hin. apply Hnotin. apply list_elem_of_In. apply list_elem_of_In in Hin.
  apply (SortFacts.in_take_in n), Hin.
Qed.

Lemma sorted_app_rel {A} (Rel : A -> A -> Prop) (l1 l2 : list A) (a b : A) :
  StronglySorted Rel (l1 ++ l2) -> In a l1 -> In b l2 -> Rel a b.
Proof.
  induction l1 as [|x l1 IH]; simpl; intros Hs Ha Hb; [contradiction|].
  apply StronglySorted_inv in Hs as [Hs Hx].
  destruct Ha as [<-|Ha]; [|apply IH; assumption].
  rewrite List.Forall_forall in Hx. apply Hx, in_app_iff. right. exact Hb.
Qed.

Lemma sorted_map {A B} (Rel : A -> A -> Prop) (Rel' : B -> B -> Prop) (f : A -> B)
    (l : list A) :
  (forall a b, In a l -> In b l -> Rel a b -> Rel' (f a) (f b)) ->
  StronglySorted Rel l -> StronglySorted Rel' (map f l).
Proof.
  induction l as [|x l IH]; intros Hf Hs; simpl; [constructor|].
  apply StronglySorted_inv in Hs as [Hs Hx]. constructor.
  - apply IH; [intros a b Ha Hb; apply Hf; right; assumption|exact Hs].
  - apply List.Forall_forall. intros y Hy. apply in_map_iff in Hy as [b [<- Hb]].
    apply Hf; [left; reflexivity|right; exact Hb|].
    rewrite List.Forall_forall in Hx. apply Hx, Hb.
Qed.

(** The items [baseline_tags] picks from, sorted. *)
Lemma sorted_counts (ts : list string) :
  let S := sort_count_desc (counter ts) in
  NoDup (map fst S) /\ StronglySorted count_desc S /\
  (forall x n, In (x, n) S -> n = occurrences x ts) /\
  (forall x, In x (map fst S) <-> In x ts).
Proof.
  intros S. destruct (counter_counts ts) as [Hnd [Hget Hkeys]].
  assert (Hperm : Permutation S (counter ts)) by apply sort_count_perm.
  assert (HndS : NoDup (map fst S)).
  { assert (Hp : map fst S ≡ₚ map fst (counter ts)) by (by apply Permutation_map).
    rewrite Hp. exact Hnd. }
  split; [exact HndS|]. split; [apply sort_count_sorted|]. split.
  - intros x n Hin. rewrite <- Hget. symmetry. apply counter_get_in; [exact Hnd|].
    apply (Permutation_in _ Hperm), Hin.
  - intros x. rewrite <- Hkeys. split; apply Permutation_in; by apply Permutation_map.
Qed.

Lemma baseline_tags_nodup_length (text : string) (k : Z) :
  NoDup (baseline_tags text k) /\ (length (baseline_tags text k) <= Z.to_nat k)%nat.
Proof.
  destruct (sorted_counts (tag_tokens text)) as [HndS _].
  unfold baseline_tags, most_common. rewrite <- take_map. split.
  - apply NoDup_take_in, HndS.
  - rewrite length_take. lia.
Qed.

End AnalyzerFacts.

Module AnalyzerTheorems.

Import Text Analyzers AnalyzerFacts.

(** [baseline_summary(text, max_len)] with [max_len >= 1] is at most
    [max_len] characters long. When the whitespace-normalised text fits in
    [max_len] characters it is returned as it is; otherwise the result is
    its first [max_len - 1] characters, right-stripped, followed by the
    ellipsis. *)
Theorem baseline_summary_length (text : string) (max_len : Z) :
  (1 <= max_len)%Z ->
  let cleaned := py_join " " (py_split (strip text)) in
  (Z.of_nat (length (baseline_summary text max_len)) <= max_len)%Z /\
  ((Z.of_nat (String.length cleaned) <= max_len)%Z ->
   baseline_summary text max_len = ustr cleaned) /\
  ((max_len < Z.of_nat (String.length cleaned))%Z ->
   baseline_summary text max_len =
     ustr (rstrip (str_slice_upto cleaned (max_len - 1))) ++ [ELLIPSIS] /\
   last (baseline_summary text max_len) = Some ELLIPSIS).
Proof.
  intros Hk cleaned. unfold baseline_summary. fold cleaned.
  destruct (Z.leb_spec (Z.of_nat (String.length cleaned)) max_len) as [Hle|Hgt].
  - rewrite ustr_length. split; [exact Hle|]. split; [reflexivity|]. lia.
  - split; [|split; [lia|split; [reflexivity|apply last_snoc]]].
    rewrite length_app, ustr_length. simpl.
    pose proof (rstrip_length (str_slice_upto cleaned (max_len - 1))).
    pose proof (str_slice_upto_length cleaned (max_len - 1)).
    lia.
Qed.

Lemma baseline_summary_length_witness :
  (1 <= 5)%Z /\
  baseline_summary "hello  wonderful world" 5 =
    ustr (rstrip (str_slice_upto "hello wonderful world" 4)) ++ [ELLIPSIS].
Proof.
  split; [lia|].
  pose proof (baseline_summary_length "hello  wonderful world" 5 ltac:(lia)) as H.
  cbv zeta in H. destruct H as [_ [_ H]].
  exact (proj1 (H ltac:(vm_compute; reflexivity))).
Defined.

(** [baseline_tags(text, k)] returns distinct non-stopword tokens of the
    lower-cased text, at most [k] of them, in non-increasing order of
    their number of occurrences. *)
Theorem baseline_tags_spec (text : string) (k : Z) :
  let tags := baseline_tags text k in
  NoDup tags /\ (length tags <= Z.to_nat k)%nat /\
  Forall (fun t => In t (findall_keywords (str_lower text)) /\ is_stopword t = false) tags /\
  StronglySorted (fun a b => occurrences b (tag_tokens text) <= occurrences a (tag_tokens text))%nat
    tags.
Proof.
  intros tags.
  destruct (sorted_counts (tag_tokens text)) as [HndS [Hsorted [Hcount Hkeys]]].
  unfold tags, baseline_tags, most_common.
  destruct (baseline_tags_nodup_length text k) as [Hnd Hlen].
  split; [exact Hnd|]. split; [exact Hlen|]. rewrite <- take_map. split.
  - apply List.Forall_forall. intros t Ht.
    apply SortFacts.in_take_in, Hkeys in Ht. unfold tag_tokens in Ht.
    apply filter_In in Ht as [Hin Hstop]. split; [exact Hin|]. by apply negb_true_iff.
  - rewrite take_map. apply (sorted_map count_desc); [|apply SortFacts.take_sorted, Hsorted].
    intros [a na] [b nb] Ha Hb. unfold count_desc. simpl.
    apply SortFacts.in_take_in in Ha, Hb.
    rewrite <- (Hcount a na Ha), <- (Hcount b nb Hb). tauto.
Qed.

(** A token of the text that [baseline_tags] leaves out occurs no more
    often than any tag it returns. *)
Theorem baseline_tags_most_frequent (text : string) (k : Z) (t w : string) :
  In t (baseline_tags text k) ->
  In w (tag_tokens text) ->
  ~ In w (baseline_tags text k) ->
  (occurrences w (tag_tokens text) <= occurrences t (tag_tokens text))%nat.
Proof.
  intros Ht Hw Hnw.
  destruct (sorted_counts (tag_tokens text)) as [HndS [Hsorted [Hcount Hkeys]]].
  set (S := sort_count_desc (counter (tag_tokens text))) in *.
  unfold baseline_tags, most_common in Ht, Hnw. fold S in Ht, Hnw.
  apply in_map_iff in Ht as [[t' nt] [Ht' Hpt]]. simpl in Ht'. subst t'.
  apply Hkeys, in_map_iff in Hw as [[w' nw] [Hw' Hqw]]. simpl in Hw'. subst w'.
  assert (Hdrop : In (w, nw) (drop (Z.to_nat k) S)).
  { rewrite <- (take_drop (Z.to_nat k) S), in_app_iff in Hqw.
    destruct Hqw as [Hq|Hq]; [|exact Hq].
    exfalso. apply Hnw. change w with (fst (w, nw)). by apply in_map. }
  rewrite <- (take_drop (Z.to_nat k) S) in Hsorted.
  pose proof (sorted_app_rel _ _ _ _ _ Hsorted Hpt Hdrop) as Hle. unfold count_desc in Hle.
  simpl in Hle.
  rewrite <- (Hcount w nw), <- (Hcount t nt); [exact Hle| |].
  - apply (SortFacts.in_take_in (Z.to_nat k)), Hpt.
  - rewrite <- (take_drop (Z.to_nat k) S), in_app_iff. right. exact Hdrop.
Qed.

Lemma baseline_tags_most_frequent_witness :
  In "cat" (baseline_tags "cat dog cat bird" 1) /\
  In "dog" (tag_tokens "cat dog cat bird") /\
  ~ In "dog" (baseline_tags "cat dog cat bird" 1) /\
  (occurrences "dog" (tag_tokens "cat dog cat bird") <=
   occurrences "cat" (tag_tokens "cat dog cat bird"))%nat.
Proof.
  assert (H1 : In "cat" (baseline_tags "cat dog cat bird" 1)) by (vm_compute; left; reflexivity).
  assert (H2 : In "dog" (tag_tokens "cat dog cat bird")) by (vm_compute; right; left; reflexivity).
  assert (H3 : ~ In "dog" (baseline_tags "cat dog cat bird" 1)).
  { vm_compute. intros [H|[]]. discriminate H. }
  split; [exact H1|]. split; [exact H2|]. split; [exact H3|].
  exact (baseline_tags_most_frequent "cat dog cat bird" 1 "cat" "dog" H1 H2 H3).
Defined.

End AnalyzerTheorems.

Module CircuitFacts.

Import Circuit.

(** The invariants [reachable] keeps, to be instantiated by the theorems. *)
Definition breaker_ok (t : Z) (rt : R) (m : Z) (cb : CircuitBreaker) : Prop :=
  failure_threshold cb = t /\ recovery_timeout cb = rt /\ half_open_max_calls cb = m /\
  (0 <= failure_count cb)%Z /\
  (state cb = CLOSED -> (failure_count cb < t)%Z) /\
  (state cb <> CLOSED -> last_failure_time cb <> None) /\
  (state cb = HALF_OPEN -> (0 <= half_open_calls cb < m)%Z).

Ltac state_hyps :=
  repeat match goal with
  | H : ?a = ?a -> _ |- _ => specialize (H eq_refl)
  | H : ?a <> ?a -> _ |- _ => clear H
  | H : ?a <> ?b -> _ |- _ => specialize (H ltac:(discriminate))
  | H : ?a = ?b -> _ |- _ => clear H
  end.

Ltac close_ok := unfold breaker_ok; simpl; repeat split; intros; try lia; try congruence.

Lemma breaker_ok_reachable (t m : Z) (rt : R) (cb : CircuitBreaker) :
  (1 <= t)%Z -> (1 <= m)%Z -> reachable (new_breaker t rt m) cb -> breaker_ok t rt m cb.
Proof.
  intros Ht Hm Hr. induction Hr as [|cb now Hr IH|cb Hr IH|cb now Hr IH].
  - close_ok.
  - destruct cb as [ft rto hm fc lft st hc].
    destruct IH as (Hft & Hrt & Hhm & H0 & Hcl & Hlf & Hho); simpl in *; subst.
    unfold can_execute; simpl.
    destruct st; state_hyps; simpl; [close_ok| |close_ok].
    destruct lft as [tf|]; [|close_ok].
    destruct (Rlt_dec rt (now - tf)); close_ok.
  - destruct cb as [ft rto hm fc lft st hc].
    destruct IH as (Hft & Hrt & Hhm & H0 & Hcl & Hlf & Hho); simpl in *; subst.
    unfold record_success; simpl.
    destruct st; state_hyps; simpl;
      [close_ok|close_ok|destruct (Z.leb_spec m (hc + 1)); close_ok].
  - destruct cb as [ft rto hm fc lft st hc].
    destruct IH as (Hft & Hrt & Hhm & H0 & Hcl & Hlf & Hho); simpl in *; subst.
    unfold record_failure; simpl.
    destruct (Z.leb_spec t (fc + 1)); destruct st; state_hyps; close_ok.
Qed.

Lemma last_cons_opt {A} (x : A) (l : list A) :
  last (x :: l) = match last l with Some y => Some y | None => Some x end.
Proof.
  revert x. induction l as [|y l IH]; intros x; [reflexivity|].
  change (last (x :: y :: l)) with (last (y :: l)). rewrite IH.
  destruct (last l); reflexivity.
Qed.

(** [record_failure] called at each instant of [times], in order. *)
Lemma record_failures_fold (times : list R) (cb : CircuitBreaker) :
  let cb' := fold_left record_failure times cb in
  failure_threshold cb' = failure_threshold cb /\
  recovery_timeout cb' = recovery_timeout cb /\
  half_open_max_calls cb' = half_open_max_calls cb /\
  failure_count cb' = (failure_count cb + Z.of_nat (length times))%Z /\
  state cb' = (if Nat.eqb (length times) 0 then state cb
               else if (failure_threshold cb <=? failure_count cb + Z.of_nat (length times))%Z
                    then OPEN else state cb) /\
  last_failure_time cb' = match last times with Some x => Some x | None => last_failure_time cb end /\
  half_open_calls cb' = half_open_calls cb.
Proof.
  revert cb. induction times as [|x times IH]; intros cb; simpl.
  - repeat split; lia.
  - destruct (IH (record_failure cb x)) as (H1 & H2 & H3 & H4 & H5 & H6 & H7).
    unfold record_failure in *; simpl in *.
    rewrite H1, H2, H3, H4, H5, H6, H7. rewrite last_cons_opt.
    repeat split; try lia.
    + destruct (length times) as [|n] eqn:Hl; simpl.
      * destruct (Z.leb_spec (failure_threshold cb) (failure_count cb + 1));
          destruct (Z.leb_spec (failure_threshold cb) (failure_count cb + Z.of_nat 1)); lia || reflexivity.
      * destruct (Z.leb_spec (failure_threshold cb) (failure_count cb + 1 + Z.of_nat (S n)));
          destruct (Z.leb_spec (failure_threshold cb) (failure_count cb + Z.of_nat (S (S n))));
          destruct (Z.leb_spec (failure_threshold cb) (failure_count cb + 1)); try lia; reflexivity.
    + destruct (last times); reflexivity.
Qed.

(** [record_success] called [n] times on a half-open breaker. *)
Lemma half_open_iter (cb : CircuitBreaker) (n : nat) :
  state cb = HALF_OPEN -> (half_open_calls cb < half_open_max_calls cb)%Z ->
  let cb' := Nat.iter n record_success cb in
  let closes := (half_open_max_calls cb <=? half_open_calls cb + Z.of_nat n)%Z in
  failure_threshold cb' = failure_threshold cb /\
  recovery_timeout cb' = recovery_timeout cb /\
  half_open_max_calls cb' = half_open_max_calls cb /\
  last_failure_time cb' = last_failure_time cb /\
  state cb' = (if closes then CLOSED else HALF_OPEN) /\
  failure_count cb' = (if closes then 0%Z else failure_count cb) /\
  half_open_calls cb' = Z.min (half_open_calls cb + Z.of_nat n) (half_open_max_calls cb).
Proof.
  intros Hst Hlt. cbv zeta. induction n as [|n IH].
  - change (Nat.iter 0 record_success cb) with cb.
    destruct (Z.leb_spec (half_open_max_calls cb) (half_open_calls cb + Z.of_nat 0)); [lia|].
    repeat split; auto; lia.
  - change (Nat.iter (S n) record_success cb) with (record_success (Nat.iter n record_success cb)).
    destruct IH as (H1 & H2 & H3 & H4 & H5 & H6 & H7).
    remember (Nat.iter n record_success cb) as c eqn:Hc_def. clear Hc_def.
    unfold record_success. rewrite H5.
    destruct (Z.leb_spec (half_open_max_calls cb) (half_open_calls cb + Z.of_nat n)) as [Hc|Hc].
    + destruct (Z.leb_spec (half_open_max_calls cb) (half_open_calls cb + Z.of_nat (S n)));
        [|lia].
      simpl. repeat split; auto; lia.
    + rewrite H7, H3. simpl.
      destruct (Z.leb_spec (half_open_max_calls cb)
                  (Z.min (half_open_calls cb + Z.of_nat n) (half_open_max_calls cb) + 1));
      destruct (Z.leb_spec (half_open_max_calls cb) (half_open_calls cb + Z.of_nat (S n)));
        try lia; simpl; repeat split; auto; lia.
Qed.

End CircuitFacts.

Module CircuitTheorems.

Import Circuit CircuitFacts.

(** A breaker built by [CircuitBreaker(t, rt, m)] with [t, m >= 1] keeps
    its parameters and, whatever calls it receives: it is closed only with
    fewer than [t] failures counted, it is open or half-open only after a
    failure time was recorded, and half-open only with fewer than [m]
    half-open calls. *)
Theorem breaker_invariant (t m : Z) (rt : R) (cb : CircuitBreaker) :
  (1 <= t)%Z -> (1 <= m)%Z -> reachable (new_breaker t rt m) cb ->
  failure_threshold cb = t /\ recovery_timeout cb = rt /\ half_open_max_calls cb = m /\
  (0 <= failure_count cb)%Z /\
  (state cb = CLOSED -> (failure_count cb < t)%Z) /\
  (state cb <> CLOSED -> last_failure_time cb <> None) /\
  (state cb = HALF_OPEN -> (0 <= half_open_calls cb < m)%Z).
Proof. apply breaker_ok_reachable. Qed.

Lemma breaker_invariant_witness :
  (1 <= 2)%Z /\ (1 <= 3)%Z /\
  reachable (new_breaker 2 60 3) (record_failure (record_failure (new_breaker 2 60 3) 1) 2) /\
  failure_threshold (record_failure (record_failure (new_breaker 2 60 3) 1) 2) = 2%Z.
Proof.
  assert (Hr : reachable (new_breaker 2 60 3)
                 (record_failure (record_failure (new_breaker 2 60 3) 1) 2))
    by (apply reach_failure, reach_failure, reach_init).
  split; [lia|]. split; [lia|]. split; [exact Hr|].
  destruct (breaker_invariant 2 3 60 _ ltac:(lia) ltac:(lia) Hr) as [H _]. exact H.
Defined.

(** On such a breaker [can_execute] refuses exactly when the breaker is
    open and at most [recovery_timeout] seconds have passed since the last
    failure; in particular a half-open breaker never refuses. *)
Theorem can_execute_refuses_iff (t m : Z) (rt : R) (cb : CircuitBreaker) (now : R) :
  (1 <= t)%Z -> (1 <= m)%Z -> reachable (new_breaker t rt m) cb ->
  fst (can_execute cb now) = false <->
  state cb = OPEN /\ exists tf, last_failure_time cb = Some tf /\ now - tf <= recovery_timeout cb.
Proof.
  intros Ht Hm Hr.
  destruct (breaker_ok_reachable t m rt cb Ht Hm Hr) as (_ & _ & Hhm & _ & _ & Hlf & Hho).
  unfold can_execute. destruct (state cb) eqn:Hst.
  - simpl. split; [discriminate|]. intros [Hs0 _]. discriminate Hs0.
  - destruct (last_failure_time cb) as [tf|] eqn:Hl; [|exfalso; apply (Hlf ltac:(discriminate)); reflexivity].
    destruct (Rlt_dec (recovery_timeout cb) (now - tf)) as [Hlt|Hge]; simpl.
    + split; [discriminate|]. intros [_ [tf' [Heq Hle]]]. injection Heq as <-. lra.
    + split; [intros _; split; [reflexivity|]; exists tf; split; [reflexivity|lra]|reflexivity].
  - simpl. specialize (Hho eq_refl). rewrite Hhm.
    destruct (Z.ltb_spec (half_open_calls cb) m); [|lia].
    split; [discriminate|]. intros [Hs0 _]. discriminate Hs0.
Qed.

Lemma can_execute_refuses_iff_witness :
  (1 <= 1)%Z /\ (1 <= 3)%Z /\
  reachable (new_breaker 1 60 3) (record_failure (new_breaker 1 60 3) 0) /\
  (fst (can_execute (record_failure (new_breaker 1 60 3) 0) 10) = false <->
   state (record_failure (new_breaker 1 60 3) 0) = OPEN /\
   exists tf, last_failure_time (record_failure (new_breaker 1 60 3) 0) = Some tf /\
     10 - tf <= recovery_timeout (record_failure (new_breaker 1 60 3) 0)).
Proof.
  assert (Hr : reachable (new_breaker 1 60 3) (record_failure (new_breaker 1 60 3) 0))
    by (apply reach_failure, reach_init).
  split; [lia|]. split; [lia|]. split; [exact Hr|].
  exact (can_execute_refuses_iff 1 3 60 _ 10 ltac:(lia) ltac:(lia) Hr).
Defined.

(** Failures recorded on a fresh breaker with [t >= 1], at the instants
    [times]: the count is the number of failures, the breaker is open from
    the [t]-th failure on and closed before, and the last failure time is
    the last instant. *)
Theorem record_failures_from_new (t m : Z) (rt : R) (times : list R) :
  (1 <= t)%Z ->
  let cb := fold_left record_failure times (new_breaker t rt m) in
  failure_count cb = Z.of_nat (length times) /\
  state cb = (if (t <=? Z.of_nat (length times))%Z then OPEN else CLOSED) /\
  last_failure_time cb = last times.
Proof.
  intros Ht cb.
  destruct (record_failures_fold times (new_breaker t rt m)) as (_ & _ & _ & H4 & H5 & H6 & _).
  unfold cb. rewrite H4, H5, H6. simpl. split; [lia|]. split.
  - destruct (length times) as [|n]; simpl.
    + destruct (Z.leb_spec t (Z.of_nat 0)); [lia|reflexivity].
    + reflexivity.
  - destruct (last times); reflexivity.
Qed.

Lemma record_failures_from_new_witness :
  (1 <= 2)%Z /\
  state (fold_left record_failure [1; 2; 3] (new_breaker 2 60 3)) = OPEN.
Proof.
  split; [lia|].
  destruct (record_failures_from_new 2 3 60 [1; 2; 3] ltac:(lia)) as (_ & H & _).
  rewrite H. reflexivity.
Defined.

(** A half-open breaker with fewer than [half_open_max_calls] half-open
    calls closes, with its failure count reset, after exactly the
    successes it lacks to reach [half_open_max_calls]; until then it stays
    half-open with its failure count unchanged. *)
Theorem half_open_recovery (cb : CircuitBreaker) (n : nat) :
  state cb = HALF_OPEN -> (half_open_calls cb < half_open_max_calls cb)%Z ->
  let cb' := Nat.iter n record_success cb in
  let closes := (half_open_max_calls cb <=? half_open_calls cb + Z.of_nat n)%Z in
  state cb' = (if closes then CLOSED else HALF_OPEN) /\
  failure_count cb' = (if closes then 0%Z else failure_count cb) /\
  half_open_calls cb' = Z.min (half_open_calls cb + Z.of_nat n) (half_open_max_calls cb).
Proof.
  intros Hst Hlt cb' closes.
  destruct (half_open_iter cb n Hst Hlt) as (_ & _ & _ & _ & H5 & H6 & H7).
  split; [exact H5|]. split; [exact H6|exact H7].
Qed.

Lemma half_open_recovery_witness :
  state (mk_breaker 5 60 3 5 (Some 0%R) HALF_OPEN 1) = HALF_OPEN /\
  (half_open_calls (mk_breaker 5 60 3 5 (Some 0%R) HALF_OPEN 1) <
   half_open_max_calls (mk_breaker 5 60 3 5 (Some 0%R) HALF_OPEN 1))%Z /\
  state (Nat.iter 2 record_success (mk_breaker 5 60 3 5 (Some 0%R) HALF_OPEN 1)) = CLOSED.
Proof.
  assert (H1 : state (mk_breaker 5 60 3 5 (Some 0%R) HALF_OPEN 1) = HALF_OPEN) by reflexivity.
  assert (H2 : (half_open_calls (mk_breaker 5 60 3 5 (Some 0%R) HALF_OPEN 1) <
                half_open_max_calls (mk_breaker 5 60 3 5 (Some 0%R) HALF_OPEN 1))%Z)
    by (simpl; lia).
  split; [exact H1|]. split; [exact H2|].
  destruct (half_open_recovery _ 2 H1 H2) as [H _]. rewrite H. reflexivity.
Defined.

End CircuitTheorems.

Module RetryFacts.

Import Retry.

Section RetryFacts.

Context {E A : Type}.
Variable func : nat -> E + A.
Variable random : nat -> R.
Variables (max_retries : Z) (base_delay max_delay exponential_base : R) (jitter : bool).

Let loop := retry_loop func random max_retries base_delay max_delay exponential_base jitter.
Let delay := backoff_delay random base_delay max_delay exponential_base jitter.

Lemma retry_loop_success (d att rem : nat) (last : option E) (a : A) :
  (forall j, (att <= j < att + d)%nat -> exists e, func j = inl e) ->
  func (att + d)%nat = inr a ->
  (Z.of_nat (att + d) <= max_retries)%Z -> (d < rem)%nat ->
  loop rem att last = (Returned a, map delay (seq att d)).
Proof.
  unfold loop, delay.
  revert att rem last. induction d as [|d IH]; intros att rem last Hfail Hok Hle Hrem;
    (destruct rem as [|rem]; [lia|]); simpl.
  - rewrite Nat.add_0_r in Hok. by rewrite Hok.
  - destruct (Hfail att ltac:(lia)) as [e He]. rewrite He.
    destruct (Z.eqb_spec (Z.of_nat att) max_retries); [lia|].
    rewrite (IH (S att) rem (Some e)); [reflexivity| | | |lia].
    + intros j Hj. apply Hfail. lia.
    + by replace (S att + d)%nat with (att + S d)%nat by lia.
    + replace (S att + d)%nat with (att + S d)%nat by lia. exact Hle.
Qed.

Lemma retry_loop_exhausted (d att rem : nat) (last : option E) (e : E) :
  (forall j, (att <= j < att + d)%nat -> exists e', func j = inl e') ->
  func (att + d)%nat = inl e ->
  Z.of_nat (att + d) = max_retries -> (d < rem)%nat ->
  loop rem att last = (Raised (Some e), map delay (seq att d)).
Proof.
  unfold loop, delay.
  revert att rem last. induction d as [|d IH]; intros att rem last Hfail Hko Heq Hrem;
    (destruct rem as [|rem]; [lia|]); simpl.
  - rewrite Nat.add_0_r in Hko, Heq. rewrite Hko, Heq, Z.eqb_refl. reflexivity.
  - destruct (Hfail att ltac:(lia)) as [e' He]. rewrite He.
    destruct (Z.eqb_spec (Z.of_nat att) max_retries); [lia|].
    rewrite (IH (S att) rem (Some e')); [reflexivity| | | |lia].
    + intros j Hj. apply Hfail. lia.
    + by replace (S att + d)%nat with (att + S d)%nat by lia.
    + rewrite <- Heq. f_equal. lia.
Qed.

Lemma retry_loop_sleeps (rem att : nat) (last : option E) :
  (att + rem)%nat = Z.to_nat (max_retries + 1) ->
  snd (loop rem att last) = map delay (seq att (length (snd (loop rem att last)))) /\
  (length (snd (loop rem att last)) <= rem - 1)%nat.
Proof.
  unfold loop, delay.
  revert att last. induction rem as [|rem IH]; intros att last Hsum; simpl; [split; [reflexivity|lia]|].
  destruct (func att) as [e|a]; simpl; [|split; [reflexivity|lia]].
  destruct (Z.eqb_spec (Z.of_nat att) max_retries) as [Heq|Hne]; simpl; [split; [reflexivity|lia]|].
  destruct (IH (S att) (Some e) ltac:(lia)) as [Hs Hl].
  destruct (retry_loop func random max_retries base_delay max_delay exponential_base jitter
              rem (S att) (Some e)) as [res sleeps] eqn:Hr. simpl in *.
  split; [f_equal; exact Hs|].
  destruct rem as [|rem]; [|lia].
  exfalso. destruct (Z.le_gt_cases 0 max_retries); lia.
Qed.

Lemma retry_loop_sleep_in (rem att : nat) (last : option E) (x : R) :
  In x (snd (loop rem att last)) -> exists j, x = delay j.
Proof.
  unfold loop, delay.
  revert att last. induction rem as [|rem IH]; intros att last Hin; simpl in Hin; [contradiction|].
  destruct (func att) as [e|a]; simpl in Hin; [|contradiction].
  destruct (Z.of_nat att =? max_retries)%Z; simpl in Hin; [contradiction|].
  destruct (retry_loop func random max_retries base_delay max_delay exponential_base jitter
              rem (S att) (Some e)) as [res sleeps] eqn:Hr.
  simpl in Hin. destruct Hin as [<-|Hin]; [eexists; reflexivity|].
  apply (IH (S att) (Some e)). rewrite Hr. exact Hin.
Qed.

End RetryFacts.

End RetryFacts.

Module RetryTheorems.

Import Retry RetryFacts.

Section RetryTheorems.

Context {E A : Type}.
Variable func : nat -> E + A.
Variable random : nat -> R.
Variables (max_retries : Z) (base_delay max_delay exponential_base : R) (jitter : bool).

(** If the first [k] calls of [func] raise and call [k] returns [a], with
    [k <= max_retries], [retry_with_backoff] returns [a] after sleeping
    the backoff delays of attempts [0 .. k-1], in order. *)
Theorem retry_first_success (k : nat) (a : A) :
  (forall j, (j < k)%nat -> exists e, func j = inl e) ->
  func k = inr a ->
  (Z.of_nat k <= max_retries)%Z ->
  retry_with_backoff func random max_retries base_delay max_delay exponential_base jitter =
  (Returned a,
   map (backoff_delay random base_delay max_delay exponential_base jitter) (seq 0 k)).
Proof.
  intros Hfail Hok Hle. unfold retry_with_backoff.
  apply (retry_loop_success func random max_retries base_delay max_delay exponential_base
           jitter k 0); simpl; try lia; [|exact Hok].
  intros j Hj. apply Hfail. lia.
Qed.

(** If every one of the [max_retries + 1] calls raises ([max_retries >= 0]),
    [retry_with_backoff] raises the exception of the last call after
    sleeping [max_retries] backoff delays, those of attempts
    [0 .. max_retries-1]. *)
Theorem retry_exhausted (e : E) :
  (0 <= max_retries)%Z ->
  (forall j, (j < Z.to_nat max_retries)%nat -> exists e', func j = inl e') ->
  func (Z.to_nat max_retries) = inl e ->
  retry_with_backoff func random max_retries base_delay max_delay exponential_base jitter =
  (Raised (Some e),
   map (backoff_delay random base_delay max_delay exponential_base jitter)
     (seq 0 (Z.to_nat max_retries))).
Proof.
  intros H0 Hfail Hko. unfold retry_with_backoff.
  apply (retry_loop_exhausted func random max_retries base_delay max_delay exponential_base
           jitter (Z.to_nat max_retries) 0); simpl; try lia; [|exact Hko].
  intros j Hj. apply Hfail. lia.
Qed.

(** Whatever [func] does, [retry_with_backoff] sleeps at most
    [max_retries] times, and its [k]-th sleep is the backoff delay of
    attempt [k]. *)
Theorem retry_sleeps_schedule :
  let sleeps :=
    snd (retry_with_backoff func random max_retries base_delay max_delay exponential_base jitter) in
  sleeps = map (backoff_delay random base_delay max_delay exponential_base jitter)
             (seq 0 (length sleeps)) /\
  (length sleeps <= Z.to_nat max_retries)%nat.
Proof.
  intros sleeps. unfold sleeps, retry_with_backoff.
  destruct (retry_loop_sleeps func random max_retries base_delay max_delay exponential_base
              jitter (Z.to_nat (max_retries + 1)) 0 None eq_refl) as [Hs Hl].
  split; [exact Hs|]. destruct (Z.le_gt_cases 0 max_retries); lia.
Qed.

(** With non-negative [base_delay], [exponential_base] and [max_delay],
    and [random.random()] in [[0, 1)], every delay [retry_with_backoff]
    sleeps lies in [[0, max_delay]] without jitter and in
    [[0, 1.25 * max_delay]] with it. *)
Theorem retry_delay_bounds (x : R) :
  0 <= base_delay -> 0 <= exponential_base -> 0 <= max_delay ->
  (forall n, 0 <= random n < 1) ->
  In x (snd (retry_with_backoff func random max_retries base_delay max_delay
               exponential_base jitter)) ->
  0 <= x <= (if jitter then 5 / 4 else 1) * max_delay.
Proof.
  intros Hb He Hm Hr Hin. unfold retry_with_backoff in Hin.
  apply retry_loop_sleep_in in Hin as [j ->].
  unfold backoff_delay.
  assert (Hp : 0 <= base_delay * exponential_base ^ j)
    by (apply Rmult_le_pos; [exact Hb|apply pow_le, He]).
  assert (Hmin : 0 <= Rmin (base_delay * exponential_base ^ j) max_delay <= max_delay).
  { split; [apply Rmin_glb; assumption|apply Rmin_r]. }
  destruct (Hr j) as [Hr0 Hr1].
  destruct jitter; [|lra].
  split; [apply Rmult_le_pos; lra|].
  apply Rle_trans with (Rmin (base_delay * exponential_base ^ j) max_delay * (5 / 4)); [|nra].
  apply Rmult_le_compat_l; lra.
Qed.

End RetryTheorems.

Lemma retry_first_success_witness :
  (forall j, (j < 1)%nat -> exists e, (fun n : nat => if Nat.eqb n 0 then inl tt else inr 7%Z) j = inl e) /\
  (fun n : nat => if Nat.eqb n 0 then inl tt else inr 7%Z) 1%nat = (inr 7%Z : unit + Z) /\
  (Z.of_nat 1 <= 2)%Z /\
  retry_with_backoff (fun n : nat => if Nat.eqb n 0 then inl tt else inr 7%Z) (fun _ => 0) 2 1 30 2 false =
  (Returned 7%Z, map (backoff_delay (fun _ => 0) 1 30 2 false) (seq 0 1)).
Proof.
  assert (H1 : forall j, (j < 1)%nat ->
            exists e, (fun n : nat => if Nat.eqb n 0 then inl tt else inr 7%Z) j = (inl e : unit + Z)).
  { intros j Hj. exists tt. replace j with 0%nat by lia. reflexivity. }
  split; [exact H1|]. split; [reflexivity|]. split; [lia|].
  exact (retry_first_success (fun n : nat => if Nat.eqb n 0 then inl tt else inr 7%Z)
           (fun _ => 0) 2 1 30 2 false 1 7%Z H1 eq_refl ltac:(lia)).
Defined.

Lemma retry_exhausted_witness :
  (0 <= 2)%Z /\
  retry_with_backoff (fun n : nat => (inl n : nat + unit)) (fun _ => 0) 2 1 30 2 false =
  (Raised (Some 2%nat), map (backoff_delay (fun _ => 0) 1 30 2 false) (seq 0 2)).
Proof.
  split; [lia|].
  apply (retry_exhausted (fun n : nat => (inl n : nat + unit)) (fun _ => 0) 2 1 30 2 false 2%nat).
  - lia.
  - intros j _. exists j. reflexivity.
  - reflexivity.
Defined.

Lemma retry_delay_bounds_witness :
  0 <= 1 /\ 0 <= 2 /\ 0 <= 30 /\ (forall n : nat, 0 <= (fun _ => 1 / 2) n < 1) /\
  In (backoff_delay (fun _ => 1 / 2) 1 30 2 true 0)
    (snd (retry_with_backoff (fun n : nat => (inl n : nat + unit)) (fun _ => 1 / 2) 2 1 30 2 true)) /\
  0 <= backoff_delay (fun _ => 1 / 2) 1 30 2 true 0 <= 5 / 4 * 30.
Proof.
  assert (Hr : forall n : nat, 0 <= (fun _ => 1 / 2) n < 1) by (intros; simpl; lra).
  assert (Hin : In (backoff_delay (fun _ => 1 / 2) 1 30 2 true 0)
    (snd (retry_with_backoff (fun n : nat => (inl n : nat + unit)) (fun _ => 1 / 2) 2 1 30 2 true)))
    by (simpl; left; reflexivity).
  split; [lra|]. split; [lra|]. split; [lra|]. split; [exact Hr|]. split; [exact Hin|].
  exact (retry_delay_bounds (fun n : nat => (inl n : nat + unit)) (fun _ => 1 / 2) 2 1 30 2 true
           _ ltac:(lra) ltac:(lra) ltac:(lra) Hr Hin).
Defined.

End RetryTheorems.

Module GeocodeFacts.

Import Circuit Retry Geocode.

Section GeocodeFacts.

Variable float_repr : R -> string.
Variable container_str : pyval -> string.
Variable exn : Type.

(** The retry wrapper of [geocode_with_fallback] returns at attempt [0]
    without sleeping. *)
Lemma retry_geocode (f : nat -> pyval * list R * R) (random : nat -> R) :
  retry_with_backoff (fun attempt => inr (f attempt) : exn + (pyval * list R * R))
    random 2 1 30 2 true = (Returned (f 0%nat), []).
Proof. reflexivity. Qed.

(** [geocode_with_fallback] by cases on [can_execute] and on the result
    of the one call of [geocode_location]. *)
Lemma geocode_with_fallback_eq (cb : CircuitBreaker) (last_call now now_fail : R)
    (location : string) (httpx_available : bool) (clock : nat -> R * R)
    (exchanges : nat -> http_exchange) (random : nat -> R) :
  geocode_with_fallback float_repr container_str exn (cb, last_call) now now_fail location
    httpx_available clock exchanges random =
  let '(ok, c1) := can_execute cb now in
  if negb ok then (fallback_to_text location "fallback", [], (c1, last_call))
  else
    let '(result, sleeps, last') :=
      geocode_location httpx_available last_call (fst (clock 0%nat)) (snd (clock 0%nat))
        (exchanges 0%nat) in
    if py_truthy result then
      match result with
      | PDict _ =>
          (mk_geo (default PNone (py_get result "display_name" PNone))
             (default PNone (py_get result "lat" PNone))
             (default PNone (py_get result "lon" PNone))
             (PStr (py_str float_repr container_str
                      (default PNone (py_get result "osm_id" (PStr ""))))) PNone,
           sleeps, (record_success c1, last'))
      | _ => (fallback_to_text location "error", sleeps,
              (record_failure (record_success c1) now_fail, last'))
      end
    else (fallback_to_text location "not_found", sleeps, (record_success c1, last')).
Proof.
  unfold geocode_with_fallback.
  destruct (can_execute cb now) as [[|] c1]; [|reflexivity].
  simpl negb. cbv iota beta.
  rewrite retry_geocode.
  destruct (geocode_location httpx_available last_call (fst (clock 0%nat))
              (snd (clock 0%nat)) (exchanges 0%nat)) as [[result sleeps] last'].
  rewrite app_nil_r.
  destruct (py_truthy result); [|reflexivity].
  destruct result; reflexivity.
Qed.

(** Every sleep of [geocode_location] is the rate-limit delay
    [1 - elapsed], with [elapsed < 1]. *)
Lemma geocode_location_sleeps (httpx_available : bool) (last_call t0 t1 : R)
    (ex : http_exchange) :
  snd (fst (geocode_location httpx_available last_call t0 t1 ex)) =
  if httpx_available then
    (if Rlt_dec (t0 - last_call) 1 then [1 - (t0 - last_call)] else [])
  else [].
Proof.
  unfold geocode_location. destruct httpx_available; [|reflexivity]. simpl.
  destruct ex as [|code body]; [reflexivity|].
  destruct (Z.eqb code 200); [|reflexivity].
  destruct body as [results|]; [|reflexivity].
  destruct (py_truthy results); [|reflexivity].
  destruct (py_index0 results); reflexivity.
Qed.

(** The breaker after a call: what [can_execute] left, after
    [record_success], or after [record_success] then [record_failure]. *)
Lemma geocode_breaker_cases (cb : CircuitBreaker) (last_call now now_fail : R)
    (location : string) (httpx_available : bool) (clock : nat -> R * R)
    (exchanges : nat -> http_exchange) (random : nat -> R) :
  let c1 := snd (can_execute cb now) in
  let cb' := fst (snd (geocode_with_fallback float_repr container_str exn (cb, last_call)
                         now now_fail location httpx_available clock exchanges random)) in
  (fst (can_execute cb now) = false /\ cb' = c1) \/
  (fst (can_execute cb now) = true /\
   (cb' = record_success c1 \/ cb' = record_failure (record_success c1) now_fail)).
Proof.
  cbv zeta. rewrite geocode_with_fallback_eq.
  destruct (can_execute cb now) as [[|] c1]; simpl; [right|left; auto].
  split; [reflexivity|].
  destruct (geocode_location httpx_available last_call (fst (clock 0%nat))
              (snd (clock 0%nat)) (exchanges 0%nat)) as [[result sleeps] last'].
  destruct (py_truthy result); [|left; reflexivity].
  destruct result; simpl; auto.
Qed.

(** A closed breaker with threshold at least 2 and at most one failure
    counted stays so after a call. *)
Lemma geocode_keeps_closed (cb : CircuitBreaker) (last_call now now_fail : R)
    (location : string) (httpx_available : bool) (clock : nat -> R * R)
    (exchanges : nat -> http_exchange) (random : nat -> R) :
  state cb = CLOSED -> (2 <= failure_threshold cb)%Z -> (0 <= failure_count cb <= 1)%Z ->
  let cb' := fst (snd (geocode_with_fallback float_repr container_str exn (cb, last_call)
                         now now_fail location httpx_available clock exchanges random)) in
  state cb' = CLOSED /\ (0 <= failure_count cb' <= 1)%Z /\
  failure_threshold cb' = failure_threshold cb /\ recovery_timeout cb' = recovery_timeout cb /\
  half_open_max_calls cb' = half_open_max_calls cb.
Proof.
  intros Hst Ht Hc cb'.
  destruct (geocode_breaker_cases cb last_call now now_fail location httpx_available clock
              exchanges random) as [[Hok _]|[_ [Hcb|Hcb]]];
    unfold can_execute in *; rewrite Hst in *; simpl in *; [discriminate| |];
    fold cb' in Hcb; rewrite Hcb; unfold record_success, record_failure; rewrite Hst;
    simpl.
  - repeat split; auto; lia.
  - destruct (Z.leb_spec (failure_threshold cb) (0 + 1)); [lia|].
    repeat split; auto; lia.
Qed.

End GeocodeFacts.

End GeocodeFacts.

Module GeocodeTheorems.

Import Circuit Retry Geocode GeocodeFacts.

Section GeocodeTheorems.

Variable float_repr : R -> string.
Variable container_str : pyval -> string.
Variable exn : Type.

(** [geocode_with_fallback] never retries: [geocode_location] catches
    every exception, so the backoff never sleeps and the only delay is the
    rate-limit sleep of [1 - elapsed] seconds when less than a second has
    passed since the last Nominatim call. A call the breaker refuses gives
    the ["fallback"] dict and touches nothing else. Otherwise a falsy
    result gives ["not_found"] and records a success; a truthy dict gives
    its fields with [fallback] [None] and records a success; any other
    truthy result (say the body [[1]]) makes [result.get] raise: the answer
    is ["error"], and [record_success] then [record_failure] run on the
    breaker. *)
Theorem geocode_with_fallback_outcome (cb : CircuitBreaker) (last_call now now_fail : R)
    (location : string) (httpx_available : bool) (clock : nat -> R * R)
    (exchanges : nat -> http_exchange) (random : nat -> R) :
  let '(ok, c1) := can_execute cb now in
  let '(result, _, last') :=
    geocode_location httpx_available last_call (fst (clock 0%nat)) (snd (clock 0%nat))
      (exchanges 0%nat) in
  let '(d, sleeps, (cb', last_call')) :=
    geocode_with_fallback float_repr container_str exn (cb, last_call) now now_fail location
      httpx_available clock exchanges random in
  (ok = false ->
   d = fallback_to_text location "fallback" /\ sleeps = [] /\ cb' = c1 /\
   last_call' = last_call) /\
  (ok = true ->
   sleeps = (if httpx_available then
               if Rlt_dec (fst (clock 0%nat) - last_call) 1
               then [1 - (fst (clock 0%nat) - last_call)] else []
             else []) /\
   last_call' = last' /\
   (py_truthy result = false ->
    d = fallback_to_text location "not_found" /\ cb' = record_success c1) /\
   (py_truthy result = true -> is_dict result = true ->
    g_fallback d = PNone /\ cb' = record_success c1 /\
    py_get result "display_name" PNone = Some (g_display_name d) /\
    py_get result "lat" PNone = Some (g_lat d) /\
    py_get result "lon" PNone = Some (g_lon d) /\
    option_map (fun v => PStr (py_str float_repr container_str v))
      (py_get result "osm_id" (PStr "")) = Some (g_osm_id d)) /\
   (py_truthy result = true -> is_dict result = false ->
    d = fallback_to_text location "error" /\
    cb' = record_failure (record_success c1) now_fail)).
Proof.
  rewrite geocode_with_fallback_eq.
  pose proof (geocode_location_sleeps httpx_available last_call (fst (clock 0%nat))
                (snd (clock 0%nat)) (exchanges 0%nat)) as Hsl.
  destruct (can_execute cb now) as [ok c1].
  destruct (geocode_location httpx_available last_call (fst (clock 0%nat))
              (snd (clock 0%nat)) (exchanges 0%nat)) as [[result sleeps] last'].
  simpl in Hsl. subst sleeps.
  destruct ok; simpl.
  - destruct (py_truthy result) eqn:Ht; [destruct result|]; simpl;
      repeat match goal with |- _ /\ _ => split | |- _ -> _ => intro end;
      solve [reflexivity | discriminate | congruence].
  - repeat match goal with |- _ /\ _ => split | |- _ -> _ => intro end;
      solve [reflexivity | discriminate | congruence].
Qed.

(** The global [nominatim_circuit] never opens, whatever the calls and
    their answers: it stays closed with at most one failure counted,
    because every failure [geocode_with_fallback] records follows a
    [record_success] that resets the count. *)
Theorem nominatim_circuit_never_opens (last_call : R) (calls : list geocode_call) :
  let cb := fst (geocode_after float_repr container_str exn (nominatim_circuit, last_call)
                   calls) in
  state cb = CLOSED /\ (0 <= failure_count cb <= 1)%Z /\
  failure_threshold cb = 5%Z /\ recovery_timeout cb = 60 /\ half_open_max_calls cb = 3%Z.
Proof.
  unfold geocode_after.
  assert (Hgen : forall st,
    state (fst st) = CLOSED -> (0 <= failure_count (fst st) <= 1)%Z ->
    failure_threshold (fst st) = 5%Z -> recovery_timeout (fst st) = 60 ->
    half_open_max_calls (fst st) = 3%Z ->
    let cb := fst (fold_left (fun st c =>
      snd (geocode_with_fallback float_repr container_str exn st (call_now c)
             (call_now_fail c) (call_location c) (call_httpx_available c) (call_clock c)
             (call_exchanges c) (call_random c))) calls st) in
    state cb = CLOSED /\ (0 <= failure_count cb <= 1)%Z /\
    failure_threshold cb = 5%Z /\ recovery_timeout cb = 60 /\
    half_open_max_calls cb = 3%Z).
  { induction calls as [|c calls IH]; intros [cb lc] Hs Hc Ht Hr Hm;
    cbn [fold_left]; change (fst (cb, lc)) with cb in *.
    - auto.
    - destruct (geocode_keeps_closed float_repr container_str exn cb lc (call_now c)
                  (call_now_fail c) (call_location c) (call_httpx_available c)
                  (call_clock c) (call_exchanges c) (call_random c) Hs ltac:(lia) Hc)
        as [Hs' [Hc' [Ht' [Hr' Hm']]]].
      apply IH; [exact Hs'|exact Hc'|rewrite Ht'; exact Ht|rewrite Hr'; exact Hr|
                 rewrite Hm'; exact Hm]. }
  apply Hgen; simpl; auto; lia.
Qed.

End GeocodeTheorems.

End GeocodeTheorems.

Module HaversineFacts.

Import Similarity.

Lemma sin_half_sq_sym (x y : R) : (sin ((x - y) / 2)) ^ 2 = (sin ((y - x) / 2)) ^ 2.
Proof.
  replace ((x - y) / 2) with (- ((y - x) / 2)) by field.
  rewrite sin_neg. ring.
Qed.

Lemma haversine_sym (lat1 lon1 lat2 lon2 : R) :
  haversine_distance lat1 lon1 lat2 lon2 = haversine_distance lat2 lon2 lat1 lon1.
Proof.
  unfold haversine_distance.
  rewrite (sin_half_sq_sym (radians lat2)), (sin_half_sq_sym (radians lon2)).
  rewrite (Rmult_comm (cos (radians lat1)) (cos (radians lat2))). reflexivity.
Qed.

Lemma haversine_same (lat lon : R) : haversine_distance lat lon lat lon = 0.
Proof.
  unfold haversine_distance. rewrite !Rminus_diag.
  replace (0 / 2) with 0 by field. rewrite sin_0.
  replace (0 ^ 2 + cos (radians lat) * cos (radians lat) * 0 ^ 2) with 0 by ring.
  rewrite sqrt_0, asin_0. ring.
Qed.

End HaversineFacts.

Module SimilarityTheorems.

Import Similarity Scorer SimilarityFacts ScorerFacts HaversineFacts.

(** [haversine_distance] is never negative, does not depend on the order
    of the two points and is [0] between a point and itself. *)
Theorem haversine_semimetric (lat1 lon1 lat2 lon2 : R) :
  0 <= haversine_distance lat1 lon1 lat2 lon2 /\
  haversine_distance lat1 lon1 lat2 lon2 = haversine_distance lat2 lon2 lat1 lon1 /\
  haversine_distance lat1 lon1 lat1 lon1 = 0.
Proof.
  split; [apply haversine_nonneg|]. split; [apply haversine_sym|apply haversine_same].
Qed.

(** [compute_match_score] is symmetric: swapping the base sighting and
    the candidate (text, location and coordinates) gives the same score
    and the same reasons. *)
Theorem compute_match_score_sym (bt bl ct cl : string) (blat blon clat clon : option R) :
  compute_match_score bt bl ct cl blat blon clat clon =
  compute_match_score ct cl bt bl clat clon blat blon.
Proof.
  unfold compute_match_score.
  rewrite (jaccard_comm (Text.tokenize_keywords bt) (Text.tokenize_keywords ct)).
  unfold location_similarity.
  rewrite (jaccard_comm (Text.tokenize_keywords bl) (Text.tokenize_keywords cl)).
  rewrite (andb_comm (truthy bl) (truthy cl)).
  destruct blat as [blat|], blon as [blon|], clat as [clat|], clon as [clon|];
    try reflexivity.
  rewrite (haversine_sym blat blon clat clon). reflexivity.
Qed.

End SimilarityTheorems.

Module EndpointFacts.

Import Store Analyzers Endpoints.

Section OrderByFacts.

Context {A : Type} (id : A -> Z).

Lemma insert_by_perm (r : A) (l : list A) :
  Permutation (insert_by_id_desc id r l) (r :: l).
Proof.
  induction l as [|x l IH]; simpl; [reflexivity|].
  destruct (id x <=? id r)%Z; [reflexivity|]. rewrite IH. apply perm_swap.
Qed.

Lemma order_by_perm (l : list A) : Permutation (order_by_desc id l) l.
Proof.
  unfold order_by_desc. induction l as [|x l IH]; simpl; [reflexivity|].
  rewrite insert_by_perm, IH. reflexivity.
Qed.

Definition id_le (a b : A) : Prop := (id b <= id a)%Z.

Lemma insert_by_sorted (r : A) (l : list A) :
  StronglySorted id_le l -> StronglySorted id_le (insert_by_id_desc id r l).
Proof.
  unfold id_le. induction l as [|x l IH]; intros Hs; simpl; [repeat constructor|].
  apply StronglySorted_inv in Hs as [Hs Hx].
  destruct (Z.leb_spec (id x) (id r)) as [Hle|Hgt].
  - constructor; [constructor; assumption|]. constructor; [exact Hle|].
    eapply Forall_impl; [exact Hx|]. simpl. intros a Ha. lia.
  - constructor; [apply IH, Hs|]. apply List.Forall_forall. intros z Hz.
    apply (Permutation_in _ (insert_by_perm r l)) in Hz as [<-|Hz]; [lia|].
    rewrite List.Forall_forall in Hx. apply Hx, Hz.
Qed.

Lemma order_by_sorted (l : list A) : StronglySorted id_le (order_by_desc id l).
Proof.
  unfold order_by_desc. induction l as [|x l IH]; simpl; [constructor|].
  apply insert_by_sorted, IH.
Qed.

Lemma sorted_le_strict (l : list A) :
  NoDup (map id l) -> StronglySorted id_le l ->
  StronglySorted (fun a b => id b < id a)%Z l.
Proof.
  unfold id_le. induction l as [|x l IH]; intros Hnd Hs; [constructor|].
  simpl in Hnd. inversion Hnd as [|? ? Hnotin Hnd']; subst.
  apply StronglySorted_inv in Hs as [Hs Hx]. constructor; [apply IH; assumption|].
  apply List.Forall_forall. intros y Hy. rewrite List.Forall_forall in Hx.
  specialize (Hx y Hy). assert (id y <> id x); [|lia].
  intros Heq. apply Hnotin. apply list_elem_of_In. rewrite <- Heq. by apply in_map.
Qed.

Lemma order_by_snoc_max (l : list A) (r : A) :
  (forall x, In x l -> (id x < id r)%Z) ->
  order_by_desc id (l ++ [r]) = r :: order_by_desc id l.
Proof.
  unfold order_by_desc. rewrite fold_right_app. simpl.
  induction l as [|x l IH]; intros Hlt; simpl; [reflexivity|].
  rewrite IH by (intros y Hy; apply Hlt; right; exact Hy).
  simpl. destruct (Z.leb_spec (id r) (id x)) as [Hle|]; [|reflexivity].
  specialize (Hlt x (or_introl eq_refl)). lia.
Qed.

End OrderByFacts.

Lemma NoDup_map_order_by {A} (id : A -> Z) (l : list A) :
  NoDup (map id l) -> NoDup (map id (order_by_desc id l)).
Proof.
  intros Hnd. assert (Hp : map id (order_by_desc id l) ≡ₚ map id l)
    by (apply Permutation_map, order_by_perm). by rewrite Hp.
Qed.

Lemma select_db_some (es : list db_entry) (id : Z) (d : db_entry) :
  select_db es id = Some d -> In d es /\ d_id d = id.
Proof.
  unfold select_db. intros H. apply List.find_some in H as [Hin Heq].
  split; [exact Hin|]. by apply Z.eqb_eq.
Qed.

Lemma select_db_none (es : list db_entry) (id : Z) :
  select_db es id = None -> forall d, In d es -> d_id d <> id.
Proof.
  unfold select_db. intros H d Hin Heq. apply (List.find_none _ _ H) in Hin.
  rewrite Heq, Z.eqb_refl in Hin. discriminate.
Qed.

Lemma update_ids (id : Z) (f : db_entry -> db_entry) (es : list db_entry) :
  (forall d, d_id (f d) = d_id d) -> map d_id (update_entries id f es) = map d_id es.
Proof.
  intros Hf. unfold update_entries. rewrite map_map. apply map_ext. intros d.
  destruct (d_id d =? id)%Z; [apply Hf|reflexivity].
Qed.

Lemma select_db_update (id : Z) (f : db_entry -> db_entry) (es : list db_entry) (x : Z) :
  (forall d, d_id (f d) = d_id d) ->
  select_db (update_entries id f es) x =
  option_map (fun d => if (d_id d =? id)%Z then f d else d) (select_db es x).
Proof.
  intros Hf. unfold select_db, update_entries.
  induction es as [|d es IH]; simpl; [reflexivity|].
  destruct (Z.eqb_spec (d_id d) id) as [Hid|Hid]; simpl.
  - rewrite Hf. destruct (d_id d =? x)%Z; [simpl; by rewrite Hid, Z.eqb_refl|exact IH].
  - destruct (Z.eqb_spec (d_id d) x); [simpl|exact IH].
    destruct (Z.eqb_spec (d_id d) id); [contradiction|reflexivity].
Qed.

Lemma nodup_same_id (es : list db_entry) (a b : db_entry) :
  NoDup (map d_id es) -> In a es -> In b es -> d_id a = d_id b -> a = b.
Proof.
  induction es as [|x es IH]; simpl; intros Hnd Ha Hb Heq; [contradiction|].
  inversion Hnd as [|? ? Hnotin Hnd']; subst.
  destruct Ha as [<-|Ha], Hb as [<-|Hb]; try reflexivity.
  - exfalso. apply Hnotin, list_elem_of_In. rewrite Heq. by apply in_map.
  - exfalso. apply Hnotin, list_elem_of_In. rewrite <- Heq. by apply in_map.
  - apply IH; assumption.
Qed.

Lemma set_cat_id (c : Z) (d : db_entry) : d_id (set_cat c d) = d_id d.
Proof. reflexivity. Qed.

Lemma set_favorite_id (fav : Z) (d : db_entry) : d_id (set_favorite fav d) = d_id d.
Proof. reflexivity. Qed.

Lemma set_cat_idem (c : Z) (d : db_entry) : set_cat c (set_cat c d) = set_cat c d.
Proof. reflexivity. Qed.

Lemma set_cat_linked (c : Z) (d : db_entry) : linked_to c d = true -> set_cat c d = d.
Proof.
  destruct d as [[i t ca n l ln la lo cat] fav ph osm]. unfold linked_to. simpl.
  destruct cat as [c'|]; [|discriminate]. intros H. apply Z.eqb_eq in H. subst. reflexivity.
Qed.

Lemma linked_set_cat (c : Z) (d : db_entry) : linked_to c (set_cat c d) = true.
Proof. unfold linked_to. simpl. apply Z.eqb_refl. Qed.

(** The row a set of ids is linked to cat [c] by. *)
Lemma relink_step (c id : Z) (rest : list Z) (d : db_entry) :
  (if existsb (Z.eqb (d_id (if (d_id d =? id)%Z then set_cat c d else d))) rest
   then set_cat c (if (d_id d =? id)%Z then set_cat c d else d)
   else if (d_id d =? id)%Z then set_cat c d else d) =
  (if existsb (Z.eqb (d_id d)) (id :: rest) then set_cat c d else d).
Proof.
  simpl. destruct (Z.eqb_spec (d_id d) id); simpl; [|reflexivity].
  destruct (existsb _ rest); reflexivity.
Qed.

Lemma relink_absent (c id : Z) (rest : list Z) (d : db_entry) :
  d_id d <> id ->
  (if existsb (Z.eqb (d_id d)) (id :: rest) then set_cat c d else d) =
  (if existsb (Z.eqb (d_id d)) rest then set_cat c d else d).
Proof. intros Hne. simpl. by destruct (Z.eqb_spec (d_id d) id). Qed.

Definition missing (es : list db_entry) (id : Z) : bool :=
  match select_db es id with None => true | Some _ => false end.

Lemma link_loop_spec (c : Z) (ids : list Z) (es : list db_entry) (a n f : list Z) :
  NoDup (map d_id es) ->
  let '(es', a', n', f') := link_loop c ids es a n f in
  es' = map (fun d => if existsb (Z.eqb (d_id d)) ids then set_cat c d else d) es /\
  f' = f ++ List.filter (missing es) ids /\
  (length a' + length n' + length f' = length a + length n + length f + length ids)%nat /\
  (forall x, In x n' <->
     In x n \/ (In x ids /\ exists d, select_db es x = Some d /\ linked_to c d = false)).
Proof.
  revert es a n f. induction ids as [|id rest IH]; intros es a n f Hnd; simpl.
  - split; [symmetry; apply map_id|]. split; [by rewrite app_nil_r|]. split; [lia|].
    intros x. tauto.
  - destruct (select_db es id) as [entry|] eqn:Hs.
    + pose proof (select_db_some _ _ _ Hs) as [Hin Hid].
      destruct (linked_to c entry) eqn:Hl.
      * specialize (IH es (a ++ [id]) n f Hnd).
        destruct (link_loop c rest es (a ++ [id]) n f) as [[[es' a'] n'] f'].
        destruct IH as (He & Hf & Hlen & Hn). split; [|split; [|split]].
        -- rewrite He. apply map_ext_in. intros d Hd. simpl.
           destruct (Z.eqb_spec (d_id d) id) as [Heq|Hne]; simpl; [|reflexivity].
           assert (d = entry) as -> by (apply (nodup_same_id es); congruence).
           rewrite (set_cat_linked c entry Hl). destruct (existsb _ rest); reflexivity.
        -- rewrite Hf. unfold missing at 2. by rewrite Hs.
        -- rewrite length_app in Hlen. simpl in Hlen |- *. lia.
        -- intros x. rewrite Hn. split; [intros [H|[H1 H2]]; [left; exact H|right; split; [right; exact H1|exact H2]]|].
           intros [H|[[<-|H1] H2]]; [left; exact H| |right; split; assumption].
           exfalso. destruct H2 as [d [Hd Hld]]. rewrite Hs in Hd. injection Hd as <-. congruence.
      * set (es1 := update_entries id (set_cat c) es).
        assert (Hnd1 : NoDup (map d_id es1)) by (unfold es1; rewrite update_ids; [exact Hnd|apply set_cat_id]).
        specialize (IH es1 a (n ++ [id]) f Hnd1).
        destruct (link_loop c rest es1 a (n ++ [id]) f) as [[[es' a'] n'] f'].
        destruct IH as (He & Hf & Hlen & Hn).
        assert (Hsel : forall x, select_db es1 x =
                  option_map (fun d => if (d_id d =? id)%Z then set_cat c d else d) (select_db es x))
          by (intros x; apply select_db_update, set_cat_id).
        split; [|split; [|split]].
        -- rewrite He. unfold es1, update_entries. rewrite map_map. apply map_ext.
           intros d. apply relink_step.
        -- rewrite Hf. unfold missing at 2. rewrite Hs. f_equal. apply filter_ext.
           intros x. unfold missing. rewrite Hsel. by destruct (select_db es x).
        -- rewrite length_app in Hlen. simpl in Hlen |- *. lia.
        -- intros x. rewrite Hn, in_app_iff. simpl.
           destruct (Z.eq_dec x id) as [->|Hne].
           ++ split; [intros _; right; split; [left; reflexivity|exists entry; split; assumption]|].
              intros _. left. right. left. reflexivity.
           ++ assert (HP : (exists d, select_db es1 x = Some d /\ linked_to c d = false) <->
                           (exists d, select_db es x = Some d /\ linked_to c d = false)).
              { rewrite Hsel. destruct (select_db es x) as [d|] eqn:Hx; simpl.
                - pose proof (select_db_some _ _ _ Hx) as [_ Hdx].
                  destruct (Z.eqb_spec (d_id d) id); [congruence|].
                  split; intros [d' [Hd' Hl']]; exists d'; split; assumption.
                - split; intros [d' [Hd' _]]; discriminate Hd'. }
              rewrite HP. split.
              ** intros [[H|[H|[]]]|[H1 H2]]; [left; exact H|congruence|right; split; [right; exact H1|exact H2]].
              ** intros [H|[[H|H1] H2]]; [left; left; exact H|congruence|right; split; assumption].
    + specialize (IH es a n (f ++ [id]) Hnd).
      destruct (link_loop c rest es a n (f ++ [id])) as [[[es' a'] n'] f'].
      destruct IH as (He & Hf & Hlen & Hn). split; [|split; [|split]].
      * rewrite He. apply map_ext_in. intros d Hd. symmetry. apply relink_absent.
        apply (select_db_none es id Hs d Hd).
      * rewrite Hf, <- app_assoc. unfold missing at 2. by rewrite Hs.
      * rewrite length_app in Hlen. simpl in *. lia.
      * intros x. rewrite Hn. split.
        -- intros [H|[H1 H2]]; [left; exact H|right; split; [right; exact H1|exact H2]].
        -- intros [H|[[<-|H1] H2]]; [left; exact H| |right; split; assumption].
           exfalso. destruct H2 as [d [Hd _]]. rewrite Hs in Hd. discriminate.
Qed.

Lemma create_from_fold (c : Z) (ids : list Z) (es : list db_entry) :
  fold_left (fun es entry_id =>
      match select_db es entry_id with
      | Some _ => update_entries entry_id (set_cat c) es
      | None => es
      end) ids es =
  map (fun d => if existsb (Z.eqb (d_id d)) ids then set_cat c d else d) es.
Proof.
  revert es. induction ids as [|id rest IH]; intros es; simpl; [symmetry; apply map_id|].
  destruct (select_db es id) as [row|] eqn:Hs.
  - rewrite IH. unfold update_entries. rewrite map_map. apply map_ext. intros d.
    apply relink_step.
  - rewrite IH. apply map_ext_in. intros d Hd. symmetry. apply relink_absent.
    apply (select_db_none es id Hs d Hd).
Qed.

End EndpointFacts.

Module EndpointTheorems.

Import Store Analyzers Endpoints EndpointFacts.

(** [get_entries] returns every row of [entries] once, ordered by
    non-increasing id, strictly decreasing when ids are unique; [list_cats]
    does the same for the [cats] table. *)
Theorem get_entries_list_cats_order (entries : list db_entry) (cats : list cat_db) :
  Permutation (get_entries entries) (map entry_of entries) /\
  StronglySorted (fun a b => o_id b <= o_id a)%Z (get_entries entries) /\
  (NoDup (map d_id entries) -> StronglySorted (fun a b => o_id b < o_id a)%Z (get_entries entries)) /\
  Permutation (list_cats cats) cats /\
  StronglySorted (fun a b => cd_id b <= cd_id a)%Z (list_cats cats) /\
  (NoDup (map cd_id cats) -> StronglySorted (fun a b => cd_id b < cd_id a)%Z (list_cats cats)).
Proof.
  unfold get_entries, list_cats.
  split; [apply Permutation_map, order_by_perm|]. split; [|split; [|split; [|split]]].
  - apply (AnalyzerFacts.sorted_map (id_le d_id)); [|apply order_by_sorted].
    intros a b _ _ H. exact H.
  - intros Hnd. apply (AnalyzerFacts.sorted_map (fun a b => d_id b < d_id a)%Z); [intros a b _ _ H; exact H|].
    apply sorted_le_strict; [apply NoDup_map_order_by, Hnd|apply order_by_sorted].
  - apply order_by_perm.
  - apply order_by_sorted.
  - intros Hnd. apply sorted_le_strict; [apply NoDup_map_order_by, Hnd|apply order_by_sorted].
Qed.

(** [create_entry] refuses a text that is empty after [strip()] with a
    400 and leaves the table unchanged; otherwise it appends one row, with
    the stripped text, [isFavorite = 0] and the optional fields stripped
    (blank ones become [None]), and its response is exactly the [Entry]
    [get_entries] reports for that row. *)
Theorem create_entry_spec (entries : list db_entry) (text : string)
    (nickname location photo_url : option string) (now : string) (new_id : Z) :
  match create_entry entries text nickname location photo_url now new_id with
  | (inl e, es) => e = InvalidState /\ es = entries /\ strip text = ""
  | (inr out, es) =>
      strip text <> "" /\
      exists row, es = entries ++ [row] /\ entry_of row = out /\
        d_id row = new_id /\ e_text (d_row row) = strip text /\ d_isFavorite row = 0%Z /\
        e_nickname (d_row row) = opt_strip nickname /\
        e_location (d_row row) = opt_strip location /\
        d_photo_url row = opt_strip photo_url /\ e_cat_id (d_row row) = None
  end.
Proof.
  unfold create_entry. destruct (String.eqb_spec (strip text) "") as [He|Hne].
  - split; [reflexivity|]. split; [reflexivity|exact He].
  - split; [exact Hne|]. eexists. split; [reflexivity|]. split; [reflexivity|].
    repeat split.
Qed.

(** A created entry whose id is larger than every existing id is listed
    first by [get_entries], followed by the previous listing. *)
Theorem create_entry_listed_first (entries : list db_entry) (text : string)
    (nickname location photo_url : option string) (now : string) (new_id : Z) :
  strip text <> "" ->
  (forall d, In d entries -> (d_id d < new_id)%Z) ->
  match create_entry entries text nickname location photo_url now new_id with
  | (inr out, es) => get_entries es = out :: get_entries entries
  | (inl _, _) => False
  end.
Proof.
  intros Hne Hlt. unfold create_entry.
  destruct (String.eqb_spec (strip text) "") as [He|_]; [contradiction|].
  unfold get_entries. rewrite order_by_snoc_max; [reflexivity|exact Hlt].
Qed.

Definition sample_older : list db_entry :=
  [mk_db (mk_entry 1 "first" "t1" None (Some "park") None None None None) 0 None None;
   mk_db (mk_entry 3 "third" "t3" (Some "Tom") None None None None (Some 2%Z)) 1 None None;
   mk_db (mk_entry 2 "second" "t2" None None None None None None) 0 None None].

Lemma create_entry_listed_first_witness :
  strip " hello " <> "" /\
  (forall d, In d sample_older -> (d_id d < 4)%Z) /\
  map o_id (get_entries (snd (create_entry sample_older " hello " None None None "t4" 4)))
    = [4; 3; 2; 1]%Z.
Proof.
  assert (H1 : strip " hello " <> "") by (vm_compute; discriminate).
  assert (H2 : forall d, In d sample_older -> (d_id d < 4)%Z).
  { intros d Hd. repeat destruct Hd as [<-|Hd]; [reflexivity|reflexivity|reflexivity|].
    destruct Hd. }
  split; [exact H1|]. split; [exact H2|].
  pose proof (create_entry_listed_first sample_older " hello " None None None "t4" 4 H1 H2)
    as H.
  destruct (create_entry sample_older " hello " None None None "t4" 4) as [[e|out] es] eqn:Hc;
    [destruct H|].
  simpl. rewrite H. vm_compute in Hc. injection Hc as <- _. vm_compute. reflexivity.
Defined.

(** [toggle_favorite] answers 404 on a missing id and changes nothing;
    otherwise it flips the favourite flag of the row ([isFavorite] becomes
    [1] exactly when it was [0]), reports the new flag, leaves every other
    column as it was, and its response carries [None] for [cat_id],
    [photo_url] and the normalised location whatever the row holds. *)
Theorem toggle_favorite_spec (entries : list db_entry) (entry_id : Z) :
  match toggle_favorite entries entry_id with
  | (inl e, es) => e = NotFound /\ es = entries /\ select_db entries entry_id = None
  | (inr out, es) =>
      exists row, select_db entries entry_id = Some row /\
        o_isFavorite out = Z.eqb (d_isFavorite row) 0 /\
        es = update_entries entry_id
               (set_favorite (if Z.eqb (d_isFavorite row) 0 then 1 else 0)) entries /\
        map d_row es = map d_row entries /\
        (exists row', select_db es entry_id = Some row' /\
           o_isFavorite (entry_of row') = o_isFavorite out) /\
        o_cat_id out = None /\ o_photo_url out = None /\ o_location_normalized out = None
  end.
Proof.
  unfold toggle_favorite. destruct (select_db entries entry_id) as [row|] eqn:Hs; [|auto].
  pose proof (select_db_some _ _ _ Hs) as [_ Hid].
  exists row. split; [reflexivity|].
  destruct (Z.eqb_spec (d_isFavorite row) 0) as [H0|H0]; simpl.
  - split; [reflexivity|]. split; [reflexivity|]. split.
    + unfold update_entries. rewrite map_map. apply map_ext. intros d.
      destruct (d_id d =? entry_id)%Z; reflexivity.
    + split; [|auto]. eexists. split.
      * rewrite select_db_update by apply set_favorite_id. rewrite Hs. simpl.
        rewrite Hid, Z.eqb_refl. reflexivity.
      * reflexivity.
  - split; [reflexivity|]. split; [reflexivity|]. split.
    + unfold update_entries. rewrite map_map. apply map_ext. intros d.
      destruct (d_id d =? entry_id)%Z; reflexivity.
    + split; [|auto]. eexists. split.
      * rewrite select_db_update by apply set_favorite_id. rewrite Hs. simpl.
        rewrite Hid, Z.eqb_refl. reflexivity.
      * reflexivity.
Qed.

(** With unique ids and a favourite flag of [0] or [1] on the row,
    toggling the same entry twice gives back the table. *)
Theorem toggle_favorite_twice (entries : list db_entry) (entry_id : Z) :
  NoDup (map d_id entries) ->
  (forall d, In d entries -> d_id d = entry_id -> d_isFavorite d = 0%Z \/ d_isFavorite d = 1%Z) ->
  snd (toggle_favorite (snd (toggle_favorite entries entry_id)) entry_id) = entries.
Proof.
  intros Hnd H01. unfold toggle_favorite.
  destruct (select_db entries entry_id) as [row|] eqn:Hs; simpl; [|by rewrite Hs].
  pose proof (select_db_some _ _ _ Hs) as [Hin Hid].
  rewrite select_db_update by apply set_favorite_id. rewrite Hs. simpl.
  rewrite Hid, Z.eqb_refl. simpl.
  unfold update_entries. rewrite map_map.
  transitivity (map (fun d : db_entry => d) entries); [|apply map_id].
  apply map_ext_in. intros d Hd.
  destruct (Z.eqb_spec (d_id d) entry_id) as [Hde|Hne];
    [|apply Z.eqb_neq in Hne; rewrite Hne; reflexivity].
  rewrite set_favorite_id, Hde, Z.eqb_refl.
  assert (d = row) as -> by (apply (nodup_same_id entries); congruence).
  destruct row as [r fav ph osm]. simpl in *. unfold set_favorite. simpl.
  destruct (H01 _ Hin Hid) as [Hf|Hf]; simpl in Hf; subst fav; reflexivity.
Qed.

Lemma toggle_favorite_twice_witness :
  NoDup (map d_id [mk_db (mk_entry 1 "a" "t" None None None None None None) 0 None None]) /\
  (forall d, In d [mk_db (mk_entry 1 "a" "t" None None None None None None) 0 None None] ->
     d_id d = 1%Z -> d_isFavorite d = 0%Z \/ d_isFavorite d = 1%Z) /\
  snd (toggle_favorite
         (snd (toggle_favorite [mk_db (mk_entry 1 "a" "t" None None None None None None) 0 None None] 1)) 1) =
  [mk_db (mk_entry 1 "a" "t" None None None None None None) 0 None None].
Proof.
  assert (H1 : NoDup (map d_id [mk_db (mk_entry 1 "a" "t" None None None None None None) 0 None None]))
    by (simpl; repeat constructor; set_solver).
  assert (H2 : forall d, In d [mk_db (mk_entry 1 "a" "t" None None None None None None) 0 None None] ->
     d_id d = 1%Z -> d_isFavorite d = 0%Z \/ d_isFavorite d = 1%Z)
    by (intros d [<-|[]] _; left; reflexivity).
  split; [exact H1|]. split; [exact H2|].
  exact (toggle_favorite_twice _ 1 H1 H2).
Defined.

(** [assign_entry_to_cat] answers 404 when the cat or the entry is
    missing, leaving the table unchanged; otherwise it sets [cat_id] on
    the entry's rows and returns the entry with its new [cat_id] (the
    final lookup always finds it). *)
Theorem assign_entry_to_cat_spec (cats : list cat_db) (entries : list db_entry)
    (entry_id cat_id : Z) :
  assign_entry_to_cat cats entries entry_id cat_id =
  match find_cat cats cat_id, select_db entries entry_id with
  | Some _, Some row =>
      (inr (entry_of (set_cat cat_id row)), update_entries entry_id (set_cat cat_id) entries)
  | _, _ => (inl NotFound, entries)
  end.
Proof.
  unfold assign_entry_to_cat. destruct (find_cat cats cat_id); [|reflexivity].
  destruct (select_db entries entry_id) as [row|] eqn:Hs; [|reflexivity].
  pose proof (select_db_some _ _ _ Hs) as [_ Hid].
  rewrite select_db_update by apply set_cat_id. rewrite Hs. simpl.
  rewrite Hid, Z.eqb_refl. reflexivity.
Qed.

(** With unique entry ids, [link_sightings_to_cat] answers 404 on a
    missing cat and changes nothing; otherwise it links every requested
    existing entry to the cat, lists in [failed] the requested ids with no
    entry (in request order, repeats kept), counts as linked every other
    requested id, and lists in [newly_linked] exactly the requested ids
    whose entry was not linked to this cat before. *)
Theorem link_sightings_to_cat_spec (cats : list cat_db) (entries : list db_entry)
    (cat_id : Z) (entry_ids : list Z) :
  NoDup (map d_id entries) ->
  match link_sightings_to_cat cats entries cat_id entry_ids with
  | (inl e, es) => e = NotFound /\ es = entries /\ find_cat cats cat_id = None
  | (inr resp, es) =>
      find_cat cats cat_id <> None /\ l_cat_id resp = cat_id /\
      es = map (fun d => if existsb (Z.eqb (d_id d)) entry_ids then set_cat cat_id d else d)
             entries /\
      l_failed resp =
        List.filter (fun id => match select_db entries id with None => true | Some _ => false end)
          entry_ids /\
      l_linked_count resp = Z.of_nat (length entry_ids - length (l_failed resp)) /\
      (forall x, In x (l_newly_linked resp) <->
         In x entry_ids /\ exists d, select_db entries x = Some d /\ linked_to cat_id d = false)
  end.
Proof.
  intros Hnd. unfold link_sightings_to_cat.
  destruct (find_cat cats cat_id) eqn:Hc; [|auto].
  pose proof (link_loop_spec cat_id entry_ids entries [] [] [] Hnd) as Hl.
  destruct (link_loop cat_id entry_ids entries [] [] []) as [[[es' a'] n'] f'].
  destruct Hl as (He & Hf & Hlen & Hn). simpl in *.
  split; [discriminate|]. split; [reflexivity|]. split; [exact He|].
  split; [exact Hf|]. split; [f_equal; lia|].
  intros x. rewrite Hn. simpl. tauto.
Qed.

Lemma link_sightings_to_cat_spec_witness :
  NoDup (map d_id [mk_db (mk_entry 1 "a" "t" None None None None None None) 0 None None]) /\
  exists resp es,
    link_sightings_to_cat [mk_cat_db 7 None "t"]
      [mk_db (mk_entry 1 "a" "t" None None None None None None) 0 None None] 7 [1; 2]%Z =
    (inr resp, es) /\
    l_failed resp = [2%Z] /\ l_linked_count resp = 1%Z.
Proof.
  assert (H1 : NoDup (map d_id [mk_db (mk_entry 1 "a" "t" None None None None None None) 0 None None]))
    by (simpl; repeat constructor; set_solver).
  split; [exact H1|].
  pose proof (link_sightings_to_cat_spec [mk_cat_db 7 None "t"] _ 7 [1; 2]%Z H1) as H.
  destruct (link_sightings_to_cat [mk_cat_db 7 None "t"]
              [mk_db (mk_entry 1 "a" "t" None None None None None None) 0 None None] 7 [1; 2]%Z)
    as [[e|resp] es] eqn:Hl; [vm_compute in Hl; discriminate Hl|].
  exists resp, es. split; [reflexivity|].
  destruct H as (_ & _ & _ & Hf & Hc & _).
  assert (Hf' : l_failed resp = [2%Z]) by (rewrite Hf; vm_compute; reflexivity).
  split; [exact Hf'|]. rewrite Hc, Hf'. reflexivity.
Defined.

(** [create_cat_from_sightings] appends the new cat (its name stripped,
    blank names become [None]) and links to it every existing entry whose
    id is requested; requested ids with no entry are ignored. *)
Theorem create_cat_from_sightings_spec (cats : list cat_db) (entries : list db_entry)
    (entry_ids : list Z) (name : option string) (now : string) (new_cat_id : Z) :
  create_cat_from_sightings cats entries entry_ids name now new_cat_id =
  (mk_cat_db new_cat_id (opt_strip name) now,
   cats ++ [mk_cat_db new_cat_id (opt_strip name) now],
   map (fun d => if existsb (Z.eqb (d_id d)) entry_ids then set_cat new_cat_id d else d) entries).
Proof. unfold create_cat_from_sightings. by rewrite create_from_fold. Qed.

End EndpointTheorems.

Module ProfileFacts.

Import Store Analyzers Endpoints.

Lemma insert_id_desc_perm (r : entry_row) (l : list entry_row) :
  Permutation (insert_id_desc r l) (r :: l).
Proof.
  induction l as [|x l IH]; simpl; [reflexivity|].
  destruct (e_id x <=? e_id r)%Z; [reflexivity|]. rewrite IH. apply perm_swap.
Qed.

Lemma order_by_id_desc_perm (l : list entry_row) : Permutation (order_by_id_desc l) l.
Proof.
  unfold order_by_id_desc. induction l as [|x l IH]; simpl; [reflexivity|].
  rewrite insert_id_desc_perm, IH. reflexivity.
Qed.

Lemma filter_map_swap {A B} (f : B -> bool) (g : A -> B) (l : list A) :
  List.filter f (map g l) = map g (List.filter (fun x => f (g x)) l).
Proof.
  induction l as [|x l IH]; simpl; [reflexivity|].
  destruct (f (g x)); simpl; by rewrite IH.
Qed.

Lemma cat_sightings_length (entries : list db_entry) (cat_id : Z) :
  length (cat_sightings entries cat_id) = length (List.filter (linked_to cat_id) entries).
Proof.
  unfold cat_sightings. rewrite (Permutation_length (order_by_id_desc_perm _)).
  rewrite filter_map_swap, length_map. reflexivity.
Qed.

Lemma in_cat_sightings (entries : list db_entry) (cat_id : Z) (s : entry_row) :
  In s (cat_sightings entries cat_id) ->
  exists d, In d entries /\ linked_to cat_id d = true /\ d_row d = s.
Proof.
  unfold cat_sightings. intros Hs.
  apply (Permutation_in _ (order_by_id_desc_perm _)) in Hs.
  rewrite filter_map_swap in Hs. apply in_map_iff in Hs as [d [<- Hd]].
  apply filter_In in Hd as [Hd Hl]. exists d. split; [exact Hd|]. split; [exact Hl|reflexivity].
Qed.

Lemma dict_fromkeys_fold (xs acc : list string) :
  NoDup acc ->
  let r := fold_left (fun acc x => if existsb (String.eqb x) acc then acc else acc ++ [x]) xs acc in
  NoDup r /\ (forall x, In x r <-> In x acc \/ In x xs).
Proof.
  revert acc. induction xs as [|y xs IH]; intros acc Hnd; simpl.
  - split; [exact Hnd|]. intros x. tauto.
  - destruct (existsb (String.eqb y) acc) eqn:He.
    + destruct (IH acc Hnd) as [Hnd' Hin]. split; [exact Hnd'|].
      intros x. rewrite Hin. split; [tauto|].
      intros [H|[<-|H]]; [left; exact H| |right; exact H].
      left. apply existsb_exists in He as [z [Hz Heq]]. apply String.eqb_eq in Heq. by subst.
    + assert (Hnd1 : NoDup (acc ++ [y])).
      { apply NoDup_app. split; [exact Hnd|]. split; [|apply NoDup_singleton].
        intros x Hx Hy. apply list_elem_of_singleton in Hy. subst.
        apply list_elem_of_In in Hx.
        assert (existsb (String.eqb y) acc = true) by (apply existsb_exists; exists y;
          split; [exact Hx|apply String.eqb_refl]). congruence. }
      destruct (IH (acc ++ [y]) Hnd1) as [Hnd' Hin]. split; [exact Hnd'|].
      intros x. rewrite Hin, in_app_iff. simpl. tauto.
Qed.

Lemma dict_fromkeys_spec (xs : list string) :
  NoDup (dict_fromkeys xs) /\ (forall x, In x (dict_fromkeys xs) <-> In x xs).
Proof.
  destruct (dict_fromkeys_fold xs [] (NoDup_nil_2)) as [Hnd Hin].
  split; [exact Hnd|]. intros x. unfold dict_fromkeys. rewrite Hin. simpl. tauto.
Qed.

Lemma in_locations (sightings : list entry_row) (l : string) :
  In l (flat_map (fun s => match e_location s with
                           | Some l => if String.eqb l "" then [] else [l]
                           | None => []
                           end) sightings) ->
  l <> "" /\ exists s, In s sightings /\ e_location s = Some l.
Proof.
  intros H. apply in_flat_map in H as [s [Hs Hl]].
  destruct (e_location s) as [l'|] eqn:Hloc; [|contradiction].
  destruct (String.eqb_spec l' ""); [contradiction|].
  destruct Hl as [<-|[]]. split; [assumption|]. exists s. split; assumption.
Qed.

End ProfileFacts.

Module ProfileTheorems.

Import Store Analyzers Endpoints ProfileFacts AnalyzerFacts.

(** [cat_profile] answers 404 exactly when the cat does not exist;
    otherwise it reports the cat's id and name, counts the entries linked
    to the cat, lists at most 5 distinct non-empty locations, each the
    location of a linked entry, at most 8 distinct tags, and one of the
    four temperament words; a cat with no linked entry gets no locations,
    no tags and the temperament ["unknown"]. *)
Theorem cat_profile_spec (cats : list cat_db) (entries : list db_entry) (cat_id : Z) :
  match cat_profile cats entries cat_id with
  | inl e => e = NotFound /\ find_cat cats cat_id = None
  | inr p =>
      exists cat, find_cat cats cat_id = Some cat /\
        p_cat_id p = cat_id /\ p_name p = cd_name cat /\
        p_sightings_count p = Z.of_nat (length (List.filter (linked_to cat_id) entries)) /\
        NoDup (p_locations p) /\ (length (p_locations p) <= 5)%nat /\
        (forall l, In l (p_locations p) ->
           l <> "" /\ exists d, In d entries /\ linked_to cat_id d = true /\
                               e_location (d_row d) = Some l) /\
        NoDup (p_top_tags p) /\ (length (p_top_tags p) <= 8)%nat /\
        In (p_temperament_guess p)
          ["friendly"; "defensive / cautious"; "unknown / neutral"; "unknown"] /\
        (p_sightings_count p = 0%Z ->
         p_locations p = [] /\ p_top_tags p = [] /\ p_temperament_guess p = "unknown")
  end.
Proof.
  unfold cat_profile. destruct (find_cat cats cat_id) as [cat|] eqn:Hc; [|auto].
  pose proof (cat_sightings_length entries cat_id) as Hlen.
  destruct (Z.eqb_spec (Z.of_nat (length (cat_sightings entries cat_id))) 0) as [H0|H0].
  - exists cat. simpl. split; [reflexivity|]. split; [reflexivity|]. split; [reflexivity|].
    split; [rewrite <- Hlen; exact (eq_sym H0)|].
    split; [constructor|]. split; [lia|]. split; [intros l []|].
    split; [constructor|]. split; [lia|]. split; [right; right; right; left; reflexivity|].
    auto.
  - exists cat. simpl. split; [reflexivity|]. split; [reflexivity|]. split; [reflexivity|].
    split; [by rewrite Hlen|].
    set (locs := flat_map _ (cat_sightings entries cat_id)).
    destruct (dict_fromkeys_spec locs) as [Hnd Hin].
    split; [unfold Py.slice_upto; apply NoDup_take_in, Hnd|].
    split; [apply SortFacts.slice_upto_length; lia|].
    split.
    + intros l Hl. apply SortFacts.slice_upto_in, Hin, in_locations in Hl as [Hne [s [Hs Hloc]]].
      split; [exact Hne|]. apply in_cat_sightings in Hs as [d [Hd [Hlk <-]]].
      exists d. split; [exact Hd|]. split; [exact Hlk|exact Hloc].
    + destruct (baseline_tags_nodup_length (notes_of (cat_sightings entries cat_id)) 8)
        as [Htn Htl].
      split; [exact Htn|]. split; [exact Htl|]. split.
      * unfold temperament_of.
        destruct (String.eqb _ "positive"); [left; reflexivity|].
        destruct (String.eqb _ "negative"); [right; left; reflexivity|].
        right; right; left; reflexivity.
      * intros Hz. lia.
Qed.

End ProfileTheorems.

Module AnalysisTheorems.

Import Store Cache CacheFacts Endpoints.

Section AnalysisTheorems.

Variable sha256_hex : string -> string.
Variable baseline_summary : string -> string.
Variable baseline_tags : string -> list string.
Variable baseline_sentiment : string -> string.
Variable tags_to_json : list string -> string.
Variable tags_from_json : string -> list string.

(** When [json.loads(json.dumps(tags))] gives back the tags the analyzer
    produces, [get_entry_analysis] right after a successful
    [analyze_and_store] returns the same analysis, whether it came from
    the cache or was just computed. *)
Theorem analyze_then_get (entries : list entry_row) (analyses analyses' : list analysis_row)
    (entry_id : Z) (now : string) (ea : entry_analysis) :
  analyze_and_store sha256_hex baseline_summary baseline_tags baseline_sentiment
    tags_to_json tags_from_json entries analyses entry_id now = (inr ea, analyses') ->
  (forall text, tags_from_json (tags_to_json (baseline_tags text)) = baseline_tags text) ->
  get_entry_analysis tags_from_json analyses' entry_id = inr ea.
Proof.
  intros Hrun Hjson. unfold analyze_and_store in Hrun.
  destruct (select_entry entries entry_id) as [entry|]; [|discriminate Hrun].
  destruct (select_analysis analyses entry_id) as [existing|] eqn:Hex.
  - destruct (String.eqb (a_text_hash existing) (text_to_hash sha256_hex (e_text entry))).
    + injection Hrun as <- <-. unfold get_entry_analysis. by rewrite Hex.
    + injection Hrun as <- <-. unfold get_entry_analysis.
      match goal with |- context [select_analysis (upsert_analysis ?n ?a) entry_id] =>
        destruct (select_upsert_same n a) as [created Hs] end.
      simpl in Hs. rewrite Hs. simpl. by rewrite Hjson.
  - injection Hrun as <- <-. unfold get_entry_analysis.
    match goal with |- context [select_analysis (upsert_analysis ?n ?a) entry_id] =>
      destruct (select_upsert_same n a) as [created Hs] end.
    simpl in Hs. rewrite Hs. simpl. by rewrite Hjson.
Qed.

End AnalysisTheorems.

Lemma analyze_then_get_witness :
  analyze_and_store (fun s => s) (fun s => s) (fun _ : string => @nil string) (fun _ => "neutral")
    (fun _ : list string => "[]") (fun _ : string => @nil string) [sample_entry] [] 1 "t" =
  (inr (mk_entry_analysis 1 "hello  world" [] "neutral" "t"),
   [mk_analysis 1 "hello world" "hello  world" "[]" "neutral" "t" "t"]) /\
  (forall text : string, (fun _ : string => @nil string) ((fun _ : list string => "[]") ((fun _ : string => @nil string) text)) =
                         (fun _ : string => @nil string) text) /\
  get_entry_analysis (fun _ : string => @nil string) [mk_analysis 1 "hello world" "hello  world" "[]" "neutral" "t" "t"] 1 =
  inr (mk_entry_analysis 1 "hello  world" [] "neutral" "t").
Proof.
  assert (H1 : analyze_and_store (fun s => s) (fun s => s) (fun _ : string => @nil string) (fun _ => "neutral")
    (fun _ : list string => "[]") (fun _ : string => @nil string) [sample_entry] [] 1 "t" =
    (inr (mk_entry_analysis 1 "hello  world" [] "neutral" "t"),
     [mk_analysis 1 "hello world" "hello  world" "[]" "neutral" "t" "t"])) by reflexivity.
  assert (H2 : forall text : string,
    (fun _ : string => @nil string) ((fun _ : list string => "[]") ((fun _ : string => @nil string) text)) =
    (fun _ : string => @nil string) text) by reflexivity.
  split; [exact H1|]. split; [exact H2|].
  exact (analyze_then_get (fun s => s) (fun s => s) (fun _ : string => @nil string) (fun _ => "neutral")
           (fun _ : list string => "[]") (fun _ : string => @nil string) _ _ _ _ _ _ H1 H2).
Defined.

End AnalysisTheorems.

Module NormalizeFacts.

Import Store Endpoints Circuit Geocode Normalize GeocodeFacts.

Section NormalizeFacts.

Variable float_repr : R -> string.
Variable container_str : pyval -> string.
Variable exn : Type.

(** The dict of [geocode_with_fallback] either carries the hit
    ([fallback] is [None]) or is a text-only fallback. *)
Lemma geocode_dict_cases (st : CircuitBreaker * R) (now now_fail : R) (location : string)
    (httpx_available : bool) (clock : nat -> R * R) (exchanges : nat -> http_exchange)
    (random : nat -> R) :
  let d := fst (fst (geocode_with_fallback float_repr container_str exn st now now_fail
                       location httpx_available clock exchanges random)) in
  g_fallback d = PNone \/
  exists status, In status ["fallback"; "not_found"; "error"] /\
                 d = fallback_to_text location status.
Proof.
  destruct st as [cb lc]. cbv zeta. rewrite geocode_with_fallback_eq.
  destruct (can_execute cb now) as [[|] c1]; simpl.
  - destruct (geocode_location httpx_available lc (fst (clock 0%nat)) (snd (clock 0%nat))
                (exchanges 0%nat)) as [[result sl] l'].
    destruct (py_truthy result); [destruct result|]; simpl;
      solve [left; reflexivity | right; eexists; split; [|reflexivity]; simpl; tauto].
  - right. eexists. split; [|reflexivity]. simpl. tauto.
Qed.

End NormalizeFacts.

(** A 200 response whose body is [[1]]: [result.get] raises, the breaker
    records the failure and the endpoint answers with the status
    ["error"]. *)
Lemma normalize_error_example :
  let row := mk_db (mk_entry 1 "a cat" "t" None (Some "somewhere") None None None None)
               0 None None in
  let '(res, es, st) :=
    normalize_entry_location (fun _ => "") (fun _ => "") unit (fun _ => None) (fun _ => "")
      (fun _ => None) [row] 1 false (nominatim_circuit, 0) 100 100 true
      (fun _ => (10, 11)) (fun _ => Response 200 (Some (PList [PInt 1]))) (fun _ => 0) in
  res = inr (mk_norm 1 "somewhere" (Some "somewhere") None None None "error"
               (Some "Could not geocode location: error")) /\
  es = [row] /\ failure_count (fst st) = 1%Z /\ snd st = 11.
Proof. cbn. repeat split. Qed.

(** A hit whose [display_name] is a number, with a validation that
    refuses numbers for a [str] field: the [UPDATE] is committed, then
    building the response raises. *)
Lemma normalize_commit_then_fail_example :
  let row := mk_db (mk_entry 1 "a cat" "t" None (Some "somewhere") None None None None)
               0 None None in
  let hit := PDict [("display_name", PInt 5); ("lat", PStr "1"); ("lon", PStr "2")] in
  let '(res, es, _) :=
    normalize_entry_location (fun _ => "") (fun _ => "") unit (fun _ => Some 1)
      (fun _ => "") (fun _ => None) [row] 1 false (nominatim_circuit, 0) 100 100 true
      (fun _ => (10, 11)) (fun _ => Response 200 (Some (PList [hit]))) (fun _ => 0) in
  res = inl NormServerError /\
  es = [mk_db (mk_entry 1 "a cat" "t" None (Some "somewhere") (Some "5") (Some 1) (Some 1)
                 None) 0 None (Some "")].
Proof. cbn. split; reflexivity. Qed.

End NormalizeFacts.

Module NormalizeTheorems.

Import Store Endpoints Circuit Geocode Normalize GeocodeFacts NormalizeFacts.

Ltac status_in := split; [reflexivity|]; repeat (first [left; reflexivity | right]).

Section NormalizeTheorems.

Variable float_repr : R -> string.
Variable container_str : pyval -> string.
Variable exn : Type.
Variable parse_float : string -> option R.
Variable sqlite_real_text : R -> string.
Variable coerce_str : pyval -> option string.

(** [normalize_entry_location] answers 404 for a missing entry and then
    changes nothing. Otherwise the only change to the table is the
    [UPDATE] of the entry [entry_id] with a name, the coordinates and an
    OSM id; it happens on a ["success"] response with those coordinates,
    or is committed before the response fails to validate (a 500). A
    response always names [entry_id], with a status among
    ["no_location"], ["already_normalized"], ["success"], ["not_found"],
    ["fallback"] and ["error"]. *)
Theorem normalize_entry_location_spec (entries : list db_entry) (entry_id : Z)
    (force : bool) (st : CircuitBreaker * R) (now now_fail : R) (httpx_available : bool)
    (clock : nat -> R * R) (exchanges : nat -> http_exchange) (random : nat -> R) :
  let '(res, es', st') :=
    normalize_entry_location float_repr container_str exn parse_float sqlite_real_text
      coerce_str entries entry_id force st now now_fail httpx_available clock exchanges
      random in
  (select_db entries entry_id = None -> res = inl NormNotFound /\ es' = entries /\ st' = st) /\
  (es' = entries \/
   exists name lat lon osm,
     es' = update_entries entry_id (set_normalized name lat lon osm) entries /\
     (res = inl NormServerError \/
      exists r, res = inr r /\ n_status r = "success" /\
                n_latitude r = Some lat /\ n_longitude r = Some lon)) /\
  (forall r, res = inr r ->
   n_entry_id r = entry_id /\
   In (n_status r) ["no_location"; "already_normalized"; "success"; "not_found"; "fallback";
                    "error"]).
Proof.
  unfold normalize_entry_location.
  destruct (select_db entries entry_id) as [row|] eqn:Hs.
  2:{ split; [auto|]. split; [left; reflexivity|]. intros r Hr; discriminate. }
  destruct (e_location (d_row row)) as [loc|].
  2:{ split; [discriminate|]. split; [left; reflexivity|].
      intros r Hr. injection Hr as <-. simpl. status_in. }
  destruct (String.eqb loc "").
  { split; [discriminate|]. split; [left; reflexivity|].
    intros r Hr. injection Hr as <-. simpl. status_in. }
  destruct (negb force && truthy_str (e_location_normalized (d_row row))
            && truthy_float (e_location_lat (d_row row))).
  { split; [discriminate|]. split; [left; reflexivity|].
    intros r Hr. injection Hr as <-. simpl. status_in. }
  pose proof (geocode_dict_cases float_repr container_str exn st now now_fail loc
                httpx_available clock exchanges random) as Hfb.
  cbv zeta in Hfb.
  destruct (geocode_with_fallback float_repr container_str exn st now now_fail loc
              httpx_available clock exchanges random) as [[geo sleeps] st'].
  simpl in Hfb.
  destruct (py_truthy (g_lat geo) && py_truthy (g_lon geo)).
  - destruct (py_float parse_float (g_lat geo)) as [lat|];
      [destruct (py_float parse_float (g_lon geo)) as [lon|]|];
      [|split; [discriminate|]; split; [left; reflexivity|]; intros r Hr; discriminate..].
    destruct (sql_text sqlite_real_text (g_display_name geo)) as [name|];
      [destruct (sql_text sqlite_real_text (g_osm_id geo)) as [osm|]|];
      [|split; [discriminate|]; split; [left; reflexivity|]; intros r Hr; discriminate..].
    destruct (validate_opt_str coerce_str (g_display_name geo)) as [normalized|];
      [destruct (validate_opt_str coerce_str (g_osm_id geo)) as [osm_id|]|].
    + split; [discriminate|]. split.
      * right. exists name, lat, lon, osm. split; [reflexivity|].
        right. eexists. split; [reflexivity|]. auto.
      * intros r Hr. injection Hr as <-. simpl. status_in.
    + split; [discriminate|]. split; [|intros r Hr; discriminate].
      right. exists name, lat, lon, osm. auto.
    + split; [discriminate|]. split; [|intros r Hr; discriminate].
      right. exists name, lat, lon, osm. auto.
  - destruct Hfb as [Hn|[status [Hin Hd]]].
    + rewrite Hn. simpl.
      destruct (validate_opt_str coerce_str (g_display_name geo));
        split; (try discriminate); split; (try (left; reflexivity));
        intros r Hr; discriminate.
    + rewrite Hd. simpl. split; [discriminate|]. split; [left; reflexivity|].
      intros r Hr. injection Hr as <-. simpl. split; [reflexivity|].
      simpl in Hin. simpl. tauto.
Qed.

(** For an existing entry, [normalize_entry_location] returns without
    geocoding when the entry has no location (or an empty one), and, when
    [force] is false, when the entry is already normalized with a truthy
    latitude; the table and the geocoder state are then unchanged. A
    latitude of exactly [0.0] is falsy, so such an entry is geocoded
    again: the breaker and rate-limit state afterwards are the ones
    [geocode_with_fallback] leaves. *)
Theorem normalize_skips (entries : list db_entry) (entry_id : Z) (row : db_entry)
    (force : bool) (st : CircuitBreaker * R) (now now_fail : R) (httpx_available : bool)
    (clock : nat -> R * R) (exchanges : nat -> http_exchange) (random : nat -> R) :
  select_db entries entry_id = Some row ->
  let run := normalize_entry_location float_repr container_str exn parse_float
               sqlite_real_text coerce_str entries entry_id force st now now_fail
               httpx_available clock exchanges random in
  ((e_location (d_row row) = None \/ e_location (d_row row) = Some "") ->
   run = (inr (mk_norm entry_id "" None None None None "no_location"
                 (Some "Entry has no location to normalize")), entries, st)) /\
  (forall loc, e_location (d_row row) = Some loc -> loc <> "" -> force = false ->
   truthy_str (e_location_normalized (d_row row)) = true ->
   truthy_float (e_location_lat (d_row row)) = true ->
   run = (inr (mk_norm entry_id loc (e_location_normalized (d_row row))
                 (e_location_lat (d_row row)) (e_location_lon (d_row row))
                 (d_location_osm_id row) "already_normalized"
                 (Some "Location already normalized. Use force=true to re-normalize.")),
          entries, st)) /\
  (forall loc, e_location (d_row row) = Some loc -> loc <> "" ->
   e_location_lat (d_row row) = Some 0 ->
   snd run = snd (geocode_with_fallback float_repr container_str exn st now now_fail loc
                    httpx_available clock exchanges random)).
Proof.
  intros Hs run. unfold run, normalize_entry_location. rewrite Hs.
  split; [|split].
  - intros [Hl|Hl]; rewrite Hl; reflexivity.
  - intros loc Hl Hne Hf Hn Hlat. rewrite Hl.
    apply String.eqb_neq in Hne. rewrite Hne, Hf, Hn, Hlat. reflexivity.
  - intros loc Hl Hne Hlat. rewrite Hl.
    apply String.eqb_neq in Hne. rewrite Hne, Hlat.
    assert (Hz : truthy_float (Some 0) = false).
    { unfold truthy_float. destruct (Req_EM_T 0 0); [reflexivity|congruence]. }
    rewrite Hz, andb_false_r.
    destruct (geocode_with_fallback float_repr container_str exn st now now_fail loc
                httpx_available clock exchanges random) as [[geo sleeps] st'].
    simpl.
    repeat match goal with
           | |- context [match ?x with _ => _ end] => destruct x
           end; reflexivity.
Qed.

End NormalizeTheorems.

Definition sample_unlocated : db_entry :=
  mk_db (mk_entry 7 "a cat" "t" None None None None None None) 0 None None.

Lemma normalize_skips_witness :
  select_db [sample_unlocated] 7 = Some sample_unlocated /\
  normalize_entry_location (fun _ => "") (fun _ => "") unit (fun _ => None) (fun _ => "")
    (fun _ => None) [sample_unlocated] 7 false (nominatim_circuit, 0) 0 0 true
    (fun _ => (0, 0)) (fun _ => RequestRaised) (fun _ => 0) =
  (inr (mk_norm 7 "" None None None None "no_location"
          (Some "Entry has no location to normalize")), [sample_unlocated],
   (nominatim_circuit, 0)).
Proof.
  split; [reflexivity|].
  apply (normalize_skips (fun _ => "") (fun _ => "") unit (fun _ => None) (fun _ => "")
           (fun _ => None) [sample_unlocated] 7 sample_unlocated false (nominatim_circuit, 0)
           0 0 true (fun _ => (0, 0)) (fun _ => RequestRaised) (fun _ => 0)).
  - reflexivity.
  - left. reflexivity.
Defined.

End NormalizeTheorems.

Module InsightFacts.

Import Store Analyzers Endpoints Insights.

Lemma py_round_2_exact (x : R) (k : Z) : x * 100 = IZR k -> Py.py_round x 2 = x.
Proof.
  intros Hk. unfold Py.py_round, Py.round_half_even.
  replace (x * 10 ^ 2) with (IZR k) by (simpl; lra).
  rewrite (NumFacts.Int_part_eq (IZR k) k) by lra.
  replace (IZR k - IZR k) with 0 by ring.
  destruct (Rlt_dec 0 (1 / 2)); [|lra].
  simpl. lra.
Qed.

Lemma insight_confidence_round (n : nat) :
  Py.py_round (insight_confidence n) 2 = insight_confidence n.
Proof.
  unfold insight_confidence. cbv zeta.
  destruct (n <? 2)%nat.
  - apply (py_round_2_exact _ 40). lra.
  - unfold Rmin. destruct (Rle_dec 0.85 (0.35 + 0.08 * INR n)).
    + apply (py_round_2_exact _ 85). lra.
    + apply (py_round_2_exact _ (35 + 8 * Z.of_nat n)).
      rewrite plus_IZR, mult_IZR, <- INR_IZR_INZ. lra.
Qed.

Lemma insight_confidence_bounds (n : nat) :
  0.4 <= insight_confidence n <= 0.85.
Proof.
  unfold insight_confidence. cbv zeta.
  destruct (n <? 2)%nat eqn:Hn; [lra|].
  apply Nat.ltb_ge in Hn. apply le_INR in Hn. simpl in Hn.
  split.
  - apply Rmin_glb; lra.
  - apply Rmin_l.
Qed.

Lemma take_actions_for (mode : string) : take 8 (actions_for mode) = actions_for mode.
Proof.
  unfold actions_for.
  destruct (String.eqb mode "care"); [reflexivity|].
  destruct (String.eqb mode "risk"); [reflexivity|].
  destruct (String.eqb mode "update"); reflexivity.
Qed.

Lemma in_take {A} (n : nat) (l : list A) (x : A) : In x (take n l) -> In x l.
Proof.
  intros H. rewrite <- (take_drop n l). apply in_or_app. left. exact H.
Qed.

Lemma in_flag_keywords (lower f : string) :
  In f (flat_map (fun '(kw, flag) => if contains kw lower then [flag] else [])
          FLAG_KEYWORDS) ->
  exists kw, In (kw, f) FLAG_KEYWORDS /\ contains kw lower = true.
Proof.
  intros H. apply in_flat_map in H as [[kw flag] [Hin Hf]].
  destruct (contains kw lower) eqn:Hc; [|contradiction].
  destruct Hf as [<-|[]]. eauto.
Qed.

Lemma flags_length (lower : string) :
  (List.length (flat_map (fun '(kw, flag) => if contains kw lower then [flag] else [])
             FLAG_KEYWORDS) <= 8)%nat.
Proof.
  unfold FLAG_KEYWORDS. simpl.
  repeat match goal with
         | |- context [contains ?k lower] => destruct (contains k lower)
         end; simpl; lia.
Qed.

Lemma retrieve_nil (entries : list db_entry) (cat_id : Z) :
  List.filter (linked_to cat_id) entries = [] ->
  retrieve_cat_sightings entries cat_id 10 = [].
Proof.
  intros H. unfold retrieve_cat_sightings. simpl.
  pose proof (ProfileFacts.cat_sightings_length entries cat_id) as Hl.
  rewrite H in Hl. destruct (cat_sightings entries cat_id); [reflexivity|discriminate].
Qed.

Lemma find_app_none {A} (p : A -> bool) (l1 l2 : list A) :
  List.find p l1 = None -> List.find p (l1 ++ l2) = List.find p l2.
Proof.
  induction l1 as [|a l1 IH]; simpl; [reflexivity|].
  destruct (p a); [discriminate|exact IH].
Qed.

End InsightFacts.

Module InsightTheorems.

Import Store Analyzers Endpoints Insights InsightFacts.

(** The stub insight keeps [cat_id], [mode] and the prompt version
    ["v1"]. Its confidence is [0.4] below two sightings and
    [min(0.85, 0.35 + 0.08 n)] from two on (rounding to two decimals does
    not change it), so it lies in [[0.4, 0.85]]. It cites the first five
    sightings in order, has at most eight flags, each raised by a keyword
    found in the lower-cased notes, and suggests the actions of its mode. *)
Theorem generate_cat_insight_stub_spec (cat_id : Z) (mode : string)
    (sightings : list entry_row) (question : option string) (now : string) :
  let ins := generate_cat_insight_stub cat_id mode sightings question now in
  in_cat_id ins = cat_id /\ in_mode ins = mode /\ in_prompt_version ins = "v1" /\
  in_generatedAt ins = now /\
  in_confidence ins =
    (if (List.length sightings <? 2)%nat then 0.4
     else Rmin 0.85 (0.35 + 0.08 * INR (List.length sightings))) /\
  0.4 <= in_confidence ins <= 0.85 /\
  map ci_entry_id (in_citations ins) = map e_id (take 5 sightings) /\
  (List.length (in_flags ins) <= 8)%nat /\
  (forall f, In f (in_flags ins) ->
   exists kw, In (kw, f) FLAG_KEYWORDS /\
              contains kw (Text.str_lower (notes_of sightings)) = true) /\
  in_suggested_actions ins = actions_for mode.
Proof.
  cbv zeta. unfold generate_cat_insight_stub. simpl.
  rewrite insight_confidence_round.
  split; [reflexivity|]. split; [reflexivity|]. split; [reflexivity|].
  split; [reflexivity|]. split; [reflexivity|].
  split; [apply insight_confidence_bounds|].
  split; [rewrite map_map; reflexivity|].
  split.
  { rewrite length_take. pose proof (flags_length (Text.str_lower (notes_of sightings))). lia. }
  split; [|apply take_actions_for].
  intros f Hf. apply in_take in Hf. apply in_flag_keywords. exact Hf.
Qed.

Section InsightTheorems.

Variable sha256_hex : string -> string.
Variable insight_to_json : insight -> string.
Variable insight_from_json : string -> insight.

(** [cat_insights] rejects a mode outside [profile], [care], [update] and
    [risk] (after [strip().lower()]) with 400, an unknown cat with 404 and
    a cat with no linked sighting with 400, leaving the table unchanged.
    A success either leaves the table unchanged (cache hit) or appends
    one row for this cat, mode and prompt version holding the JSON of the
    returned insight. *)
Theorem cat_insights_errors (cats : list cat_db) (entries : list db_entry)
    (table : list insight_row) (cat_id : Z) (payload_mode : string)
    (question : option string) (gen_now now : string) :
  let mode := Text.str_lower (strip payload_mode) in
  let run := cat_insights sha256_hex insight_to_json insight_from_json cats entries table
               cat_id payload_mode question gen_now now in
  (~ In mode VALID_MODES -> run = (inl InvalidState, table)) /\
  (In mode VALID_MODES -> find_cat cats cat_id = None -> run = (inl NotFound, table)) /\
  (In mode VALID_MODES -> find_cat cats cat_id <> None ->
   List.filter (linked_to cat_id) entries = [] -> run = (inl InvalidState, table)) /\
  (forall ins table', run = (inr ins, table') ->
   table' = table \/
   exists hash, table' = table ++ [mk_insight_row cat_id mode PROMPT_VERSION hash
                                    (insight_to_json ins) now now]).
Proof.
  cbv zeta. unfold cat_insights.
  assert (Hv : forall m, existsb (String.eqb m) VALID_MODES = true <-> In m VALID_MODES).
  { intros m. rewrite existsb_exists. split.
    - intros [x [Hx Hm]]. apply String.eqb_eq in Hm. subst. exact Hx.
    - intros Hm. exists m. split; [exact Hm|apply String.eqb_refl]. }
  split; [|split; [|split]].
  - intros Hn. destruct (existsb _ VALID_MODES) eqn:He; [|reflexivity].
    apply Hv in He. contradiction.
  - intros Hm Hc. apply Hv in Hm. rewrite Hm, Hc. reflexivity.
  - intros Hm Hc Hf. apply Hv in Hm. rewrite Hm.
    destruct (find_cat cats cat_id); [|congruence].
    rewrite retrieve_nil by exact Hf. reflexivity.
  - intros ins table' Hr.
    destruct (negb _); [discriminate|].
    destruct (find_cat cats cat_id); [|discriminate].
    destruct (retrieve_cat_sightings entries cat_id 10) as [|s ss]; [discriminate|].
    destruct (select_insight _ _ _ _); injection Hr as <- <-; [left; reflexivity|].
    right. eexists. reflexivity.
Qed.

(** A successful [cat_insights] call is repeatable: when the stored JSON
    reads back as the insight it encodes, calling again on the resulting
    table with the same cats, sightings, cat and mode (any spelling that
    [strip().lower()] maps to the same mode), whatever the question and
    the timestamps, returns the same insight and leaves that table as it
    is. *)
Theorem cat_insights_repeat (cats : list cat_db) (entries : list db_entry)
    (table table' : list insight_row) (cat_id : Z) (mode mode' : string)
    (question question' : option string) (gen_now now gen_now' now' : string)
    (ins : insight) :
  cat_insights sha256_hex insight_to_json insight_from_json cats entries table
    cat_id mode question gen_now now = (inr ins, table') ->
  insight_from_json (insight_to_json ins) = ins ->
  Text.str_lower (strip mode') = Text.str_lower (strip mode) ->
  cat_insights sha256_hex insight_to_json insight_from_json cats entries table'
    cat_id mode' question' gen_now' now' = (inr ins, table').
Proof.
  intros Hr Hjson Hm. unfold cat_insights in *. rewrite Hm.
  destruct (negb _); [discriminate|].
  destruct (find_cat cats cat_id); [|discriminate].
  destruct (retrieve_cat_sightings entries cat_id 10) as [|s ss]; [discriminate|].
  destruct (select_insight _ _ _ _) as [row|] eqn:Hsel.
  - injection Hr as <- <-. rewrite Hsel. reflexivity.
  - injection Hr as <- <-. unfold select_insight in *.
    rewrite find_app_none by exact Hsel. simpl.
    rewrite Z.eqb_refl, !String.eqb_refl. simpl. rewrite Hjson. reflexivity.
Qed.

End InsightTheorems.

Definition sample_insight : insight :=
  mk_insight 1 "profile" PROMPT_VERSION 0 [] [] [] [] [] "t".

Definition sample_insight_row : insight_row :=
  mk_insight_row 1 "profile" PROMPT_VERSION "h" "j" "t" "t".

Definition sample_linked : db_entry :=
  mk_db (mk_entry 5 "x" "t" None None None None None (Some 1%Z)) 0 None None.

Lemma cat_insights_repeat_witness :
  cat_insights (fun _ => "h") (fun _ => "j") (fun _ => sample_insight)
    [mk_cat_db 1 None "t"] [sample_linked] [sample_insight_row] 1 "Profile " None "t" "t"
  = (inr sample_insight, [sample_insight_row]).
Proof.
  apply (cat_insights_repeat (fun _ => "h") (fun _ => "j") (fun _ => sample_insight)
           [mk_cat_db 1 None "t"] [sample_linked] [sample_insight_row] [sample_insight_row]
           1 "profile" "Profile " None None "u" "u" "t" "t" sample_insight).
  - vm_compute. reflexivity.
  - reflexivity.
  - vm_compute. reflexivity.
Defined.

End InsightTheorems.
